(** * Loan cost simulation and recommendation engine: a shallow embedding

    The development follows [app/services/financial.py] and
    [app/services/recommendations.py].

    Numbers.  The Python code computes on [float] and [int].  Month counters
    and other [int] values are modelled as [Z]; [float] values are modelled as
    exact rationals [Q], compared with [Qeq] ([==]).  Rounding, overflow,
    infinities and NaN of IEEE arithmetic are therefore outside this model: a
    general statement proved on it is a statement about the algorithm in
    exact arithmetic, and says so.  Where rounding or the range of a double
    decides what the code does on an input, the input is evaluated on the
    module [Double], which repeats the arithmetic on binary64 values.

    Exceptions.  The only exception the arithmetic can raise in exact
    arithmetic is [ZeroDivisionError]; a division whose divisor is not a
    non-zero literal is written [x // y] and lives in the error monad [exc].
    On doubles a power can also raise [OverflowError]. *)

From Stdlib Require Import ZArith QArith Qabs Qpower Qminmax.
From Stdlib Require Import List Permutation Bool Lia Lqa Ascii String.
From Stdlib Require Floats.PrimFloat Numbers.Cyclic.Int63.Uint63.
Import ListNotations.

Open Scope Q_scope.

(** ** Python values: exceptions, comparisons, builtins *)

Module Py.

Inductive exn : Set :=
| ZeroDivisionError
| OverflowError.

Inductive exc (A : Type) : Type :=
| Raise (e : exn)
| Return (a : A).

Arguments Raise {A} e.
Arguments Return {A} a.

Definition bind {A B : Type} (c : exc A) (k : A -> exc B) : exc B :=
  match c with
  | Raise e => Raise e
  | Return a => k a
  end.

(** [x / y] on floats. *)
Definition truediv (x y : Q) : exc Q :=
  if Qeq_bool y 0 then Raise ZeroDivisionError else Return (x / y).

(** [x < y] *)
Definition ltb (x y : Q) : bool := negb (Qle_bool y x).

(** [x <= y] *)
Definition leb (x y : Q) : bool := Qle_bool x y.

(** [sum(xs)] *)
Definition sum (xs : list Q) : Q := fold_left Qplus xs 0.

(** [range(lo, hi)] *)
Definition range (lo hi : Z) : list Z :=
  map (fun i => (lo + Z.of_nat i)%Z) (seq 0 (Z.to_nat (hi - lo))).

(** [enumerate(xs)] *)
Definition enumerate {A : Type} (xs : list A) : list (Z * A) :=
  combine (map Z.of_nat (seq 0 (List.length xs))) xs.

End Py.

Import Py.

Notation "x <- c ;; k" := (Py.bind c (fun x => k))
  (at level 61, c at next level, right associativity).
Notation "x // y" := (Py.truediv x y) (at level 40, left associativity).

(** ** Data classes of [financial.py] *)

Module MonthlyPayment.
Record t : Set := mk {
  month : Z;
  interest : Q;
  principal : Q;
  payment : Q;
  remaining_balance : Q;
  fees : Q;
  insurance : Q;
  rate_applied : Q;
  is_grace_period : bool
}.
End MonthlyPayment.

Module AmortizationSchedule.
Record t : Set := mk {
  payments : list MonthlyPayment.t;
  total_interest : Q;
  total_principal : Q;
  total_payments : Q;
  total_fees : Q;
  total_insurance : Q
}.
(** [AmortizationSchedule(payments=[])] : every total keeps its default. *)
Definition empty : t := mk [] 0 0 0 0 0.
End AmortizationSchedule.

Module RateStructure.
Record t : Set := mk {
  fixed_rate_pct : Q;
  fixed_months : Z;
  floating_margin_pct : Q;
  reference_rate_pct : Q
}.

Definition get_rate_for_month (self : t) (month : Z) (scenario_bump : Q) : Q :=
  if (month <=? fixed_months self)%Z then
    fixed_rate_pct self / 100
  else
    (reference_rate_pct self + floating_margin_pct self + scenario_bump * 100) / 100.
End RateStructure.

(** One entry of [prepayment_schedule]: a dict read with
    [tier.get("months_from", 0)], [tier.get("months_to")] and
    [tier.get("fee_pct", 0)]; [None] is an absent key. *)
Module PrepaymentTier.
Record t : Set := mk {
  months_from : option Z;
  months_to : option Z;
  fee_pct : option Q
}.
End PrepaymentTier.

Module FeeStructure.
Record t : Set := mk {
  origination_fee_pct : Q;
  origination_min_vnd : Q;
  origination_max_vnd : option Q;   (* None is float('inf') *)
  appraisal_fee_vnd : Q;
  disbursement_fee_vnd : Q;
  disbursement_fee_pct : Q;
  account_maintenance_fee_vnd : Q;
  insurance_annual_pct : Q;
  insurance_vnd : Q;
  insurance_basis : string;
  property_value_vnd : Q;
  prepayment_schedule : list PrepaymentTier.t
}.
(** [FeeStructure()] *)
Definition default : t :=
  mk 0 0 None 0 0 0 0 0 0 "on_balance" 0 [].
End FeeStructure.

Module PrepaymentInfo.
Record t : Set := mk {
  prepayment_month : option Z;
  prepayment_amount_vnd : option Q;
  is_partial : bool
}.
End PrepaymentInfo.

Module LoanCostSummary.
Record t : Set := mk {
  total_interest : Q;
  total_fees : Q;
  total_insurance : Q;
  total_cost_excluding_principal : Q;
  total_out_of_pocket : Q;
  apr : Q;
  monthly_payment_first_12m : Q;
  monthly_payment_post_promo : Q;
  prepayment_fee : Q
}.
End LoanCostSummary.

(** ** Core amortization functions *)

Definition annuity_payment (principal annual_rate : Q) (months : Z) : exc Q :=
  if Py.leb principal 0 || (months <=? 0)%Z then Return 0
  else
    let monthly_rate := Qmax annual_rate 0 / 12 in
    if Qeq_bool monthly_rate 0 then principal // inject_Z months
    else
      let factor := (1 + monthly_rate) ^ months in
      (principal * monthly_rate * factor) // (factor - 1).

(** ** Fee calculations *)

Definition _calculate_upfront_fees (principal : Q) (fee_structure : FeeStructure.t) : Q :=
  let total := 0 in
  let origination := principal * (FeeStructure.origination_fee_pct fee_structure / 100) in
  let origination := Qmax origination (FeeStructure.origination_min_vnd fee_structure) in
  let origination :=
    match FeeStructure.origination_max_vnd fee_structure with
    | None => origination
    | Some cap => Qmin origination cap
    end in
  let total := total + origination in
  let total := total + FeeStructure.appraisal_fee_vnd fee_structure in
  let total := total + FeeStructure.disbursement_fee_vnd fee_structure in
  let total := total + principal * (FeeStructure.disbursement_fee_pct fee_structure / 100) in
  total.

Definition _calculate_monthly_insurance (balance : Q) (fee_structure : FeeStructure.t) : Q :=
  if Py.ltb 0 (FeeStructure.insurance_vnd fee_structure) then
    FeeStructure.insurance_vnd fee_structure / 12
  else if Py.ltb 0 (FeeStructure.insurance_annual_pct fee_structure) then
    if String.eqb (FeeStructure.insurance_basis fee_structure) "on_property_value"
       && Py.ltb 0 (FeeStructure.property_value_vnd fee_structure)
    then FeeStructure.property_value_vnd fee_structure
         * (FeeStructure.insurance_annual_pct fee_structure / 100) / 12
    else balance * (FeeStructure.insurance_annual_pct fee_structure / 100) / 12
  else 0.

(** [months_from <= month <= months_to], with [months_to = inf] when absent. *)
Definition tier_covers (tier : PrepaymentTier.t) (month : Z) : bool :=
  let months_from := match PrepaymentTier.months_from tier with Some m => m | None => 0%Z end in
  (months_from <=? month)%Z
  && match PrepaymentTier.months_to tier with
     | None => true
     | Some months_to => (month <=? months_to)%Z
     end.

Fixpoint _calculate_prepayment_fee (remaining_balance : Q) (month : Z)
    (prepayment_schedule : list PrepaymentTier.t) : Q :=
  match prepayment_schedule with
  | [] => 0
  | tier :: rest =>
      if tier_covers tier month then
        let fee_pct := match PrepaymentTier.fee_pct tier with Some f => f | None => 0 end in
        remaining_balance * (fee_pct / 100)
      else _calculate_prepayment_fee remaining_balance month rest
  end.

Definition calculate_prepayment_fee (remaining_balance : Q) (month : Z)
    (fee_structure : option FeeStructure.t) : Q :=
  match fee_structure with
  | None => 0
  | Some fs =>
      _calculate_prepayment_fee remaining_balance month (FeeStructure.prepayment_schedule fs)
  end.

(** ** The amortization scheduler *)

(** The local variables of [generate_amortization_schedule] that the monthly
    loop reads and writes. *)
Module Loop.
Record t : Set := mk {
  payments : list MonthlyPayment.t;
  remaining : Q;
  total_interest : Q;
  total_principal : Q;
  total_fees : Q;
  total_insurance : Q;
  current_rate : Q;
  months_at_current_rate : Z;
  remaining_at_rate_start : Q
}.
End Loop.

Section Scheduler.

Variable principal : Q.
Variable tenor_months : Z.
Variable rate_structure : RateStructure.t.
Variable repayment_method : string.
Variable grace_principal_months : Z.
Variable grace_interest_months : Z.
Variable fee_structure : option FeeStructure.t.
Variable prepayment_info : option PrepaymentInfo.t.
Variable scenario_bump : Q.

(** [prepayment_info and prepayment_info.prepayment_month == month] *)
Definition prepayment_due (month : Z) : bool :=
  match prepayment_info with
  | None => false
  | Some info =>
      match PrepaymentInfo.prepayment_month info with
      | None => false
      | Some k => (k =? month)%Z
      end
  end.

(** The principal portion and the payment of a month outside the principal
    grace period. *)
Definition principal_and_payment (month : Z) (remaining interest current_rate : Q)
    : exc (Q * Q) :=
  let remaining_months := (tenor_months - month + 1)%Z in
  if String.eqb repayment_method "equal_principal" then
    principal_payment <- remaining // inject_Z remaining_months ;;
    Return (principal_payment, principal_payment + interest)
  else
    payment <- annuity_payment remaining current_rate remaining_months ;;
    Return (payment - interest, payment).

(** One iteration of [for month in range(1, tenor_months + 1)]; the boolean
    is [true] when the iteration ends in [break]. *)
Definition loop_body (month : Z) (st : Loop.t) : exc (Loop.t * bool) :=
  let remaining := Loop.remaining st in
  if prepayment_due month then
    let prepay_fee :=
      _calculate_prepayment_fee remaining month
        (match fee_structure with
         | Some fs => FeeStructure.prepayment_schedule fs
         | None => []
         end) in
    let final_payment :=
      MonthlyPayment.mk month 0 remaining (remaining + prepay_fee) 0 prepay_fee 0
        (Loop.current_rate st) false in
    Return
      (Loop.mk (Loop.payments st ++ [final_payment]) remaining
         (Loop.total_interest st)
         (Loop.total_principal st + remaining)
         (Loop.total_fees st + prepay_fee)
         (Loop.total_insurance st)
         (Loop.current_rate st) (Loop.months_at_current_rate st)
         (Loop.remaining_at_rate_start st),
       true)
  else
    let new_rate := RateStructure.get_rate_for_month rate_structure month scenario_bump in
    let rate_changed := Py.ltb 1e-10 (Qabs (new_rate - Loop.current_rate st)) in
    let current_rate := if rate_changed then new_rate else Loop.current_rate st in
    let months_at_current_rate :=
      if rate_changed then 0%Z else Loop.months_at_current_rate st in
    let remaining_at_rate_start :=
      if rate_changed then remaining else Loop.remaining_at_rate_start st in
    let months_at_current_rate := (months_at_current_rate + 1)%Z in
    let monthly_rate := current_rate / 12 in
    let is_principal_grace := (month <=? grace_principal_months)%Z in
    let is_interest_grace := (month <=? grace_interest_months)%Z in
    let interest := if is_interest_grace then 0 else remaining * monthly_rate in
    pp <- (if is_principal_grace then Return (0, interest)
           else principal_and_payment month remaining interest current_rate) ;;
    let payment := snd pp in
    let principal_payment := Qmin (fst pp) remaining in
    let remaining := Qmax 0 (remaining - principal_payment) in
    let monthly_fees :=
      match fee_structure with
      | Some fs => FeeStructure.account_maintenance_fee_vnd fs
      | None => 0
      end in
    let monthly_insurance :=
      match fee_structure with
      | Some fs => _calculate_monthly_insurance (remaining + principal_payment) fs
      | None => 0
      end in
    let mp :=
      MonthlyPayment.mk month interest principal_payment payment remaining
        monthly_fees monthly_insurance current_rate
        (is_principal_grace || is_interest_grace) in
    Return
      (Loop.mk (Loop.payments st ++ [mp]) remaining
         (Loop.total_interest st + interest)
         (Loop.total_principal st + principal_payment)
         (Loop.total_fees st + monthly_fees)
         (Loop.total_insurance st + monthly_insurance)
         current_rate months_at_current_rate remaining_at_rate_start,
       Py.leb remaining 0).

(** The [for] loop over the remaining months, leaving on [break]. *)
Fixpoint for_months (months : list Z) (st : Loop.t) : exc Loop.t :=
  match months with
  | [] => Return st
  | month :: rest =>
      r <- loop_body month st ;;
      if snd r then Return (fst r) else for_months rest (fst r)
  end.

Definition initial_loop : Loop.t :=
  let upfront_fees :=
    match fee_structure with
    | Some fs => _calculate_upfront_fees principal fs
    | None => 0
    end in
  Loop.mk [] principal 0 0 (0 + upfront_fees) 0
    (RateStructure.get_rate_for_month rate_structure 1 scenario_bump) 0 principal.

Definition generate_amortization_schedule : exc AmortizationSchedule.t :=
  if Py.leb principal 0 || (tenor_months <=? 0)%Z then
    Return AmortizationSchedule.empty
  else
    st <- for_months (Py.range 1 (tenor_months + 1)) initial_loop ;;
    Return
      (AmortizationSchedule.mk (Loop.payments st)
         (Loop.total_interest st)
         (Loop.total_principal st)
         (Py.sum (map MonthlyPayment.payment (Loop.payments st)))
         (Loop.total_fees st)
         (Loop.total_insurance st)).

End Scheduler.

(** ** APR / IRR *)

Section IRR.

Variable cashflows : list Q.
Variable tolerance : Q.

(** The inner loop [for t, cf in enumerate(cashflows)]: the pair is
    [(npv, npv_derivative)]. *)
Fixpoint npv_and_derivative (rate : Q) (items : list (Z * Q)) (acc : Q * Q)
    : exc (Q * Q) :=
  match items with
  | [] => Return acc
  | (t, cf) :: rest =>
      let discount := (1 + rate) ^ t in
      term <- cf // discount ;;
      let npv := fst acc + term in
      npv_derivative <-
        (if (0 <? t)%Z then
           dterm <- (inject_Z t * cf) // ((1 + rate) ^ (t + 1)) ;;
           Return (snd acc - dterm)
         else Return (snd acc)) ;;
      npv_and_derivative rate rest (npv, npv_derivative)
  end.

(** How one pass of the Newton-Raphson loop ends. *)
Inductive iteration : Set :=
| Underflow                       (* [break]: the derivative is below 1e-20 *)
| Converged (new_rate : Q)        (* [return new_rate] *)
| Next (new_rate : Q).            (* [rate = new_rate] *)

Definition newton_iteration (rate : Q) : exc iteration :=
  nd <- npv_and_derivative rate (Py.enumerate cashflows) (0, 0) ;;
  let npv := fst nd in
  let npv_derivative := snd nd in
  if Py.ltb (Qabs npv_derivative) 1e-20 then Return Underflow
  else
    step <- npv // npv_derivative ;;
    let new_rate := rate - step in
    let new_rate := Qmax (-0.5) (Qmin new_rate 1.0) in
    if Py.ltb (Qabs (new_rate - rate)) tolerance then Return (Converged new_rate)
    else Return (Next new_rate).

(** [for _ in range(max_iterations)] followed by [return rate]. *)
Fixpoint newton_loop (iterations : nat) (rate : Q) : exc Q :=
  match iterations with
  | O => Return rate
  | S iterations' =>
      it <- newton_iteration rate ;;
      match it with
      | Underflow => Return rate
      | Converged new_rate => Return new_rate
      | Next new_rate => newton_loop iterations' new_rate
      end
  end.

Definition calculate_irr_with (max_iterations : Z) : exc Q :=
  if (List.length cashflows <? 2)%nat then Return 0
  else newton_loop (Z.to_nat max_iterations) 0.01.

End IRR.

(** [calculate_irr(cashflows)] with the default [max_iterations=100] and
    [tolerance=1e-10]. *)
Definition calculate_irr (cashflows : list Q) : exc Q :=
  calculate_irr_with cashflows 1e-10 100.

(** The cashflow list built by [calculate_apr]. *)
Definition apr_cashflows (principal : Q) (schedule : AmortizationSchedule.t)
    (upfront_fees prepayment_fee : Q) : list Q :=
  let payments := AmortizationSchedule.payments schedule in
  let net_disbursement := principal - upfront_fees in
  net_disbursement ::
  map (fun ip : Z * MonthlyPayment.t =>
         let payment := snd ip in
         let total_payment :=
           MonthlyPayment.payment payment + MonthlyPayment.fees payment
           + MonthlyPayment.insurance payment in
         let total_payment :=
           if (fst ip =? Z.of_nat (List.length payments) - 1)%Z
           then total_payment + prepayment_fee else total_payment in
         - total_payment)
      (Py.enumerate payments).

Definition calculate_apr (principal : Q) (schedule : AmortizationSchedule.t)
    (upfront_fees prepayment_fee : Q) : exc Q :=
  match AmortizationSchedule.payments schedule with
  | [] => Return 0
  | _ =>
      monthly_irr <-
        calculate_irr (apr_cashflows principal schedule upfront_fees prepayment_fee) ;;
      Return ((1 + monthly_irr) ^ 12 - 1)
  end.

(** ** Stress testing *)

(** [sum(xs) / len(xs) if xs else 0] *)
Definition average (xs : list Q) : exc Q :=
  match xs with
  | [] => Return 0
  | _ => Py.sum xs // inject_Z (Z.of_nat (List.length xs))
  end.

Section Stress.

Variable principal : Q.
Variable tenor_months : Z.
Variable rate_structure : RateStructure.t.
Variable repayment_method : string.
Variable grace_principal_months : Z.
Variable fee_structure : option FeeStructure.t.
Variable prepayment_info : option PrepaymentInfo.t.
Variable horizon_months : option Z.

(** [horizon_months or tenor_months] *)
Definition horizon : Z :=
  match horizon_months with
  | Some h => if (h =? 0)%Z then tenor_months else h
  | None => tenor_months
  end.

(** The fee of the first payment whose month is the configured prepayment
    month, 0.0 when there is none. *)
Definition realized_prepay_fee (payments : list MonthlyPayment.t) : Q :=
  match prepayment_info with
  | None => 0
  | Some info =>
      match PrepaymentInfo.prepayment_month info with
      | None => 0
      | Some k =>
          if (k =? 0)%Z then 0
          else
            match find (fun p => (MonthlyPayment.month p =? k)%Z) payments with
            | Some p => MonthlyPayment.fees p
            | None => 0
            end
      end
  end.

(** The body of [for bump in scenarios]. *)
Definition stress_scenario (bump : Q) : exc LoanCostSummary.t :=
  schedule <-
    generate_amortization_schedule principal tenor_months rate_structure
      repayment_method grace_principal_months 0 fee_structure prepayment_info bump ;;
  let payments := AmortizationSchedule.payments schedule in
  let horizon_payments :=
    filter (fun p => (MonthlyPayment.month p <=? horizon)%Z) payments in
  let total_interest := Py.sum (map MonthlyPayment.interest horizon_payments) in
  let total_fees := Py.sum (map MonthlyPayment.fees horizon_payments) in
  let total_insurance := Py.sum (map MonthlyPayment.insurance horizon_payments) in
  let upfront_fees :=
    match fee_structure with
    | Some fs => _calculate_upfront_fees principal fs
    | None => 0
    end in
  let total_fees :=
    match fee_structure with
    | Some _ => total_fees + upfront_fees
    | None => total_fees
    end in
  let prepay_fee := realized_prepay_fee payments in
  apr <- calculate_apr principal schedule upfront_fees prepay_fee ;;
  let first_12 := map MonthlyPayment.payment (firstn 12 horizon_payments) in
  let post_promo :=
    map MonthlyPayment.payment
      (filter (fun p => (RateStructure.fixed_months rate_structure <? MonthlyPayment.month p)%Z)
         payments) in
  monthly_first_12 <- average first_12 ;;
  monthly_post_promo <- average post_promo ;;
  let total_payments := Py.sum (map MonthlyPayment.payment horizon_payments) in
  let total_cost_excl := total_interest + total_fees + total_insurance in
  let total_out_of_pocket := upfront_fees + total_payments + total_insurance + prepay_fee in
  Return
    (LoanCostSummary.mk total_interest total_fees total_insurance total_cost_excl
       total_out_of_pocket apr monthly_first_12 monthly_post_promo prepay_fee).

(** [scenarios = [0.0, 0.02, 0.04]], each with the key
    [f"+{int(bump * 100)}%"] it is stored under. *)
Definition scenarios : list (string * Q) :=
  [("+0%"%string, 0.0); ("+2%"%string, 0.02); ("+4%"%string, 0.04)].

Fixpoint run_scenarios (todo : list (string * Q))
    : exc (list (string * LoanCostSummary.t)) :=
  match todo with
  | [] => Return []
  | (scenario_name, bump) :: rest =>
      summary <- stress_scenario bump ;;
      results <- run_scenarios rest ;;
      Return ((scenario_name, summary) :: results)
  end.

Definition stress_test_scenarios : exc (list (string * LoanCostSummary.t)) :=
  run_scenarios scenarios.

End Stress.

(** [scenarios.get(key)] on the dict returned by [stress_test_scenarios]. *)
Fixpoint scenario_get (results : list (string * LoanCostSummary.t)) (key : string)
    : option LoanCostSummary.t :=
  match results with
  | [] => None
  | (k, v) :: rest => if String.eqb k key then Some v else scenario_get rest key
  end.

(** ** Legacy compatibility functions *)

(** The triple is [(principal_portion, interest_portion, total_payment)]. *)
Definition equal_principal_payment (principal remaining_balance annual_rate : Q)
    (total_months : Z) : exc (Q * Q * Q) :=
  if Py.leb principal 0 || (total_months <=? 0)%Z then Return (0.0, 0.0, 0.0)
  else
    monthly_principal <- principal // inject_Z total_months ;;
    let monthly_rate := Qmax annual_rate 0 / 12 in
    let interest := remaining_balance * monthly_rate in
    let payment := monthly_principal + interest in
    Return (monthly_principal, interest, payment).

(** [for _ in range(months)] of [equal_principal_schedule], on the locals
    [remaining] and [payments]. *)
Fixpoint equal_principal_loop (iterations : nat) (monthly_principal monthly_rate : Q)
    (remaining : Q) (payments : list Q) : list Q :=
  match iterations with
  | O => payments
  | S iterations' =>
      let interest := remaining * monthly_rate in
      let payment := monthly_principal + interest in
      equal_principal_loop iterations' monthly_principal monthly_rate
        (Qmax 0 (remaining - monthly_principal)) (payments ++ [payment])
  end.

Definition equal_principal_schedule (principal annual_rate : Q) (months : Z)
    : exc (list Q) :=
  if Py.leb principal 0 || (months <=? 0)%Z then Return []
  else
    monthly_principal <- principal // inject_Z months ;;
    let monthly_rate := Qmax annual_rate 0 / 12 in
    Return (equal_principal_loop (Z.to_nat months) monthly_principal monthly_rate
              principal []).

(** The pair is [(payments, remaining_after_fixed)]. *)
Definition simulate_two_stage_annuity (principal : Q) (total_months : Z)
    (fixed_rate : Q) (fixed_months : Z) (post_fixed_rate : Q) : exc (list Q * Q) :=
  let rate_structure :=
    RateStructure.mk (fixed_rate * 100) fixed_months 0 (post_fixed_rate * 100) in
  schedule <-
    generate_amortization_schedule principal total_months rate_structure "annuity"
      0 0 None None 0.0 ;;
  let payments := map MonthlyPayment.payment (AmortizationSchedule.payments schedule) in
  let remaining_after_fixed :=
    fold_left
      (fun remaining_after_fixed p =>
         if (MonthlyPayment.month p <=? fixed_months)%Z
         then MonthlyPayment.remaining_balance p else remaining_after_fixed)
      (AmortizationSchedule.payments schedule) principal in
  Return (payments, remaining_after_fixed).

(** The dict of [summarize_costs], with the key [stress_max_monthly] that
    [cost_estimates_with_stress] adds ([None] while it is absent). *)
Module EstimatedCosts.
Record t : Set := mk {
  month1_payment : Q;
  year1_total : Q;
  total_3y : Q;
  total_5y : Q;
  stress_max_monthly : option Q
}.
End EstimatedCosts.

(** [sum(payments[: min(months, len(payments))])] *)
Definition partial_total (payments : list Q) (months : nat) : Q :=
  Py.sum (firstn (Nat.min months (List.length payments)) payments).

Definition summarize_costs (payments : list Q) : EstimatedCosts.t :=
  match payments with
  | [] => EstimatedCosts.mk 0.0 0.0 0.0 0.0 None
  | first :: _ =>
      EstimatedCosts.mk first (partial_total payments 12) (partial_total payments 36)
        (partial_total payments 60) None
  end.

(** [max(xs) if xs else 0.0] *)
Definition max_or_zero (xs : list Q) : Q :=
  match xs with
  | [] => 0.0
  | x :: rest => fold_left Qmax rest x
  end.

Definition cost_estimates_with_stress (principal : Q) (tenor_months : Z)
    (rate_fixed : Q) (rate_fixed_months : Z) (post_fixed_rate : Q)
    : exc EstimatedCosts.t :=
  let rate_structure :=
    RateStructure.mk (rate_fixed * 100) rate_fixed_months 0 (post_fixed_rate * 100) in
  schedule <-
    generate_amortization_schedule principal tenor_months rate_structure "annuity"
      0 0 None None 0.0 ;;
  let payments := map MonthlyPayment.payment (AmortizationSchedule.payments schedule) in
  let summaries := summarize_costs payments in
  let stress_payment := max_or_zero payments in
  let post_period_months := Z.max 0 (tenor_months - Z.max rate_fixed_months 0) in
  stress_payment <-
    (if (0 <? post_period_months)%Z
        && negb (match AmortizationSchedule.payments schedule with
                 | [] => true
                 | _ => false
                 end)
     then
       let remaining_after_fixed :=
         match find (fun p => (MonthlyPayment.month p =? rate_fixed_months)%Z)
                 (AmortizationSchedule.payments schedule) with
         | Some p => MonthlyPayment.remaining_balance p
         | None => principal
         end in
       if Py.ltb 0 remaining_after_fixed then
         stress_plus_one <-
           annuity_payment remaining_after_fixed (post_fixed_rate + 0.01)
             post_period_months ;;
         stress_plus_two <-
           annuity_payment remaining_after_fixed (post_fixed_rate + 0.02)
             post_period_months ;;
         Return (Qmax (Qmax stress_payment stress_plus_one) stress_plus_two)
       else Return stress_payment
     else Return stress_payment) ;;
  Return
    (EstimatedCosts.mk (EstimatedCosts.month1_payment summaries)
       (EstimatedCosts.year1_total summaries) (EstimatedCosts.total_3y summaries)
       (EstimatedCosts.total_5y summaries) (Some stress_payment)).

(** ** The data the recommendation engine reads

    Only the columns and JSON keys that [recommendations.py] reads are kept.
    A JSON dict is a record of optional fields: [None] is an absent key (or a
    [None] dict, which the code replaces by [{}] before reading). *)

Inductive RepaymentStrategy : Set := UNCERTAIN | EARLY_EXIT | LONG_HOLD.

Inductive ProofStrength : Set := STRONG | MEDIUM | WEAK.

Module Collateral.
Record t : Set := mk {
  collateral_type : string;
  estimated_value : Q
}.
End Collateral.

Module Application.
Record t : Set := mk {
  purpose : string;
  loan_amount : Q;
  tenor_months : option Z;
  repayment_strategy : option RepaymentStrategy;
  planned_hold_months : option Z;
  expected_prepayment_month : option Z;
  expected_prepayment_amount_vnd : option Q;
  need_disbursement_by_date : option Z;      (* a date, as a day number *)
  geo_location : option string;
  income_type : option string;               (* [income_type.value] *)
  monthly_income_vnd : option Q;
  proof_strength : option ProofStrength;
  existing_debts_monthly_payment_vnd : option Q;
  has_late_payments : bool;                  (* [credit_flags.get(...)] *)
  cic_bad_debt : bool;
  estimated_property_value_vnd : option Q;
  priority_cost_vs_stability : option Q;     (* [preferences.get(...)] *)
  incomes : list Q;                          (* [monthly_net] of each income *)
  debts : list Q;                            (* [monthly_payment] of each debt *)
  collaterals : list Collateral.t
}.
End Application.

(** The dict returned by [calculate_application_metrics]. *)
Module Metrics.
Record t : Set := mk {
  total_income : option Q;
  dsr : option Q;
  ltv : option Q
}.
End Metrics.

(** The dict returned by [_extract_user_input]. *)
Module UserInput.
Record t : Set := mk {
  property_value : option Q;
  priority_cost_vs_stability : option Q
}.
End UserInput.

Module ProcessingSla.
Record t : Set := mk {
  pre_approval_days : option Z;
  appraisal_days : option Z;
  final_approval_days : option Z;
  disbursement_days : option Z
}.
End ProcessingSla.

Module Bank.
Record t : Set := mk {
  coverage_provinces : list string;
  processing_sla : option ProcessingSla.t    (* None: empty or absent dict *)
}.
End Bank.

Module PromoOption.
Record t : Set := mk {
  fixed_rate_pct : option Q;
  fixed_months : option Z
}.
End PromoOption.

Module RateModel.
Record t : Set := mk {
  promo_options : list PromoOption.t;
  floating_margin_pct : option Q;            (* [floating.get(...)] *)
  reference_rate_source_url : bool;          (* truthiness of the key *)
  caps_floors : bool;
  reference_rate_base_pct : option Q
}.
End RateModel.

Module FeesPenalties.
Record t : Set := mk {
  origination_fee_pct : option Q;
  origination_min_vnd : option Q;
  origination_max_vnd : option Q;
  appraisal_fee_vnd : option Q;
  disbursement_fee_vnd : option Q;
  disbursement_fee_pct : option Q;
  account_maintenance_fee_vnd : option Q;
  insurance_annual_pct : option Q;
  insurance_vnd : option Q;
  insurance_basis : option string;
  prepayment_schedule : list PrepaymentTier.t
}.
End FeesPenalties.

Module LoanProduct.
Record t : Set := mk {
  id : Z;
  purpose : option string;                   (* [purpose.value] *)
  min_loan_amount : option Q;
  max_loan_amount : option Q;
  max_ltv_pct : option Q;
  min_term_months : option Z;
  max_term_months : option Z;
  income_type_supported : list string;       (* [eligibility.get(...)] *)
  min_income_vnd : option Q;
  collateral_types : list string;            (* [collateral.get(...)] *)
  repayment_method : option string;          (* [repayment.get(...)] *)
  grace_principal_months : option Z;
  rate_fixed_months : option Z;
  rate_fixed : option Q;
  floating_margin : option Q;
  max_dsr : option Q;                        (* [constraints_json["hard"]] *)
  max_ltv : option Q;
  sla_days_estimate : option Z;
  bank : option Bank.t;
  rate_model : option RateModel.t;
  fees_penalties : option FeesPenalties.t
}.
End LoanProduct.

(** Python truthiness of an optional number: [None] and [0] are false. *)
Definition truthyZ (x : option Z) : option Z :=
  match x with
  | Some v => if (v =? 0)%Z then None else Some v
  | None => None
  end.

Definition truthyQ (x : option Q) : option Q :=
  match x with
  | Some v => if Qeq_bool v 0 then None else Some v
  | None => None
  end.

(** [x or d] *)
Definition orZ (x : option Z) (d : Z) : Z :=
  match truthyZ x with Some v => v | None => d end.

Definition orQ (x : option Q) (d : Q) : Q :=
  match truthyQ x with Some v => v | None => d end.

(** [d.get(key, default)] *)
Definition getQ (x : option Q) (d : Q) : Q :=
  match x with Some v => v | None => d end.

Definition getZ (x : option Z) (d : Z) : Z :=
  match x with Some v => v | None => d end.

(** [x in xs] on strings *)
Definition mem (x : string) (xs : list string) : bool :=
  existsb (String.eqb x) xs.

(** ** [applications.py]: metrics *)

Definition calculate_application_metrics (application : Application.t) : exc Metrics.t :=
  let total_income := Py.sum (Application.incomes application) in
  let total_income :=
    match truthyQ (Application.monthly_income_vnd application) with
    | Some v => Qmax total_income v
    | None => total_income
    end in
  let total_debt_payments := Py.sum (Application.debts application) in
  let total_debt_payments :=
    match truthyQ (Application.existing_debts_monthly_payment_vnd application) with
    | Some v => Qmax total_debt_payments v
    | None => total_debt_payments
    end in
  dsr <- (if Py.ltb 0 total_income then
            d <- total_debt_payments // total_income ;; Return (Some d)
          else Return None) ;;
  let property_value :=
    match truthyQ (Application.estimated_property_value_vnd application) with
    | Some v => v
    | None => Py.sum (map Collateral.estimated_value (Application.collaterals application))
    end in
  ltv <- (if Py.ltb 0 property_value then
            l <- Application.loan_amount application // property_value ;; Return (Some l)
          else Return None) ;;
  Return (Metrics.mk (Some total_income) dsr ltv).

(** ** [recommendations.py]: term optimization and configuration builders *)

Definition _get_optimal_tenor (application : Application.t) (product : LoanProduct.t) : Z :=
  match truthyZ (Application.tenor_months application) with
  | Some tenor => tenor
  | None =>
      let min_term := orZ (LoanProduct.min_term_months product) 12 in
      let max_term := orZ (LoanProduct.max_term_months product) 360 in
      match Application.repayment_strategy application with
      | Some UNCERTAIN => max_term
      | Some EARLY_EXIT => max_term
      | Some LONG_HOLD =>
          let target_term := 240%Z in
          Z.max min_term (Z.min target_term max_term)
      | None => max_term
      end
  end.

Definition _extract_user_input (application : Application.t) : UserInput.t :=
  let property_value :=
    match truthyQ (Application.estimated_property_value_vnd application) with
    | Some v => v
    | None => Py.sum (map Collateral.estimated_value (Application.collaterals application))
    end in
  UserInput.mk (Some property_value)
    (Some (getQ (Application.priority_cost_vs_stability application) 50)).

Definition _build_rate_structure (product : LoanProduct.t) : RateStructure.t :=
  let fixed_rate := orQ (LoanProduct.rate_fixed product) 0 in
  let fixed_months := orZ (LoanProduct.rate_fixed_months product) 0 in
  let floating_margin := orQ (LoanProduct.floating_margin product) 0 in
  let reference_rate := 5.0 in
  match LoanProduct.rate_model product with
  | None => RateStructure.mk fixed_rate fixed_months floating_margin reference_rate
  | Some rm =>
      let fixed_rate :=
        match RateModel.promo_options rm with
        | first_option :: _ => getQ (PromoOption.fixed_rate_pct first_option) fixed_rate
        | [] => fixed_rate
        end in
      let fixed_months :=
        match RateModel.promo_options rm with
        | first_option :: _ => getZ (PromoOption.fixed_months first_option) fixed_months
        | [] => fixed_months
        end in
      let floating_margin := getQ (RateModel.floating_margin_pct rm) floating_margin in
      let reference_rate := orQ (RateModel.reference_rate_base_pct rm) reference_rate in
      RateStructure.mk fixed_rate fixed_months floating_margin reference_rate
  end.

Definition _build_fee_structure (product : LoanProduct.t) : FeeStructure.t :=
  match LoanProduct.fees_penalties product with
  | None => FeeStructure.default
  | Some fp =>
      FeeStructure.mk
        (getQ (FeesPenalties.origination_fee_pct fp) 0)
        (getQ (FeesPenalties.origination_min_vnd fp) 0)
        (FeesPenalties.origination_max_vnd fp)
        (getQ (FeesPenalties.appraisal_fee_vnd fp) 0)
        (getQ (FeesPenalties.disbursement_fee_vnd fp) 0)
        (getQ (FeesPenalties.disbursement_fee_pct fp) 0)
        (getQ (FeesPenalties.account_maintenance_fee_vnd fp) 0)
        (getQ (FeesPenalties.insurance_annual_pct fp) 0)
        (getQ (FeesPenalties.insurance_vnd fp) 0)
        (match FeesPenalties.insurance_basis fp with
         | Some b => b
         | None => "on_balance"%string
         end)
        0
        (FeesPenalties.prepayment_schedule fp)
  end.

Definition _build_prepay_info (application : Application.t) : option PrepaymentInfo.t :=
  match truthyZ (Application.expected_prepayment_month application) with
  | None => None
  | Some _ =>
      Some (PrepaymentInfo.mk
              (Application.expected_prepayment_month application)
              (truthyQ (Application.expected_prepayment_amount_vnd application))
              (match Application.expected_prepayment_amount_vnd application with
               | Some _ => true
               | None => false
               end))
  end.

Definition _get_repayment_method (product : LoanProduct.t) : string :=
  match LoanProduct.repayment_method product with
  | Some m => m
  | None => "annuity"%string
  end.

Definition _get_grace_months (product : LoanProduct.t) : Z :=
  getZ (LoanProduct.grace_principal_months product) 0.

(** ** Hard filters *)

Definition purpose_matches (app_purpose product_purpose : string) : bool :=
  String.eqb app_purpose product_purpose
  || (String.eqb app_purpose "NEW_PURCHASE"
      && mem product_purpose ["HOME_PURCHASE"%string; "NEW_PURCHASE"%string])
  || (String.eqb app_purpose "HOME_PURCHASE" && String.eqb product_purpose "NEW_PURCHASE").

(** [if cond: reasons.append(code)] *)
Definition append_if (cond : bool) (code : string) (reasons : list string) : list string :=
  if cond then reasons ++ [code] else reasons.

Section HardFilters.

Variable application : Application.t.
Variable metrics : Metrics.t.
Variable product : LoanProduct.t.
Variable user_input : UserInput.t.
Variable effective_tenor : Z.

(** Purpose match *)
Definition check_purpose (reasons : list string) : list string :=
  match LoanProduct.purpose product with
  | Some product_purpose =>
      if String.eqb product_purpose "" then reasons
      else append_if (negb (purpose_matches (Application.purpose application) product_purpose))
             "PURPOSE_NOT_SUPPORTED" reasons
  | None => reasons
  end.

(** Term bounds (using effective tenor) *)
Definition check_term_bounds (reasons : list string) : list string :=
  let reasons :=
    match truthyZ (LoanProduct.min_term_months product) with
    | Some min_term => append_if (effective_tenor <? min_term)%Z "TENOR_TOO_SHORT" reasons
    | None => reasons
    end in
  match truthyZ (LoanProduct.max_term_months product) with
  | Some max_term => append_if (max_term <? effective_tenor)%Z "TENOR_TOO_LONG" reasons
  | None => reasons
  end.

(** LTV check *)
Definition check_ltv (reasons : list string) : list string :=
  let property_value := getQ (UserInput.property_value user_input) 0 in
  match truthyQ (LoanProduct.max_ltv_pct product) with
  | Some max_ltv_pct =>
      if Py.ltb 0 property_value then
        let max_loan := property_value * (max_ltv_pct / 100) in
        append_if (Py.ltb max_loan (Application.loan_amount application))
          "LTV_EXCEEDS_MAX" reasons
      else reasons
  | None => reasons
  end.

(** Loan amount bounds *)
Definition check_loan_amount_bounds (reasons : list string) : list string :=
  let loan_amount := Application.loan_amount application in
  let reasons :=
    match truthyQ (LoanProduct.min_loan_amount product) with
    | Some min_loan => append_if (Py.ltb loan_amount min_loan) "LOAN_AMOUNT_TOO_LOW" reasons
    | None => reasons
    end in
  match truthyQ (LoanProduct.max_loan_amount product) with
  | Some max_loan => append_if (Py.ltb max_loan loan_amount) "LOAN_AMOUNT_TOO_HIGH" reasons
  | None => reasons
  end.

(** Income type *)
Definition check_income_type (reasons : list string) : list string :=
  match LoanProduct.income_type_supported product, Application.income_type application with
  | _ :: _, Some income_type =>
      append_if (negb (mem income_type (LoanProduct.income_type_supported product)))
        "INCOME_TYPE_NOT_SUPPORTED" reasons
  | _, _ => reasons
  end.

(** Minimum income *)
Definition check_min_income (reasons : list string) : list string :=
  match truthyQ (LoanProduct.min_income_vnd product),
        truthyQ (Metrics.total_income metrics) with
  | Some min_income, Some total_income =>
      append_if (Py.ltb total_income min_income) "INCOME_BELOW_MIN" reasons
  | _, _ => reasons
  end.

(** Collateral type check *)
Definition check_collateral_type (reasons : list string) : list string :=
  match LoanProduct.collateral_types product, Application.collaterals application with
  | _ :: _, _ :: _ =>
      append_if
        (negb (existsb (fun c => mem (Collateral.collateral_type c)
                                   (LoanProduct.collateral_types product))
                 (Application.collaterals application)))
        "COLLATERAL_TYPE_NOT_ALLOWED" reasons
  | _, _ => reasons
  end.

(** Geographic coverage *)
Definition check_geo (reasons : list string) : list string :=
  match LoanProduct.bank product with
  | Some bank =>
      match Bank.coverage_provinces bank, Application.geo_location application with
      | _ :: _, Some geo =>
          if String.eqb geo "" then reasons
          else append_if (negb (mem geo (Bank.coverage_provinces bank)))
                 "GEO_NOT_SUPPORTED" reasons
      | _, _ => reasons
      end
  | None => reasons
  end.

(** Legacy [constraints_json] support *)
Definition check_dsr (reasons : list string) : list string :=
  match LoanProduct.max_dsr product, Metrics.dsr metrics with
  | Some max_dsr, Some dsr => append_if (Py.ltb max_dsr dsr) "DSR_EXCEEDS_MAX" reasons
  | _, _ => reasons
  end.

Definition _apply_hard_filters_with_tenor : bool * list string :=
  let reasons : list string := [] in
  let reasons := check_purpose reasons in
  let reasons := check_term_bounds reasons in
  let reasons := check_ltv reasons in
  let reasons := check_loan_amount_bounds reasons in
  let reasons := check_income_type reasons in
  let reasons := check_min_income reasons in
  let reasons := check_collateral_type reasons in
  let reasons := check_geo reasons in
  let reasons := check_dsr reasons in
  ((List.length reasons =? 0)%nat, reasons).

End HardFilters.

(** [_apply_hard_filters]: the filter at [application.tenor_months or 240]. *)
Definition _apply_hard_filters (application : Application.t) (metrics : Metrics.t)
    (product : LoanProduct.t) (user_input : UserInput.t) : bool * list string :=
  let effective_tenor := orZ (Application.tenor_months application) 240 in
  _apply_hard_filters_with_tenor application metrics product user_input effective_tenor.

(** ** Score calculation *)

(** [max(0, min(100, x))] *)
Definition clamp_0_100 (x : Q) : Q := Qmax 0 (Qmin 100 x).

Definition _calculate_cost_score (scenario : option LoanCostSummary.t) (principal : Q)
    : exc Q :=
  match scenario with
  | None => Return 50.0
  | Some scenario =>
      let apr_pct := LoanCostSummary.apr scenario * 100 in
      let apr_score := clamp_0_100 (100 - (apr_pct - 8) * (100 / 7)) in
      cost_ratio <-
        (if Py.ltb 0 principal
         then LoanCostSummary.total_cost_excluding_principal scenario // principal
         else Return 0) ;;
      let cost_score := clamp_0_100 (100 - (cost_ratio - 0.10) * (100 / 0.40)) in
      Return ((apr_score + cost_score) / 2)
  end.

(** The longest fixed period among the promo options, starting from the
    product's own. *)
Fixpoint longest_fixed_months (options : list PromoOption.t) (fixed_months : Z) : Z :=
  match options with
  | [] => fixed_months
  | option :: rest =>
      let m := getZ (PromoOption.fixed_months option) 0 in
      longest_fixed_months rest (if (fixed_months <? m)%Z then m else fixed_months)
  end.

Definition _calculate_stability_score (product : LoanProduct.t)
    (base stress : option LoanCostSummary.t) (user_input : UserInput.t) : exc Q :=
  match base, stress with
  | Some base, Some stress =>
      volatility <-
        (if Py.ltb 0 (LoanCostSummary.monthly_payment_first_12m base) then
           (LoanCostSummary.monthly_payment_post_promo stress
            - LoanCostSummary.monthly_payment_first_12m base)
           // LoanCostSummary.monthly_payment_first_12m base
         else Return 0) ;;
      let volatility_score := clamp_0_100 (100 - volatility * 500) in
      let fixed_months := orZ (LoanProduct.rate_fixed_months product) 0 in
      let fixed_months :=
        match LoanProduct.rate_model product with
        | Some rm => longest_fixed_months (RateModel.promo_options rm) fixed_months
        | None => fixed_months
        end in
      let fixed_score := Qmin 100 (inject_Z fixed_months * (100 / 24)) in
      let stability_pref := getQ (UserInput.priority_cost_vs_stability user_input) 50 / 100 in
      Return (volatility_score * (1 - stability_pref * 0.3)
              + fixed_score * (stability_pref * 0.3 + 0.35))
  | _, _ => Return 50.0
  end.

Definition _calculate_approval_score (product : LoanProduct.t)
    (application : Application.t) (metrics : Metrics.t) : exc Q :=
  let score := 70.0 in
  score <-
    match truthyQ (LoanProduct.max_dsr product), Metrics.dsr metrics with
    | Some max_dsr, Some dsr =>
        margin <- (if Py.ltb 0 max_dsr then (max_dsr - dsr) // max_dsr else Return 0) ;;
        Return (score + margin * 15)
    | _, _ => Return score
    end ;;
  let max_ltv :=
    match truthyQ (LoanProduct.max_ltv product) with
    | Some v => Some v
    | None =>
        match truthyQ (LoanProduct.max_ltv_pct product) with
        | Some pct => Some (pct / 100)
        | None => None
        end
    end in
  score <-
    match truthyQ max_ltv, Metrics.ltv metrics with
    | Some max_ltv, Some ltv =>
        margin <- (if Py.ltb 0 max_ltv then (max_ltv - ltv) // max_ltv else Return 0) ;;
        Return (score + margin * 10)
    | _, _ => Return score
    end ;;
  let score :=
    match Application.proof_strength application with
    | Some STRONG => score + 10
    | Some MEDIUM => score + 5
    | Some WEAK => score + -5
    | None => score
    end in
  let score := if Application.has_late_payments application then score - 15 else score in
  let score := if Application.cic_bad_debt application then score - 25 else score in
  Return (clamp_0_100 score).

(** [date.today()] is the parameter [today]. *)
Definition _calculate_speed_score (today : Z) (product : LoanProduct.t)
    (application : Application.t) : exc Q :=
  let sla_days := orZ (LoanProduct.sla_days_estimate product) 30 in
  let sla_days :=
    match LoanProduct.bank product with
    | Some bank =>
        match Bank.processing_sla bank with
        | Some sla =>
            (orZ (ProcessingSla.pre_approval_days sla) 0
             + orZ (ProcessingSla.appraisal_days sla) 0
             + orZ (ProcessingSla.final_approval_days sla) 0
             + orZ (ProcessingSla.disbursement_days sla) 0)%Z
        | None => sla_days
        end
    | None => sla_days
    end in
  match Application.need_disbursement_by_date application with
  | None =>
      Return (Qmax 50 (Qmin 100 (100 - (inject_Z sla_days - 7) * (50 / 53))))
  | Some need_by =>
      let days_until_needed := (need_by - today)%Z in
      if (sla_days <=? days_until_needed)%Z then
        margin <-
          (if (0 <? days_until_needed)%Z
           then inject_Z (days_until_needed - sla_days) // inject_Z days_until_needed
           else Return 1) ;;
        Return (Qmin 100 (80 + margin * 20))
      else
        Return (Qmax 0 (50 - inject_Z (sla_days - days_until_needed) * 5))
  end.

Definition _calculate_penalties_score (product : LoanProduct.t)
    (application : Application.t) (scenario : option LoanCostSummary.t) : exc Q :=
  match scenario, truthyZ (Application.expected_prepayment_month application) with
  | Some scenario, Some _ =>
      let prepay_fee := LoanCostSummary.prepayment_fee scenario in
      let loan_amount := Application.loan_amount application in
      if Py.leb loan_amount 0 then Return 80.0
      else
        ratio <- prepay_fee // loan_amount ;;
        let fee_pct := ratio * 100 in
        Return (clamp_0_100 (100 - fee_pct * (100 / 3)))
  | _, _ => Return 80.0
  end.

(** The dict of scores. *)
Module Scores.
Record t : Set := mk {
  total : Q;
  cost : Q;
  stability : Q;
  approval : Q;
  speed : Q;
  penalties : Q
}.
End Scores.

Definition _calculate_multi_factor_score (today : Z) (product : LoanProduct.t)
    (application : Application.t) (metrics : Metrics.t) (user_input : UserInput.t)
    (scenarios : list (string * LoanCostSummary.t)) : exc Scores.t :=
  let base_scenario := scenario_get scenarios "+0%" in
  let stress_4pct := scenario_get scenarios "+4%" in
  cost_score <- _calculate_cost_score base_scenario (Application.loan_amount application) ;;
  stability_score <- _calculate_stability_score product base_scenario stress_4pct user_input ;;
  approval_score <- _calculate_approval_score product application metrics ;;
  speed_score <- _calculate_speed_score today product application ;;
  penalties_score <- _calculate_penalties_score product application base_scenario ;;
  let total :=
    0.35 * cost_score + 0.25 * stability_score + 0.20 * approval_score
    + 0.10 * speed_score + 0.10 * penalties_score in
  Return (Scores.mk total cost_score stability_score approval_score speed_score
            penalties_score).

(** ** Strategy-adjusted scoring *)

Fixpoint _get_prepay_fee_at_month (schedule : list PrepaymentTier.t) (month : Z) : Q :=
  match schedule with
  | [] => 0.0
  | tier :: rest =>
      if tier_covers tier month then getQ (PrepaymentTier.fee_pct tier) 0
      else _get_prepay_fee_at_month rest month
  end.

Definition _calculate_early_exit_penalties_score (product : LoanProduct.t) : Q :=
  match LoanProduct.fees_penalties product with
  | None => 80.0
  | Some fp =>
      match FeesPenalties.prepayment_schedule fp with
      | [] => 80.0
      | schedule =>
          let fee_at_12m := _get_prepay_fee_at_month schedule 12 in
          let fee_at_24m := _get_prepay_fee_at_month schedule 24 in
          let fee_at_36m := _get_prepay_fee_at_month schedule 36 in
          let avg_fee := (fee_at_12m + fee_at_24m + fee_at_36m) / 3 in
          clamp_0_100 (100 - avg_fee * (100 / 3))
      end
  end.

Definition _calculate_long_hold_stability_score (product : LoanProduct.t)
    (base stress : option LoanCostSummary.t) : exc Q :=
  match base, stress with
  | Some base, Some stress =>
      let score := 50.0 in
      let rate_structure := _build_rate_structure product in
      let margin := RateStructure.floating_margin_pct rate_structure in
      let margin_score := clamp_0_100 (100 - (margin - 1) * (100 / 3)) in
      let score := score + margin_score * 0.3 in
      let score :=
        match LoanProduct.rate_model product with
        | Some rm =>
            let score := if RateModel.reference_rate_source_url rm then score + 10 else score in
            if RateModel.caps_floors rm then score + 10 else score
        | None => score
        end in
      score <-
        (if Py.ltb 0 (LoanCostSummary.monthly_payment_first_12m base) then
           volatility <-
             (LoanCostSummary.monthly_payment_post_promo stress
              - LoanCostSummary.monthly_payment_first_12m base)
             // LoanCostSummary.monthly_payment_first_12m base ;;
           let volatility_score := clamp_0_100 (100 - volatility * 500) in
           Return (score + volatility_score * 0.3)
         else Return score) ;;
      Return (Qmin 100 (Qmax 0 score))
  | _, _ => Return 50.0
  end.

(** The weights dict of a strategy, in the order
    cost, stability, approval, speed, penalties. *)
Definition strategy_weights (strategy : option RepaymentStrategy) : Scores.t :=
  match strategy with
  | Some UNCERTAIN => Scores.mk 0 0.30 0.20 0.20 0.10 0.20
  | Some EARLY_EXIT => Scores.mk 0 0.25 0.10 0.20 0.15 0.30
  | Some LONG_HOLD => Scores.mk 0 0.35 0.35 0.20 0.05 0.05
  | None => Scores.mk 0 0.35 0.25 0.20 0.10 0.10
  end.

Definition _calculate_strategy_adjusted_score (base_scores : Scores.t)
    (application : Application.t) (product : LoanProduct.t)
    (scenarios : list (string * LoanCostSummary.t)) : exc Scores.t :=
  let strategy := Application.repayment_strategy application in
  let weights := strategy_weights strategy in
  base_scores <-
    match strategy with
    | Some EARLY_EXIT =>
        Return (Scores.mk (Scores.total base_scores) (Scores.cost base_scores)
                  (Scores.stability base_scores) (Scores.approval base_scores)
                  (Scores.speed base_scores)
                  (_calculate_early_exit_penalties_score product))
    | Some LONG_HOLD =>
        stability <-
          _calculate_long_hold_stability_score product
            (scenario_get scenarios "+0%") (scenario_get scenarios "+4%") ;;
        Return (Scores.mk (Scores.total base_scores) (Scores.cost base_scores)
                  stability (Scores.approval base_scores)
                  (Scores.speed base_scores) (Scores.penalties base_scores))
    | _ => Return base_scores
    end ;;
  let total :=
    Py.sum [Scores.cost weights * Scores.cost base_scores;
            Scores.stability weights * Scores.stability base_scores;
            Scores.approval weights * Scores.approval base_scores;
            Scores.speed weights * Scores.speed base_scores;
            Scores.penalties weights * Scores.penalties base_scores] in
  Return (Scores.mk total (Scores.cost base_scores) (Scores.stability base_scores)
            (Scores.approval base_scores) (Scores.speed base_scores)
            (Scores.penalties base_scores)).

(** ** Helper functions of the response *)

Module PrepaymentAtPromoEnd.
Record t : Set := mk {
  prepayment_month : Z;
  remaining_principal : Q;
  prepayment_fee : Q;
  total_interest_paid : Q;
  total_fees_paid : Q;
  total_cost_to_exit : Q
}.
End PrepaymentAtPromoEnd.

(** The loop over [schedule_no_prepay.payments]: the triple is
    [(remaining_at_promo_end, interest_to_promo_end, fees_to_promo_end)]. *)
Definition to_promo_end (fixed_months : Z) (payments : list MonthlyPayment.t)
    (start : Q * Q * Q) : Q * Q * Q :=
  fold_left
    (fun acc p =>
       if (MonthlyPayment.month p <=? fixed_months)%Z then
         (MonthlyPayment.remaining_balance p,
          snd (fst acc) + MonthlyPayment.interest p,
          snd acc + MonthlyPayment.fees p)
       else acc)
    payments start.

(** The values computed from the schedule with prepayment are overwritten
    before they are read; what is returned comes from the schedule without
    prepayment. *)
Definition _calculate_prepayment_at_promo_end (product : LoanProduct.t)
    (application : Application.t) (rate_structure : RateStructure.t)
    (fee_structure : FeeStructure.t) (effective_tenor : option Z)
    : exc (option PrepaymentAtPromoEnd.t) :=
  let fixed_months := RateStructure.fixed_months rate_structure in
  if (fixed_months <=? 0)%Z then Return None
  else
    let principal := Application.loan_amount application in
    let tenor_months :=
      match truthyZ effective_tenor with
      | Some tenor => tenor
      | None => orZ (Application.tenor_months application) 240
      end in
    let grace_months := _get_grace_months product in
    let repayment_method := _get_repayment_method product in
    let prepay_info := PrepaymentInfo.mk (Some fixed_months) None false in
    schedule <-
      generate_amortization_schedule principal tenor_months rate_structure
        repayment_method grace_months 0 (Some fee_structure) (Some prepay_info) 0.0 ;;
    match AmortizationSchedule.payments schedule with
    | [] => Return None
    | _ =>
        let upfront_fees := _calculate_upfront_fees principal fee_structure in
        schedule_no_prepay <-
          generate_amortization_schedule principal tenor_months rate_structure
            repayment_method grace_months 0 (Some fee_structure) None 0.0 ;;
        let totals :=
          to_promo_end fixed_months (AmortizationSchedule.payments schedule_no_prepay)
            (principal, 0.0, upfront_fees) in
        let remaining_at_promo_end := fst (fst totals) in
        let interest_to_promo_end := snd (fst totals) in
        let fees_to_promo_end := snd totals in
        let prepay_fee :=
          _calculate_prepayment_fee remaining_at_promo_end fixed_months
            (FeeStructure.prepayment_schedule fee_structure) in
        let total_cost_to_exit :=
          remaining_at_promo_end + interest_to_promo_end + fees_to_promo_end
          + prepay_fee in
        Return
          (Some (PrepaymentAtPromoEnd.mk fixed_months remaining_at_promo_end prepay_fee
                   interest_to_promo_end fees_to_promo_end total_cost_to_exit))
    end.

Definition _bucket_from_score (score : Q) : string :=
  if Py.leb 75 score then "HIGH"
  else if Py.leb 50 score then "MEDIUM"
  else "LOW".

(** [s.replace("_", " ")] *)
Fixpoint replace_underscores (s : string) : string :=
  match s with
  | EmptyString => EmptyString
  | String c rest =>
      String (if Ascii.eqb c "_"%char then " "%char else c) (replace_underscores rest)
  end.

Definition is_upper (c : Ascii.ascii) : bool :=
  (65 <=? Ascii.nat_of_ascii c)%nat && (Ascii.nat_of_ascii c <=? 90)%nat.

Definition is_lower (c : Ascii.ascii) : bool :=
  (97 <=? Ascii.nat_of_ascii c)%nat && (Ascii.nat_of_ascii c <=? 122)%nat.

Definition to_upper (c : Ascii.ascii) : Ascii.ascii :=
  if is_lower c then Ascii.ascii_of_nat (Ascii.nat_of_ascii c - 32) else c.

Definition to_lower (c : Ascii.ascii) : Ascii.ascii :=
  if is_upper c then Ascii.ascii_of_nat (Ascii.nat_of_ascii c + 32) else c.

(** [s.title()] on ASCII text: the first letter of a run of letters in upper
    case, the following ones in lower case. *)
Fixpoint title_from (previous_is_cased : bool) (s : string) : string :=
  match s with
  | EmptyString => EmptyString
  | String c rest =>
      if is_upper c || is_lower c then
        String (if previous_is_cased then to_lower c else to_upper c)
          (title_from true rest)
      else String c (title_from false rest)
  end.

Definition title (s : string) : string := title_from false s.

(** The dict [details] of [_get_reason_detail]. *)
Definition details : list (string * string) :=
  [("PURPOSE_NOT_SUPPORTED", "Product does not support your loan purpose");
   ("TENOR_TOO_SHORT", "Requested term is below minimum allowed");
   ("TENOR_TOO_LONG", "Requested term exceeds maximum allowed");
   ("LTV_EXCEEDS_MAX", "Loan-to-value ratio exceeds product limit");
   ("LOAN_AMOUNT_TOO_LOW", "Loan amount is below minimum");
   ("LOAN_AMOUNT_TOO_HIGH", "Loan amount exceeds maximum");
   ("INCOME_TYPE_NOT_SUPPORTED", "Income type not accepted for this product");
   ("INCOME_BELOW_MIN", "Monthly income below minimum requirement");
   ("COLLATERAL_TYPE_NOT_ALLOWED", "Collateral type not accepted");
   ("GEO_NOT_SUPPORTED", "Property location not in bank's coverage area");
   ("DSR_EXCEEDS_MAX", "Debt service ratio exceeds limit")]%string.

(** [d.get(key)] on a dict with string keys and values. *)
Fixpoint dict_get (d : list (string * string)) (key : string) : option string :=
  match d with
  | [] => None
  | (k, v) :: rest => if String.eqb k key then Some v else dict_get rest key
  end.

Definition _get_reason_detail (reason_code : string) : string :=
  match dict_get details reason_code with
  | Some detail => detail
  | None => title (replace_underscores reason_code)
  end.

(** ** The orchestrator *)

(** What is kept of a [ProductRecommendation]: the product and its scores. *)
Module ProductRecommendation.
Record t : Set := mk {
  product_id : Z;
  scores : Scores.t
}.
End ProductRecommendation.

Module RejectedProduct.
Record t : Set := mk {
  product_id : Z;
  reasons : list string;
  reason_code : string
}.
End RejectedProduct.

(** [sorted(items, key=lambda item: -item[1])]: a stable sort, highest score
    first.  [sorted_by_score] inserts the items from the last to the first, so
    an item goes in front of the later items with an equal key. *)
Fixpoint insert_ranked (item : ProductRecommendation.t * Q)
    (sorted : list (ProductRecommendation.t * Q)) : list (ProductRecommendation.t * Q) :=
  match sorted with
  | [] => [item]
  | x :: rest =>
      if Py.leb (- snd item) (- snd x) then item :: x :: rest
      else x :: insert_ranked item rest
  end.

Definition sorted_by_score (items : list (ProductRecommendation.t * Q))
    : list (ProductRecommendation.t * Q) :=
  fold_right insert_ranked [] items.

Module RecommendationResponse.
Record t : Set := mk {
  top : list ProductRecommendation.t;
  rejected : list RejectedProduct.t
}.
End RecommendationResponse.

Section Orchestrator.

Variable today : Z.
Variable application : Application.t.
Variable metrics : Metrics.t.
Variable user_input : UserInput.t.

(** The scoring half of the loop body of [generate_recommendations]. *)
Definition score_product (product : LoanProduct.t) (effective_tenor : Z) : exc Scores.t :=
  let rate_structure := _build_rate_structure product in
  let fee_structure := _build_fee_structure product in
  let prepay_info := _build_prepay_info application in
  let horizon :=
    match Application.repayment_strategy application with
    | Some EARLY_EXIT => orZ (Application.planned_hold_months application) 36
    | _ => orZ (Application.planned_hold_months application) effective_tenor
    end in
  scenarios <-
    stress_test_scenarios (Application.loan_amount application) effective_tenor
      rate_structure (_get_repayment_method product) (_get_grace_months product)
      (Some fee_structure) prepay_info (Some horizon) ;;
  base_scores <-
    _calculate_multi_factor_score today product application metrics user_input scenarios ;;
  _calculate_strategy_adjusted_score base_scores application product scenarios.

(** [for product in products], accumulating [ranked_recommendations] and
    [rejected_products]. *)
Fixpoint for_products (products : list LoanProduct.t)
    (ranked : list (ProductRecommendation.t * Q)) (rejected : list RejectedProduct.t)
    : exc (list (ProductRecommendation.t * Q) * list RejectedProduct.t) :=
  match products with
  | [] => Return (ranked, rejected)
  | product :: rest =>
      let optimal_tenor := _get_optimal_tenor application product in
      let effective_tenor :=
        match truthyZ (Application.tenor_months application) with
        | Some tenor => tenor
        | None => optimal_tenor
        end in
      let pr :=
        _apply_hard_filters_with_tenor application metrics product user_input
          effective_tenor in
      if negb (fst pr) then
        let reasons := snd pr in
        let primary_reason :=
          match reasons with r :: _ => r | [] => "UNKNOWN"%string end in
        for_products rest ranked
          (rejected ++ [RejectedProduct.mk (LoanProduct.id product) reasons primary_reason])
      else
        scores <- score_product product effective_tenor ;;
        let rec := ProductRecommendation.mk (LoanProduct.id product) scores in
        for_products rest (ranked ++ [(rec, Scores.total scores)]) rejected
  end.

End Orchestrator.

(** [generate_recommendations], on the application and the active products
    the two database queries return, run on the day [today]. *)
Definition generate_recommendations (today : Z) (application : Application.t)
    (products : list LoanProduct.t) : exc RecommendationResponse.t :=
  metrics <- calculate_application_metrics application ;;
  let user_input := _extract_user_input application in
  r <- for_products today application metrics user_input products [] [] ;;
  let top_recommendations := map fst (firstn 5 (sorted_by_score (fst r))) in
  Return (RecommendationResponse.mk top_recommendations (snd r)).

(** ** Double precision

    The functions below repeat, on IEEE binary64 values, the arithmetic of
    [annuity_payment], of one month of the scheduler and of [calculate_irr],
    operation by operation.  They serve to evaluate the code on concrete
    inputs where rounding, the range of a double or a division by a rounded
    zero decides the outcome.  Python's [float] division raises
    [ZeroDivisionError] on a zero divisor; [x ** n] raises [OverflowError]
    when the power leaves the range of a double and returns [0.0] when it
    underflows. *)

Module Double.

Import PrimFloat.
Local Open Scope float_scope.

(** [float(n)] for an [int] below 2^53. *)
Definition of_int (n : Z) : float := of_uint63 (Uint63.of_Z n).

(** [x / y] *)
Definition truediv (x y : float) : exc float :=
  if y =? 0 then Raise ZeroDivisionError else Return (x / y).

(** [min(x, y)] and [max(x, y)]: the first argument, unless the second is
    strictly beyond it. *)
Definition min (x y : float) : float := if y <? x then y else x.
Definition max (x y : float) : float := if x <? y then y else x.

(** [x ** n] for an [int] exponent [n >= 0], by repeated multiplication:
    exact whenever the power is representable, as for the powers of two, and
    equal to [x] for [n = 1]. *)
Fixpoint power (x : float) (n : nat) : float :=
  match n with
  | O => 1
  | S n' => x * power x n'
  end.

Definition pow (x : float) (n : Z) : exc float :=
  let r := power x (Z.to_nat n) in
  if is_infinity r then Raise OverflowError else Return r.

Definition annuity_payment (principal annual_rate : float) (months : Z) : exc float :=
  if (principal <=? 0) || (months <=? 0)%Z then Return 0
  else
    let monthly_rate := max annual_rate 0 / 12 in
    if monthly_rate =? 0 then truediv principal (of_int months)
    else
      factor <- pow (1 + monthly_rate) months ;;
      truediv (principal * monthly_rate * factor) (factor - 1).

(** The balance an ordinary month of the annuity method leaves, outside the
    grace periods: from [monthly_rate = current_rate / 12] to
    [remaining = max(0, remaining - principal_payment)]. *)
Definition annuity_month (remaining current_rate : float) (remaining_months : Z)
    : exc float :=
  let monthly_rate := current_rate / 12 in
  let interest := remaining * monthly_rate in
  payment <- annuity_payment remaining current_rate remaining_months ;;
  let principal_payment := payment - interest in
  let principal_payment := min principal_payment remaining in
  Return (max 0 (remaining - principal_payment)).

(** [max_loan = property_value * (float(product.max_ltv_pct) / 100)] of the
    LTV check, and [ltv = float(application.loan_amount) / property_value] of
    the metrics. *)
Definition max_loan (property_value max_ltv_pct : float) : float :=
  property_value * (max_ltv_pct / 100).

Definition ltv (loan_amount property_value : float) : float :=
  loan_amount / property_value.

Section IRR.

Variable cashflows : list float.
Variable tolerance : float.

Fixpoint npv_and_derivative (rate : float) (items : list (Z * float))
    (acc : float * float) : exc (float * float) :=
  match items with
  | [] => Return acc
  | (t, cf) :: rest =>
      discount <- pow (1 + rate) t ;;
      term <- truediv cf discount ;;
      let npv := fst acc + term in
      npv_derivative <-
        (if (0 <? t)%Z then
           discount' <- pow (1 + rate) (t + 1) ;;
           dterm <- truediv (of_int t * cf) discount' ;;
           Return (snd acc - dterm)
         else Return (snd acc)) ;;
      npv_and_derivative rate rest (npv, npv_derivative)
  end.

(** How one pass of the Newton-Raphson loop ends. *)
Inductive iteration : Set :=
| Underflow
| Converged (new_rate : float)
| Next (new_rate : float).

Definition newton_iteration (rate : float) : exc iteration :=
  nd <- npv_and_derivative rate (Py.enumerate cashflows) (0, 0) ;;
  let npv := fst nd in
  let npv_derivative := snd nd in
  if abs npv_derivative <? 1e-20 then Return Underflow
  else
    step <- truediv npv npv_derivative ;;
    let new_rate := rate - step in
    let new_rate := max (-0.5) (min new_rate 1.0) in
    if abs (new_rate - rate) <? tolerance then Return (Converged new_rate)
    else Return (Next new_rate).

Fixpoint newton_loop (iterations : nat) (rate : float) : exc float :=
  match iterations with
  | O => Return rate
  | S iterations' =>
      it <- newton_iteration rate ;;
      match it with
      | Underflow => Return rate
      | Converged new_rate => Return new_rate
      | Next new_rate => newton_loop iterations' new_rate
      end
  end.

End IRR.

Definition calculate_irr (cashflows : list float) : exc float :=
  if (List.length cashflows <? 2)%nat then Return 0
  else newton_loop cashflows 1e-10 100 0.01.

End Double.

(** ** Definitions used to state the properties *)

(** The value [annuity_payment] returns. *)
Definition annuity_value (principal annual_rate : Q) (months : Z) : Q :=
  if Py.leb principal 0 || (months <=? 0)%Z then 0
  else
    let monthly_rate := Qmax annual_rate 0 / 12 in
    if Qeq_bool monthly_rate 0 then principal / inject_Z months
    else
      let factor := (1 + monthly_rate) ^ months in
      (principal * monthly_rate * factor) / (factor - 1).

(** The balances of a list of payments, in order. *)
Definition balances (payments : list MonthlyPayment.t) : list Q :=
  map MonthlyPayment.remaining_balance payments.

(** Each element is at most the one before it. *)
Fixpoint non_increasing (xs : list Q) : Prop :=
  match xs with
  | x :: (y :: _) as rest => y <= x /\ non_increasing rest
  | _ => True
  end.

(** The list is not empty and its last element is 0. *)
Definition ends_at_zero (xs : list Q) : Prop :=
  xs <> [] /\ last xs 1 == 0.

(** The state between two iterations: the balance is positive and is at
    most the balance of the last payment appended so far. *)
Definition between_months (st : Loop.t) : Prop :=
  0 < Loop.remaining st
  /\ non_increasing (balances (Loop.payments st))
  /\ Forall (fun b => 0 <= b) (balances (Loop.payments st))
  /\ (Loop.payments st = []
      \/ Loop.remaining st <= last (balances (Loop.payments st)) 1).

(** A prepayment is configured at one of the months [from .. tenor_months]. *)
Definition prepayment_within (prepayment_info : option PrepaymentInfo.t)
    (tenor_months from : Z) : Prop :=
  exists k, (from <= k <= tenor_months)%Z /\ prepayment_due prepayment_info k = true.

(** The entry the prepayment branch appends at [month] for a balance [B]. *)
Definition terminal_payment (fee_structure : option FeeStructure.t) (month : Z)
    (B rate : Q) : MonthlyPayment.t :=
  let fee :=
    _calculate_prepayment_fee B month
      (match fee_structure with
       | Some fs => FeeStructure.prepayment_schedule fs
       | None => []
       end) in
  MonthlyPayment.mk month 0 B (B + fee) 0 fee 0 rate false.

(** The sum of [cf / (1 + rate) ^ t] over the indexed cashflows. *)
Fixpoint present_value (rate : Q) (items : list (Z * Q)) : Q :=
  match items with
  | [] => 0
  | (t, cf) :: rest => cf / (1 + rate) ^ t + present_value rate rest
  end.

(** The entries pay down the opening balance [B] at the monthly rate [m]:
    each payment covers the interest on the balance it finds and the
    reduction of that balance, and charges no negative fee or insurance. *)
Fixpoint pays_down (m B : Q) (entries : list MonthlyPayment.t) : Prop :=
  match entries with
  | [] => True
  | p :: rest =>
      0 <= B
      /\ B * (1 + m) <= MonthlyPayment.payment p + MonthlyPayment.remaining_balance p
      /\ 0 <= MonthlyPayment.fees p
      /\ 0 <= MonthlyPayment.insurance p
      /\ pays_down m (MonthlyPayment.remaining_balance p) rest
  end.

(** The monthly fee of the fee structure is not negative. *)
Definition monthly_fee_not_negative (fee_structure : option FeeStructure.t) : Prop :=
  match fee_structure with
  | Some fs => 0 <= FeeStructure.account_maintenance_fee_vnd fs
  | None => True
  end.

(** The share of the balance that an ordinary month repays at a non-negative
    rate: nothing in principal grace, [1 / n] of it with equal principal or
    at a zero rate, [m / ((1 + m) ^ n - 1)] of it with an annuity at the
    monthly rate [m], [n] being the number of months left. *)
Definition principal_share (tenor_months : Z) (repayment_method : string)
    (grace_principal_months month : Z) (rate : Q) : Q :=
  let n := (tenor_months - month + 1)%Z in
  if (month <=? grace_principal_months)%Z then 0
  else if String.eqb repayment_method "equal_principal" then 1 / inject_Z n
  else if Py.leb rate 0 then 1 / inject_Z n
  else (rate / 12) / ((1 + rate / 12) ^ n - 1).

(** [1 + x + ... + x ^ (k - 1)] *)
Fixpoint geometric (x : Q) (k : nat) : Q :=
  match k with
  | O => 0
  | S k' => geometric x k' + x ^ Z.of_nat k'
  end.

(** The loop of [generate_recommendations] on one product: the term it
    works with, whether the product passes the filter, and the entry of
    [rejected_products] it appends when it does not. *)
Definition effective_tenor_of (application : Application.t) (product : LoanProduct.t)
    : Z :=
  match truthyZ (Application.tenor_months application) with
  | Some tenor => tenor
  | None => _get_optimal_tenor application product
  end.

Definition eligible (application : Application.t) (metrics : Metrics.t)
    (user_input : UserInput.t) (product : LoanProduct.t) : bool :=
  fst (_apply_hard_filters_with_tenor application metrics product user_input
         (effective_tenor_of application product)).

Definition rejection_of (application : Application.t) (metrics : Metrics.t)
    (user_input : UserInput.t) (product : LoanProduct.t) : RejectedProduct.t :=
  let reasons :=
    snd (_apply_hard_filters_with_tenor application metrics product user_input
           (effective_tenor_of application product)) in
  RejectedProduct.mk (LoanProduct.id product) reasons
    (match reasons with r :: _ => r | [] => "UNKNOWN"%string end).

(** An annual rate at which an annuity instalment before the last month
    leaves part of the balance.  The rate is above -600%: the annuity payment
    of a negative rate is that of rate 0, [remaining / n], and the negative
    interest is added to the principal portion.  In a month of interest grace
    the whole payment goes to principal, and the monthly rate [m] satisfies
    [m * m + m < 1].  With two months left both bounds are exact. *)
Definition leaves_balance (grace_interest_months month : Z) (annual_rate : Q) : Prop :=
  -6 < annual_rate
  /\ ((month <= grace_interest_months)%Z ->
      annual_rate / 12 * (annual_rate / 12) + annual_rate / 12 < 1).

(** The rate the loop settles on in a month: the new rate when it differs
    from the current one by more than 1e-10. *)
Definition settled_rate (rate_structure : RateStructure.t) (scenario_bump : Q)
    (month : Z) (current_rate : Q) : Q :=
  let new_rate := RateStructure.get_rate_for_month rate_structure month scenario_bump in
  if Py.ltb 1e-10 (Qabs (new_rate - current_rate)) then new_rate else current_rate.

(** The current rates [c1] and [c2] of two runs of the loop, under the bumps
    [b1] and [b2], entering [month]: either they are equal, or the fixed
    period is over and each run has settled within 1e-10 of its floating
    rate, the first not above the second. *)
Definition rates_related (rate_structure : RateStructure.t) (b1 b2 : Q) (month : Z)
    (c1 c2 : Q) : Prop :=
  c1 == c2
  \/ ((RateStructure.fixed_months rate_structure < month)%Z
      /\ Qabs (RateStructure.get_rate_for_month rate_structure month b1 - c1) <= 1e-10
      /\ Qabs (RateStructure.get_rate_for_month rate_structure month b2 - c2) <= 1e-10
      /\ c1 <= c2).

(** Entry by entry, the same month and no more interest. *)
Definition interest_ordered (e1 e2 : list MonthlyPayment.t) : Prop :=
  Forall2 (fun p1 p2 =>
             MonthlyPayment.month p1 = MonthlyPayment.month p2
             /\ MonthlyPayment.interest p1 <= MonthlyPayment.interest p2) e1 e2.

(** Two computations end the same way: both raise the same exception, or
    both return and the results are related by [R]. *)
Definition same_outcome {A B : Type} (R : A -> B -> Prop) (x : exc A) (y : exc B)
    : Prop :=
  match x, y with
  | Return a, Return b => R a b
  | Raise e, Raise e' => e = e'
  | _, _ => False
  end.

(** ** Sample data, after the fixtures of the test-suite *)

(** A home loan: 7.5% fixed for 24 months, then 5% + 2.5%; 15 days SLA;
    minimum income 15,000,000. *)
Definition sample_product : LoanProduct.t :=
  LoanProduct.mk 1 (Some "HOME_PURCHASE"%string) None None None None None
    [] (Some 15000000) [] None None (Some 24%Z) (Some 7.5) (Some 2.5)
    (Some 0.5) (Some 0.7) (Some 15%Z) (Some (Bank.mk [] None)) None None.

(** A borrower asking 500,000,000 over 180 months with a monthly income of
    10,000,000 and a house worth 600,000,000. *)
Definition sample_application : Application.t :=
  Application.mk "HOME_PURCHASE" 500000000 (Some 180%Z) None None None None None
    (Some "HCM"%string) None None None None false false None None
    [10000000] [] [Collateral.mk "HOUSE" 600000000].

Definition sample_metrics : Metrics.t :=
  Metrics.mk (Some 10000000) (Some 0) (Some (5 # 6)).

Definition sample_user_input : UserInput.t := _extract_user_input sample_application.

(** A product at 12% fixed for 24 months with a 15-day SLA, and a borrower
    asking 1,200,000 over one month; [need_by] is the disbursement deadline.
    At 1% a month the NPV of the single repayment is 0 at the solver's first
    guess, which keeps the exact evaluation small. *)
Definition quick_product : LoanProduct.t :=
  LoanProduct.mk 7 (Some "HOME_PURCHASE"%string) None None None None None
    [] None [] None None (Some 24%Z) (Some 12) (Some 2.5)
    None None (Some 15%Z) None None None.

Definition quick_application (need_by : option Z) : Application.t :=
  Application.mk "HOME_PURCHASE" 1200000 (Some 1%Z) None None None None need_by
    None None None None None false false None None
    [30000000] [] [].

(** * Properties *)

(** ** Arithmetic helpers *)

Ltac qconst :=
  change 1e-10 with (1 # 10000000000) in *;
  change 1e-20 with (1 # 100000000000000000000) in *;
  repeat match goal with
  | |- context [?x / 12] => change (x / 12) with (x * (1 # 12))
  | |- context [?x / 100] => change (x / 100) with (x * (1 # 100))
  | |- context [?x / 2] => change (x / 2) with (x * (1 # 2))
  | |- context [?x / 3] => change (x / 3) with (x * (1 # 3))
  | H : context [?x / 12] |- _ => change (x / 12) with (x * (1 # 12)) in H
  | H : context [?x / 100] |- _ => change (x / 100) with (x * (1 # 100)) in H
  | H : context [?x / 2] |- _ => change (x / 2) with (x * (1 # 2)) in H
  | H : context [?x / 3] |- _ => change (x / 3) with (x * (1 # 3)) in H
  end.

Ltac qlra := qconst; lra.

Ltac qmm :=
  repeat match goal with
  | |- context [Qmax ?a ?b] =>
      let m := fresh "m" in
      pose proof (Q.max_spec a b); set (m := Qmax a b) in *; clearbody m
  | |- context [Qmin ?a ?b] =>
      let m := fresh "m" in
      pose proof (Q.min_spec a b); set (m := Qmin a b) in *; clearbody m
  | H : context [Qmax ?a ?b] |- _ =>
      let m := fresh "m" in
      pose proof (Q.max_spec a b); set (m := Qmax a b) in *; clearbody m
  | H : context [Qmin ?a ?b] |- _ =>
      let m := fresh "m" in
      pose proof (Q.min_spec a b); set (m := Qmin a b) in *; clearbody m
  end.

Lemma leb_true x y : Py.leb x y = true <-> x <= y.
Proof. apply Qle_bool_iff. Qed.

Lemma leb_false x y : Py.leb x y = false <-> y < x.
Proof.
  unfold Py.leb. split; intros H.
  - apply Qnot_le_lt. intros L. apply Qle_bool_iff in L. congruence.
  - destruct (Qle_bool x y) eqn:E; [|reflexivity].
    apply Qle_bool_iff in E. lra.
Qed.

Lemma ltb_true x y : Py.ltb x y = true <-> x < y.
Proof.
  unfold Py.ltb. rewrite negb_true_iff. apply (leb_false y x).
Qed.

Lemma ltb_false x y : Py.ltb x y = false <-> y <= x.
Proof.
  unfold Py.ltb. rewrite negb_false_iff. apply (leb_true y x).
Qed.

Lemma truediv_nonzero x y : ~ y == 0 -> x // y = Return (x / y).
Proof.
  intros H. unfold truediv. destruct (Qeq_bool y 0) eqn:E; [|reflexivity].
  apply Qeq_bool_eq in E. contradiction.
Qed.

Lemma div_one x : x / 1 == x.
Proof. field. Qed.

Lemma inject_Z_pos n : (0 < n)%Z -> 0 < inject_Z n.
Proof. intros H. change 0 with (inject_Z 0). rewrite <- Zlt_Qlt. exact H. Qed.

Lemma factor_gt_1 m n : 0 < m -> (0 < n)%Z -> 1 < (1 + m) ^ n.
Proof. intros Hm Hn. apply Qpower_1_lt; [lra | exact Hn]. Qed.

Lemma power_succ x k : 0 < x -> x ^ Z.of_nat (S k) == x ^ Z.of_nat k * x.
Proof.
  intros Hx. rewrite Nat2Z.inj_succ. unfold Z.succ.
  rewrite Qpower_plus by lra. rewrite Qpower_1_r. reflexivity.
Qed.

Lemma power_base_order a b k : 0 < a -> a <= b -> a ^ Z.of_nat k <= b ^ Z.of_nat k.
Proof.
  intros Ha Hab. induction k as [|k IH].
  - change (a ^ Z.of_nat 0) with 1. change (b ^ Z.of_nat 0) with 1. lra.
  - rewrite !power_succ by lra.
    assert (0 < a ^ Z.of_nat k) by (apply Qpower_0_lt; exact Ha).
    set (x := a ^ Z.of_nat k) in *. set (y := b ^ Z.of_nat k) in *.
    assert (x * a <= y * a) by (apply Qmult_le_compat_r; lra).
    assert (y * a <= y * b) by nra.
    lra.
Qed.

Lemma annuity_payment_value p r n : annuity_payment p r n = Return (annuity_value p r n).
Proof.
  unfold annuity_payment, annuity_value.
  destruct (Py.leb p 0 || (n <=? 0)%Z) eqn:G; [reflexivity|].
  apply orb_false_iff in G. destruct G as [_ Gn]. apply Z.leb_gt in Gn.
  destruct (Qeq_bool (Qmax r 0 / 12) 0) eqn:E.
  - apply truediv_nonzero. pose proof (inject_Z_pos n Gn). lra.
  - apply truediv_nonzero. apply Qeq_bool_neq in E.
    assert (0 < Qmax r 0 / 12).
    { destruct (Qlt_le_dec 0 (Qmax r 0)) as [L|L]; [qlra|].
      exfalso. apply E. pose proof (Q.le_max_r r 0). qlra. }
    pose proof (factor_gt_1 _ n H Gn). lra.
Qed.

Lemma monthly_rate_cases r :
  (r <= 0 /\ Qmax r 0 / 12 == 0) \/ (0 < r /\ Qmax r 0 / 12 == r / 12).
Proof.
  destruct (Qlt_le_dec 0 r) as [L|L].
  - right. split; [exact L|]. rewrite (Q.max_l r 0) by lra. reflexivity.
  - left. split; [exact L|]. rewrite (Q.max_r r 0) by lra. reflexivity.
Qed.

(** The value of [annuity_payment] in its three cases. *)
Lemma annuity_value_cases p r n :
  0 < p -> (1 <= n)%Z ->
  (r <= 0 /\ annuity_value p r n == p / inject_Z n)
  \/ (0 < r /\ 1 < (1 + r / 12) ^ n
      /\ annuity_value p r n * ((1 + r / 12) ^ n - 1) == p * (r / 12) * (1 + r / 12) ^ n).
Proof.
  intros Hp Hn. unfold annuity_value.
  replace (Py.leb p 0 || (n <=? 0)%Z) with false.
  2:{ symmetry. apply orb_false_iff. split; [apply leb_false; exact Hp | apply Z.leb_gt; lia]. }
  destruct (monthly_rate_cases r) as [[Hr E]|[Hr E]].
  - left. split; [exact Hr|].
    rewrite (Qeq_eq_bool _ _ E). reflexivity.
  - right. split; [exact Hr|].
    assert (F : 1 < (1 + r / 12) ^ n) by (apply factor_gt_1; [qlra | lia]).
    split; [exact F|].
    destruct (Qeq_bool (Qmax r 0 / 12) 0) eqn:B.
    + apply Qeq_bool_eq in B. rewrite E in B. exfalso. qlra.
    + cbv zeta. rewrite E. field. lra.
Qed.

(** ** Lists of balances *)

Lemma non_increasing_snoc xs x :
  non_increasing xs -> (xs = [] \/ x <= last xs 1) -> non_increasing (xs ++ [x]).
Proof.
  induction xs as [|a [|b t] IH]; intros Hs Hl.
  - exact I.
  - simpl. destruct Hl as [E|L]; [discriminate|]. simpl in L. split; [exact L | exact I].
  - destruct Hs as [Hab Ht]. split; [exact Hab|].
    apply IH; [exact Ht|]. right. destruct Hl as [E|L]; [discriminate|]. exact L.
Qed.

Lemma last_snoc (xs : list Q) x d : last (xs ++ [x]) d = x.
Proof. apply last_last. Qed.

Lemma balances_snoc ps p :
  balances (ps ++ [p]) = balances ps ++ [MonthlyPayment.remaining_balance p].
Proof. unfold balances. rewrite map_app. reflexivity. Qed.

Lemma factor_gt_linear m n : 0 < m -> (2 <= n)%Z -> 1 + m < (1 + m) ^ n.
Proof.
  intros Hm Hn.
  assert (H2 : (1 + m) ^ 2 <= (1 + m) ^ n) by (apply Qpower_le_compat_l; [lia | lra]).
  assert (E : (1 + m) ^ 2 == (1 + m) * (1 + m)) by reflexivity.
  rewrite E in H2. nra.
Qed.

(** ** One month of the schedule *)

Section SchedulerFacts.

Variable tenor_months : Z.
Variable rate_structure : RateStructure.t.
Variable repayment_method : string.
Variable grace_principal_months : Z.
Variable grace_interest_months : Z.
Variable fee_structure : option FeeStructure.t.
Variable prepayment_info : option PrepaymentInfo.t.
Variable scenario_bump : Q.

Let body :=
  loop_body tenor_months rate_structure repayment_method grace_principal_months
    grace_interest_months fee_structure prepayment_info scenario_bump.

Let run :=
  for_months tenor_months rate_structure repayment_method grace_principal_months
    grace_interest_months fee_structure prepayment_info scenario_bump.

(** The principal portion is never negative, and covers the whole balance in
    the last month of the term. *)
Lemma principal_portion_bounds month B rate (interest_grace : bool) :
  (1 <= month <= tenor_months)%Z -> 0 < B ->
  let interest := if interest_grace then 0 else B * (rate / 12) in
  exists pp pay,
    principal_and_payment tenor_months repayment_method month B interest rate
    = Return (pp, pay)
    /\ 0 <= pp
    /\ (month = tenor_months -> B <= pp).
Proof.
  intros Hm HB interest. unfold principal_and_payment.
  set (n := (tenor_months - month + 1)%Z).
  assert (Hn : (1 <= n)%Z) by (unfold n; lia).
  assert (Hq : 0 < inject_Z n) by (apply inject_Z_pos; lia).
  destruct (String.eqb repayment_method "equal_principal").
  - rewrite truediv_nonzero by lra. cbn [bind].
    eexists _, _. split; [reflexivity|]. split.
    + apply Qle_shift_div_l; [exact Hq | lra].
    + intros E. assert (n = 1%Z) by (unfold n; lia). subst n. rewrite H.
      change (inject_Z 1) with 1. rewrite (div_one B). lra.
  - rewrite annuity_payment_value. cbn [bind].
    eexists _, _. split; [reflexivity|].
    destruct (annuity_value_cases B rate n HB Hn) as [[Hr E]|(Hr & F & E)].
    + assert (Hi : interest <= 0).
      { unfold interest. destruct interest_grace; [lra|]. qconst. nra. }
      assert (0 < B / inject_Z n) by (apply Qlt_shift_div_l; [exact Hq | lra]).
      split; [lra|]. intros Em. assert (n = 1%Z) by (unfold n; lia).
      rewrite H0 in E |- *. change (inject_Z 1) with 1 in E. rewrite (div_one B) in E. lra.
    + set (v := annuity_value B rate n) in *.
      set (f := (1 + rate / 12) ^ n) in *.
      assert (Hm0 : 0 < rate / 12) by qlra.
      set (m := rate / 12) in *.
      assert (Hi : interest <= B * m).
      { unfold interest. destruct interest_grace; [nra | lra]. }
      assert (Hv : B * m < v) by nra.
      split; [lra|]. intros Em. assert (En : n = 1%Z) by (unfold n; lia).
      assert (Ef : f == 1 + m) by (unfold f; rewrite En; apply Qpower_1_r).
      assert (v * m == B * m * (1 + m)) by (rewrite Ef in E; lra).
      assert (v == B * (1 + m)) by nra.
      lra.
Qed.

(** What one iteration of the loop does to the balance. *)
Lemma loop_body_step month st :
  (1 <= month <= tenor_months)%Z -> 0 < Loop.remaining st ->
  exists st' b mp,
    body month st = Return (st', b)
    /\ Loop.payments st' = Loop.payments st ++ [mp]
    /\ MonthlyPayment.month mp = month
    /\ 0 <= MonthlyPayment.remaining_balance mp <= Loop.remaining st
    /\ (b = true -> MonthlyPayment.remaining_balance mp == 0)
    /\ (b = false ->
        Loop.remaining st' = MonthlyPayment.remaining_balance mp
        /\ 0 < Loop.remaining st')
    /\ (month = tenor_months -> (grace_principal_months < tenor_months)%Z ->
        MonthlyPayment.remaining_balance mp == 0)
    /\ (prepayment_due prepayment_info month = true -> b = true)
    /\ (prepayment_due prepayment_info month = true ->
        mp = terminal_payment fee_structure month (Loop.remaining st)
               (Loop.current_rate st)
        /\ Loop.total_interest st' = Loop.total_interest st)
    /\ (prepayment_due prepayment_info month = false ->
        Loop.total_interest st'
        = Loop.total_interest st + MonthlyPayment.interest mp).
Proof.
  intros Hm HB. unfold body, loop_body.
  destruct (prepayment_due prepayment_info month) eqn:Hp.
  - eexists _, _, _. split; [reflexivity|].
    split; [reflexivity|]. split; [reflexivity|].
    cbn [Loop.payments Loop.remaining MonthlyPayment.month
         MonthlyPayment.remaining_balance].
    split; [split; lra|].
    split; [intros _; reflexivity|].
    split; [intros; discriminate|].
    split; [intros _ _; reflexivity|].
    split; [intros _; reflexivity|].
    split; [intros _; split; reflexivity|].
    intros; discriminate.
  - cbv zeta.
    set (rate :=
           if Py.ltb 1e-10
                (Qabs (RateStructure.get_rate_for_month rate_structure month scenario_bump
                       - Loop.current_rate st))
           then RateStructure.get_rate_for_month rate_structure month scenario_bump
           else Loop.current_rate st).
    set (B := Loop.remaining st) in *.
    destruct (principal_portion_bounds month B rate (month <=? grace_interest_months)%Z Hm HB)
      as (pp & pay & Hpp & Hpos & Hlast).
    cbv zeta in Hpp.
    assert (Hstage :
      exists pp' pay',
        (if (month <=? grace_principal_months)%Z
         then Return (0, if (month <=? grace_interest_months)%Z then 0 else B * (rate / 12))
         else principal_and_payment tenor_months repayment_method month B
                (if (month <=? grace_interest_months)%Z then 0 else B * (rate / 12)) rate)
        = Return (pp', pay')
        /\ 0 <= pp'
        /\ (month = tenor_months -> (grace_principal_months < tenor_months)%Z -> B <= pp')).
    { destruct (month <=? grace_principal_months)%Z eqn:G.
      - eexists _, _. split; [reflexivity|]. split; [lra|].
        intros E L. apply Z.leb_le in G. lia.
      - eexists _, _. split; [exact Hpp|]. split; [exact Hpos|]. intros E _. auto. }
    destruct Hstage as (pp' & pay' & Hst & Hpos' & Hlast').
    rewrite Hst. cbn [bind fst snd].
    eexists _, _, _. split; [reflexivity|].
    split; [reflexivity|]. split; [reflexivity|].
    cbn [Loop.payments Loop.remaining MonthlyPayment.month
         MonthlyPayment.remaining_balance].
    split; [qmm; lra|].
    split; [intros Hb; apply leb_true in Hb; qmm; lra|].
    split; [intros Hb; apply leb_false in Hb; split; [reflexivity | exact Hb]|].
    split; [intros E L; specialize (Hlast' E L); qmm; lra|].
    split; [intros; discriminate|].
    split; [intros; discriminate|].
    intros _. reflexivity.
Qed.

(** [range] unfolds one month at a time. *)
Lemma range_cons lo hi : (lo < hi)%Z -> Py.range lo hi = lo :: Py.range (lo + 1) hi.
Proof.
  intros H. unfold Py.range.
  replace (Z.to_nat (hi - lo)) with (S (Z.to_nat (hi - (lo + 1)))) by lia.
  cbn [seq map]. f_equal; [lia|].
  rewrite <- seq_shift, map_map. apply map_ext. intros i. lia.
Qed.

Lemma range_nil lo hi : (hi <= lo)%Z -> Py.range lo hi = [].
Proof.
  intros H. unfold Py.range. replace (Z.to_nat (hi - lo)) with O by lia. reflexivity.
Qed.

Lemma range_bounds lo hi month : In month (Py.range lo hi) -> (lo <= month < hi)%Z.
Proof.
  unfold Py.range. rewrite in_map_iff. intros (i & <- & Hi).
  apply in_seq in Hi. lia.
Qed.

(** The loop from month [from] on: it returns, and the balances it leaves
    are sorted, non-negative and, when the last month is not a grace month or
    a prepayment is ahead, end at zero. *)
Lemma run_balances n :
  forall from st,
    Z.to_nat (tenor_months + 1 - from) = n -> (1 <= from)%Z ->
    between_months st ->
    exists st',
      run (Py.range from (tenor_months + 1)) st = Return st'
      /\ non_increasing (balances (Loop.payments st'))
      /\ Forall (fun b => 0 <= b) (balances (Loop.payments st'))
      /\ ((from <= tenor_months)%Z ->
          (grace_principal_months < tenor_months)%Z
          \/ prepayment_within prepayment_info tenor_months from ->
          ends_at_zero (balances (Loop.payments st'))).
Proof.
  induction n as [|n IH]; intros from st Hn Hfrom (HB & Hs & Hf & Hl).
  - rewrite range_nil by lia. cbn. exists st. repeat split; try assumption.
    + lia.
    + lia.
  - rewrite range_cons by lia. unfold run. cbn [for_months]. fold run.
    destruct (loop_body_step from st) as (st' & b & mp & Hb & Hp & Hmo & Hr & Ht & Hc & Hz & Hd & _);
      [lia | exact HB |].
    fold body. rewrite Hb. cbn [bind fst snd].
    assert (Hs' : non_increasing (balances (Loop.payments st'))).
    { rewrite Hp, balances_snoc. apply non_increasing_snoc; [exact Hs|].
      destruct Hl as [E|L]; [left; rewrite E; reflexivity | right; lra]. }
    assert (Hf' : Forall (fun b => 0 <= b) (balances (Loop.payments st'))).
    { rewrite Hp, balances_snoc. apply Forall_app. split; [exact Hf|].
      constructor; [lra | constructor]. }
    assert (Hlast : last (balances (Loop.payments st')) 1
                    = MonthlyPayment.remaining_balance mp).
    { rewrite Hp, balances_snoc. apply last_snoc. }
    assert (Hne : balances (Loop.payments st') <> []).
    { rewrite Hp, balances_snoc. intros E. apply app_eq_nil in E. destruct E; discriminate. }
    destruct b.
    + exists st'. split; [reflexivity|]. split; [exact Hs'|]. split; [exact Hf'|].
      intros _ _. split; [exact Hne|]. rewrite Hlast. apply Ht. reflexivity.
    + destruct (Hc eq_refl) as [Hrem Hpos].
      destruct (IH (from + 1)%Z st') as (st2 & Hrun & Hs2 & Hf2 & Hz2); [lia | lia | |].
      { split; [exact Hpos|]. split; [exact Hs'|]. split; [exact Hf'|].
        right. rewrite Hlast, Hrem. lra. }
      exists st2. split; [exact Hrun|]. split; [exact Hs2|]. split; [exact Hf2|].
      intros _ Hcond.
      destruct (Z.eq_dec from tenor_months) as [E|NE].
      * exfalso. destruct Hcond as [G|(k & Hk & Hdue)].
        -- specialize (Hz E G). rewrite <- Hrem in Hz. lra.
        -- assert (k = from) by lia. subst k. specialize (Hd Hdue). discriminate.
      * apply Hz2; [lia|]. destruct Hcond as [G|(k & Hk & Hdue)]; [left; exact G|].
        right. exists k. split; [|exact Hdue].
        destruct (Z.eq_dec k from) as [Ek|Nk]; [|lia].
        subst k. specialize (Hd Hdue). discriminate.
Qed.

(** The payments the loop appends from month [from] on: ordinary months with
    consecutive numbers, none of them a prepayment month, then possibly the
    terminal prepayment entry.  [total_interest] grows by the interest of the
    ordinary months only. *)
Lemma run_shape n :
  forall from st,
    Z.to_nat (tenor_months + 1 - from) = n -> (1 <= from)%Z ->
    0 < Loop.remaining st ->
    exists st' normal tail,
      run (Py.range from (tenor_months + 1)) st = Return st'
      /\ Loop.payments st' = Loop.payments st ++ normal ++ tail
      /\ map MonthlyPayment.month normal
         = Py.range from (from + Z.of_nat (List.length normal))
      /\ Forall (fun p => prepayment_due prepayment_info (MonthlyPayment.month p) = false)
           normal
      /\ Loop.total_interest st'
         = fold_left Qplus (map MonthlyPayment.interest normal) (Loop.total_interest st)
      /\ (tail = []
          \/ exists B rate,
               prepayment_due prepayment_info (from + Z.of_nat (List.length normal)) = true
               /\ tail = [terminal_payment fee_structure
                            (from + Z.of_nat (List.length normal)) B rate]).
Proof.
  induction n as [|n IH]; intros from st Hn Hfrom HB.
  - rewrite range_nil by lia. exists st, [], []. cbn.
    split; [reflexivity|]. split; [rewrite app_nil_r; reflexivity|].
    split; [rewrite range_nil by lia; reflexivity|].
    split; [constructor|]. split; [reflexivity|]. left. reflexivity.
  - rewrite range_cons by lia. unfold run. cbn [for_months]. fold run.
    destruct (loop_body_step from st)
      as (st1 & b & mp & Hb & Hp & Hmo & _ & _ & Hc & _ & Hd & Hterm & Hnorm);
      [lia | exact HB |].
    fold body. rewrite Hb. cbn [bind fst snd].
    destruct (prepayment_due prepayment_info from) eqn:Hdue.
    + rewrite (Hd eq_refl). destruct (Hterm eq_refl) as [Emp Eti].
      exists st1, [], [mp]. split; [reflexivity|].
      split; [rewrite Hp; reflexivity|].
      split; [cbn; rewrite range_nil by lia; reflexivity|].
      split; [constructor|]. split; [exact Eti|].
      right. cbn [List.length Z.of_nat]. rewrite Z.add_0_r.
      eexists _, _. split; [exact Hdue|]. rewrite Emp. reflexivity.
    + specialize (Hnorm eq_refl). destruct b.
      * exists st1, [mp], []. split; [reflexivity|].
        split; [rewrite Hp; reflexivity|].
        split.
        { cbn [map List.length]. rewrite Hmo.
          rewrite range_cons by lia. rewrite range_nil by lia. reflexivity. }
        split; [constructor; [rewrite Hmo; exact Hdue | constructor]|].
        split; [cbn; exact Hnorm|]. left. reflexivity.
      * destruct (Hc eq_refl) as [_ Hpos].
        destruct (IH (from + 1)%Z st1) as (st2 & normal & tail & Hrun & Hp2 & Hm2 & Hf2 & Ht2 & Htail);
          [lia | lia | exact Hpos |].
        exists st2, (mp :: normal), tail. split; [exact Hrun|].
        split; [rewrite Hp2, Hp, <- app_assoc; reflexivity|].
        assert (El : (from + Z.of_nat (List.length (mp :: normal))
                      = from + 1 + Z.of_nat (List.length normal))%Z)
          by (cbn [List.length]; lia).
        split.
        { cbn [map]. rewrite Hmo, Hm2, El. symmetry. apply range_cons. lia. }
        split; [constructor; [rewrite Hmo; exact Hdue | exact Hf2]|].
        split; [cbn [map fold_left]; rewrite Ht2, Hnorm; reflexivity|].
        rewrite El. exact Htail.
Qed.

(** Before the last month, at a non-negative rate and with interest charged,
    the principal portion is less than the balance. *)
Lemma principal_portion_partial month B rate :
  (1 <= month < tenor_months)%Z -> 0 < B -> 0 <= rate ->
  exists pp pay,
    principal_and_payment tenor_months repayment_method month B (B * (rate / 12)) rate
    = Return (pp, pay)
    /\ pp < B.
Proof.
  intros Hm HB Hr. unfold principal_and_payment.
  set (n := (tenor_months - month + 1)%Z).
  assert (Hn : (2 <= n)%Z) by (unfold n; lia).
  assert (Hq : 2 <= inject_Z n).
  { change 2 with (inject_Z 2). rewrite <- Zle_Qle. exact Hn. }
  assert (Hdiv : B / inject_Z n < B).
  { apply Qlt_shift_div_r; [lra | nra]. }
  destruct (String.eqb repayment_method "equal_principal").
  - rewrite truediv_nonzero by lra. cbn [bind].
    eexists _, _. split; [reflexivity | exact Hdiv].
  - rewrite annuity_payment_value. cbn [bind].
    eexists _, _. split; [reflexivity|].
    destruct (annuity_value_cases B rate n HB) as [[Hr0 E]|(Hr0 & F & E)]; [lia | |].
    + assert (Ei : B * (rate / 12) == 0).
      { assert (rate == 0) by lra. rewrite H. field. }
      lra.
    + set (v := annuity_value B rate n) in *.
      assert (Hm0 : 0 < rate / 12) by qlra.
      set (m := rate / 12) in *.
      pose proof (factor_gt_linear m n Hm0 Hn) as Hf.
      set (f := (1 + m) ^ n) in *.
      assert (Ex : (v - B * m) * (f - 1) == B * m) by lra.
      destruct (Qlt_le_dec (v - B * m) B) as [L|L]; [exact L|].
      exfalso.
      assert (B * (f - 1) <= (v - B * m) * (f - 1)) by (apply Qmult_le_compat_r; lra).
      assert (B * m < B * (f - 1)) by (apply Qmult_lt_l; lra).
      lra.
Qed.

Lemma last_cons_default (a : Q) l d : last (a :: l) d = last l a.
Proof.
  revert a d. induction l as [|b l IH]; intros a d; [reflexivity|].
  change (last (a :: b :: l) d) with (last (b :: l) d).
  rewrite (IH b d), (IH b a). reflexivity.
Qed.

End SchedulerFacts.

(** ** Balances of a generated schedule *)




Section LastInstalment.

Import PrimFloat.
Local Open Scope float_scope.

(** It also fails for the annuity method on doubles: the last month of a loan
    (one month left, 1200 outstanding at 12% a year) computes a principal
    portion [payment - interest] just under the balance and leaves
    2^-40 = 9.09e-13 outstanding. *)
Lemma annuity_last_instalment_leaves_residue :
  Double.annuity_month 1200 0.12 1 = Return 0x1p-40.
Proof. vm_compute. reflexivity. Qed.

End LastInstalment.

(** C9.  With [principal <= 0] or [tenor_months <= 0] the generator returns
    the empty schedule: no payment entries, every running total 0, and no
    exception. *)
Theorem degenerate_inputs_give_empty_schedule
    (principal : Q) (tenor_months : Z) (rate_structure : RateStructure.t)
    (repayment_method : string) (grace_principal_months grace_interest_months : Z)
    (fee_structure : option FeeStructure.t) (prepayment_info : option PrepaymentInfo.t)
    (scenario_bump : Q) :
  principal <= 0 \/ (tenor_months <= 0)%Z ->
  generate_amortization_schedule principal tenor_months rate_structure
    repayment_method grace_principal_months grace_interest_months fee_structure
    prepayment_info scenario_bump
  = Return (AmortizationSchedule.mk [] 0 0 0 0 0).
Proof.
  intros H. unfold generate_amortization_schedule.
  replace (Py.leb principal 0 || (tenor_months <=? 0)%Z) with true; [reflexivity|].
  symmetry. apply orb_true_iff. destruct H as [H|H].
  - left. apply leb_true. exact H.
  - right. apply Z.leb_le. exact H.
Qed.

Lemma degenerate_inputs_give_empty_schedule_witness :
  generate_amortization_schedule (-5) 12 (RateStructure.mk 10 12 0 5) "annuity"
    0 0 None None 0
  = Return (AmortizationSchedule.mk [] 0 0 0 0 0)
  /\ generate_amortization_schedule 1000 0 (RateStructure.mk 10 12 0 5) "annuity"
       0 0 None None 0
     = Return (AmortizationSchedule.mk [] 0 0 0 0 0).
Proof.
  split.
  - apply degenerate_inputs_give_empty_schedule. left. lra.
  - apply degenerate_inputs_give_empty_schedule. right. lia.
Defined.

(** ** The prepayment entry *)

Lemma range_app lo mid hi :
  (lo <= mid <= hi)%Z -> Py.range lo hi = Py.range lo mid ++ Py.range mid hi.
Proof.
  intros H. remember (Z.to_nat (mid - lo)) as d eqn:Hd.
  revert lo H Hd. induction d as [|d IH]; intros lo H Hd.
  - assert (lo = mid) by lia. subst lo. rewrite (range_nil mid mid) by lia. reflexivity.
  - rewrite (range_cons lo hi) by lia. rewrite (range_cons lo mid) by lia.
    cbn [app]. f_equal. apply IH; lia.
Qed.

Section PrepaymentFacts.

Variable tenor_months : Z.
Variable rate_structure : RateStructure.t.
Variable repayment_method : string.
Variable grace_principal_months : Z.
Variable grace_interest_months : Z.
Variable fee_structure : option FeeStructure.t.
Variable prepayment_info : option PrepaymentInfo.t.
Variable scenario_bump : Q.

Let body :=
  loop_body tenor_months rate_structure repayment_method grace_principal_months
    grace_interest_months fee_structure prepayment_info scenario_bump.

Let run :=
  for_months tenor_months rate_structure repayment_method grace_principal_months
    grace_interest_months fee_structure prepayment_info scenario_bump.

(** An ordinary month ends in [break] only with the balance at 0. *)
Lemma loop_body_break month st st' :
  body month st = Return (st', true) ->
  prepayment_due prepayment_info month = false ->
  Loop.remaining st' <= 0.
Proof.
  unfold body, loop_body. intros H Hdue. rewrite Hdue in H. cbv zeta in H.
  match type of H with
  | bind ?c _ = _ => destruct c as [e|pp]; cbn [bind] in H; [discriminate|]
  end.
  injection H as Est Eb. subst st'. cbn [Loop.remaining].
  apply leb_true. exact Eb.
Qed.

(** A run that ends with a positive balance has not left the loop: the
    months that follow continue from its state. *)
Lemma run_prefix months rest :
  forall st0 st,
    Forall (fun j => prepayment_due prepayment_info j = false) months ->
    run months st0 = Return st -> 0 < Loop.remaining st ->
    run (months ++ rest) st0 = run rest st.
Proof.
  induction months as [|month months IH]; intros st0 st Hnot Hrun Hpos.
  - cbn in Hrun. injection Hrun as <-. reflexivity.
  - inversion Hnot as [|? ? Hm Hrest]; subst.
    unfold run in Hrun |- *. cbn [app for_months] in Hrun |- *. fold run in Hrun |- *.
    fold body in Hrun |- *.
    destruct (body month st0) as [e|[st1 b]] eqn:Hb; cbn [bind fst snd] in Hrun |- *;
      [discriminate|].
    destruct b.
    + injection Hrun as <-.
      pose proof (loop_body_break month st0 st1 Hb Hm). lra.
    + apply IH; assumption.
Qed.

End PrepaymentFacts.

(** C10.  Let a prepayment be configured at month [k] of the term, and let
    the loop reach month [k]: the months before [k] leave a state [st] with a
    positive balance [B].  Then the schedule is the entries of these months
    followed by one terminal entry for month [k] with interest 0, principal
    [B], payment [B] plus the prepayment fee, that fee as fees and remaining
    balance 0; and [total_interest] is what it was before month [k], the sum
    of the interest of the earlier entries: no interest is charged for month
    [k], in the entry or in the totals. *)
Theorem prepayment_entry_carries_no_interest
    (principal : Q) (tenor_months : Z) (rate_structure : RateStructure.t)
    (repayment_method : string) (grace_principal_months grace_interest_months : Z)
    (fee_structure : option FeeStructure.t) (prepayment_info : option PrepaymentInfo.t)
    (scenario_bump : Q) (k : Z) (st : Loop.t) :
  0 < principal -> (1 <= k <= tenor_months)%Z ->
  prepayment_due prepayment_info k = true ->
  for_months tenor_months rate_structure repayment_method grace_principal_months
    grace_interest_months fee_structure prepayment_info scenario_bump
    (Py.range 1 k) (initial_loop principal rate_structure fee_structure scenario_bump)
  = Return st ->
  0 < Loop.remaining st ->
  let B := Loop.remaining st in
  let prepay_fee := calculate_prepayment_fee B k fee_structure in
  exists schedule,
    generate_amortization_schedule principal tenor_months rate_structure
      repayment_method grace_principal_months grace_interest_months fee_structure
      prepayment_info scenario_bump = Return schedule
    /\ AmortizationSchedule.payments schedule
       = Loop.payments st
         ++ [MonthlyPayment.mk k 0 B (B + prepay_fee) 0 prepay_fee 0
               (Loop.current_rate st) false]
    /\ AmortizationSchedule.total_interest schedule = Loop.total_interest st
    /\ AmortizationSchedule.total_interest schedule
       = Py.sum (map MonthlyPayment.interest (Loop.payments st)).
Proof.
  intros Hp Hk Hdue Hrun HB B prepay_fee.
  assert (Hnot : forall j, (j <> k)%Z -> prepayment_due prepayment_info j = false).
  { intros j Hj. unfold prepayment_due in Hdue |- *.
    destruct prepayment_info as [info|]; [|reflexivity].
    destruct (PrepaymentInfo.prepayment_month info) as [k'|]; [|reflexivity].
    apply Z.eqb_eq in Hdue. subst k'. apply Z.eqb_neq. lia. }
  unfold generate_amortization_schedule.
  replace (Py.leb principal 0 || (tenor_months <=? 0)%Z) with false.
  2:{ symmetry. apply orb_false_iff. split; [apply leb_false; exact Hp | apply Z.leb_gt; lia]. }
  destruct (run_shape tenor_months rate_structure repayment_method
              grace_principal_months grace_interest_months fee_structure
              prepayment_info scenario_bump
              (Z.to_nat (tenor_months + 1 - 1)) 1
              (initial_loop principal rate_structure fee_structure scenario_bump))
    as (st' & normal & tail & Hall & Hpay & _ & Hf & Hti & Htail);
    [reflexivity | lia | exact Hp |].
  assert (Esplit :
    for_months tenor_months rate_structure repayment_method grace_principal_months
      grace_interest_months fee_structure prepayment_info scenario_bump
      (Py.range 1 (tenor_months + 1))
      (initial_loop principal rate_structure fee_structure scenario_bump)
    = for_months tenor_months rate_structure repayment_method grace_principal_months
        grace_interest_months fee_structure prepayment_info scenario_bump
        (Py.range k (tenor_months + 1)) st).
  { rewrite (range_app 1 k (tenor_months + 1)) by lia.
    apply run_prefix; [|exact Hrun | exact HB].
    apply Forall_forall. intros j Hj. apply Hnot.
    apply range_bounds in Hj. lia. }
  rewrite Esplit in Hall |- *.
  rewrite range_cons in Hall |- * by lia. cbn [for_months] in Hall |- *.
  destruct (loop_body_step tenor_months rate_structure repayment_method
              grace_principal_months grace_interest_months fee_structure
              prepayment_info scenario_bump k st)
    as (st1 & b & mp & Hb & Hp1 & _ & _ & _ & _ & _ & Hbt & Hterm & _);
    [lia | exact HB |].
  rewrite Hb in Hall |- *. cbn [bind fst snd] in Hall |- *.
  rewrite (Hbt Hdue) in Hall |- *. injection Hall as <-.
  destruct (Hterm Hdue) as [Emp Eti].
  eexists. split; [reflexivity|].
  cbn [AmortizationSchedule.payments AmortizationSchedule.total_interest].
  assert (Efinal : mp = MonthlyPayment.mk k 0 B (B + prepay_fee) 0 prepay_fee 0
                          (Loop.current_rate st) false).
  { rewrite Emp. unfold terminal_payment, prepay_fee, calculate_prepayment_fee, B.
    destruct fee_structure; reflexivity. }
  split; [rewrite Hp1, Efinal; reflexivity|].
  split; [exact Eti|].
  cbn [initial_loop Loop.payments Loop.total_interest app] in Hpay, Hti.
  assert (En : normal = Loop.payments st).
  { rewrite Hp1 in Hpay. destruct Htail as [E|(B' & rate' & _ & E)].
    - exfalso. rewrite E, app_nil_r in Hpay. rewrite <- Hpay in Hf.
      apply Forall_app in Hf. destruct Hf as [_ Hf].
      inversion Hf as [|? ? Hm _]. rewrite Emp in Hm. cbn in Hm. congruence.
    - rewrite E in Hpay. apply app_inj_tail in Hpay. destruct Hpay as [Hpay _].
      symmetry. exact Hpay. }
  rewrite Hti, En. reflexivity.
Qed.

Lemma prepayment_entry_carries_no_interest_witness :
  exists st schedule,
    for_months 3 (RateStructure.mk 12 3 0 5) "annuity" 0 0 None
      (Some (PrepaymentInfo.mk (Some 2%Z) None false)) 0
      (Py.range 1 2) (initial_loop 1200 (RateStructure.mk 12 3 0 5) None 0)
    = Return st
    /\ generate_amortization_schedule 1200 3 (RateStructure.mk 12 3 0 5) "annuity"
         0 0 None (Some (PrepaymentInfo.mk (Some 2%Z) None false)) 0 = Return schedule
    /\ AmortizationSchedule.payments schedule
       = Loop.payments st
         ++ [MonthlyPayment.mk 2 0 (Loop.remaining st)
               (Loop.remaining st + calculate_prepayment_fee (Loop.remaining st) 2 None)
               0 (calculate_prepayment_fee (Loop.remaining st) 2 None) 0
               (Loop.current_rate st) false]
    /\ AmortizationSchedule.total_interest schedule = Loop.total_interest st.
Proof.
  eexists. 
  assert (Hrun :
    for_months 3 (RateStructure.mk 12 3 0 5) "annuity" 0 0 None
      (Some (PrepaymentInfo.mk (Some 2%Z) None false)) 0
      (Py.range 1 2) (initial_loop 1200 (RateStructure.mk 12 3 0 5) None 0)
    = Return ?[st]) by (vm_compute; reflexivity).
  destruct (prepayment_entry_carries_no_interest 1200 3 (RateStructure.mk 12 3 0 5)
              "annuity" 0 0 None (Some (PrepaymentInfo.mk (Some 2%Z) None false)) 0 2
              _ ltac:(lra) ltac:(lia) eq_refl Hrun ltac:(vm_compute; reflexivity))
    as (schedule & Hgen & Hpay & Hti & _).
  exists schedule. split; [exact Hrun|]. split; [exact Hgen|].
  split; [exact Hpay | exact Hti].
Defined.

Lemma power_above_square m n :
  0 < m -> (2 <= n)%Z -> (1 + m) * (1 + m) <= (1 + m) ^ n.
Proof.
  intros Hm Hn. replace n with (2 + (n - 2))%Z by lia.
  rewrite Qpower_plus by lra.
  assert (E2 : (1 + m) ^ 2 == (1 + m) * (1 + m)) by (cbn; field).
  assert (Hk : 1 <= (1 + m) ^ (n - 2)).
  { destruct (Z.eq_dec (n - 2) 0) as [E|N].
    - rewrite E. cbn. lra.
    - apply Qlt_le_weak. apply factor_gt_1; [exact Hm | lia]. }
  rewrite E2. set (s := (1 + m) * (1 + m)). assert (0 < s) by (unfold s; nra).
  set (p := (1 + m) ^ (n - 2)) in *. nra.
Qed.

Section PayoffFacts.

Variable tenor_months : Z.
Variable rate_structure : RateStructure.t.
Variable repayment_method : string.
Variable grace_principal_months : Z.
Variable grace_interest_months : Z.
Variable fee_structure : option FeeStructure.t.
Variable prepayment_info : option PrepaymentInfo.t.
Variable scenario_bump : Q.

Let body :=
  loop_body tenor_months rate_structure repayment_method grace_principal_months
    grace_interest_months fee_structure prepayment_info scenario_bump.

Let run :=
  for_months tenor_months rate_structure repayment_method grace_principal_months
    grace_interest_months fee_structure prepayment_info scenario_bump.

(** Before the last month the principal portion is less than the balance:
    always with equal principal, and with an annuity at a rate that
    [leaves_balance]. *)
Lemma principal_portion_left month B rate :
  (1 <= month < tenor_months)%Z -> 0 < B ->
  repayment_method = "equal_principal"%string
  \/ leaves_balance grace_interest_months month rate ->
  let interest :=
    if (month <=? grace_interest_months)%Z then 0 else B * (rate / 12) in
  exists pp pay,
    principal_and_payment tenor_months repayment_method month B interest rate
    = Return (pp, pay)
    /\ pp < B.
Proof.
  intros Hm HB Hcond interest.
  set (n := (tenor_months - month + 1)%Z).
  assert (Hn : (2 <= n)%Z) by (unfold n; lia).
  assert (Hq : 2 <= inject_Z n).
  { change 2 with (inject_Z 2). rewrite <- Zle_Qle. exact Hn. }
  assert (Hdiv : B / inject_Z n < B).
  { apply Qlt_shift_div_r; [lra | nra]. }
  assert (Hhalf : B / inject_Z n <= B / 2).
  { apply Qle_shift_div_r; [lra|].
    assert (E : B / 2 * inject_Z n == B * (inject_Z n / 2)) by (field).
    assert (1 <= inject_Z n / 2) by (apply Qle_shift_div_l; lra).
    rewrite E. set (h := inject_Z n / 2) in *. nra. }
  destruct (String.eqb repayment_method "equal_principal") eqn:Em.
  - unfold principal_and_payment. rewrite Em. fold n.
    rewrite truediv_nonzero by lra. cbn [bind].
    eexists _, _. split; [reflexivity | exact Hdiv].
  - destruct Hcond as [E|[Hlow Hgrace]].
    { rewrite E in Em. discriminate. }
    destruct (month <=? grace_interest_months)%Z eqn:Eg.
    + apply Z.leb_le in Eg. specialize (Hgrace Eg).
      unfold principal_and_payment. rewrite Em. fold n.
      rewrite annuity_payment_value. cbn [bind].
      eexists _, _. split; [reflexivity|]. unfold interest.
      destruct (annuity_value_cases B rate n HB) as [[Hr0 E]|(Hr0 & F & E)]; [lia | |].
      * lra.
      * set (v := annuity_value B rate n) in *.
        assert (Hm0 : 0 < rate / 12) by qlra.
        set (m := rate / 12) in *.
        pose proof (power_above_square m n Hm0 Hn) as Hsq.
        set (f := (1 + m) ^ n) in *.
        destruct (Qlt_le_dec (v - 0) B) as [L|L]; [exact L|].
        exfalso.
        assert (B * (f - 1) <= v * (f - 1)) by (apply Qmult_le_compat_r; lra).
        assert (Hfm : f - 1 <= m * f) by nra.
        assert (Hm1 : m < 1) by nra.
        assert ((1 + m) * (1 + m) * (1 - m) <= f * (1 - m))
          by (apply Qmult_le_compat_r; lra).
        nra.
    + unfold interest.
      destruct (Qlt_le_dec rate 0) as [Lr|Lr].
      * unfold principal_and_payment. rewrite Em. fold n.
        rewrite annuity_payment_value. cbn [bind].
        eexists _, _. split; [reflexivity|].
        destruct (annuity_value_cases B rate n HB) as [[Hr0 E]|(Hr0 & F & E)];
          [lia | | lra].
        assert (- (1 # 2) < rate / 12) by qlra.
        set (m := rate / 12) in *.
        assert (B / 2 == B * (1 # 2)) by field.
        assert (- (B * (1 # 2)) < B * m) by nra.
        lra.
      * destruct (principal_portion_partial tenor_months repayment_method month B rate
                    Hm HB Lr) as (pp & pay & Hpp & Hlt).
        exists pp, pay. split; [exact Hpp | exact Hlt].
Qed.

(** An ordinary month before the last one, under the same condition on the
    rate the loop settles on, leaves a positive balance: the loop goes on. *)
Lemma loop_body_goes_on month st :
  (1 <= month < tenor_months)%Z ->
  prepayment_due prepayment_info month = false ->
  0 < Loop.remaining st ->
  repayment_method = "equal_principal"%string
  \/ leaves_balance grace_interest_months month
       (settled_rate rate_structure scenario_bump month (Loop.current_rate st)) ->
  exists st' mp,
    body month st = Return (st', false)
    /\ Loop.payments st' = Loop.payments st ++ [mp]
    /\ Loop.remaining st' = MonthlyPayment.remaining_balance mp
    /\ 0 < Loop.remaining st'
    /\ Loop.current_rate st'
       = settled_rate rate_structure scenario_bump month (Loop.current_rate st).
Proof.
  intros Hm Hdue HB Hcond. unfold body, loop_body. rewrite Hdue. cbv zeta.
  unfold settled_rate in Hcond |- *.
  set (rate :=
         if Py.ltb 1e-10
              (Qabs (RateStructure.get_rate_for_month rate_structure month scenario_bump
                     - Loop.current_rate st))
         then RateStructure.get_rate_for_month rate_structure month scenario_bump
         else Loop.current_rate st) in *.
  set (B := Loop.remaining st) in *.
  destruct (principal_portion_left month B rate Hm HB Hcond) as (pp & pay & Hpp & Hlt).
  cbv zeta in Hpp.
  set (interest := if (month <=? grace_interest_months)%Z then 0 else B * (rate / 12))
    in *.
  assert (Hstage :
    exists pp' pay',
      (if (month <=? grace_principal_months)%Z
       then Return (0, interest)
       else principal_and_payment tenor_months repayment_method month B interest rate)
      = Return (pp', pay') /\ pp' < B).
  { destruct (month <=? grace_principal_months)%Z.
    - eexists _, _. split; [reflexivity | exact HB].
    - eexists _, _. split; [exact Hpp | exact Hlt]. }
  destruct Hstage as (pp' & pay' & Hst & Hlt').
  rewrite Hst. cbn [bind fst snd].
  assert (Hpos : 0 < Qmax 0 (B - Qmin pp' B)) by (qmm; lra).
  replace (Py.leb (Qmax 0 (B - Qmin pp' B)) 0) with false
    by (symmetry; apply leb_false; exact Hpos).
  eexists _, _. split; [reflexivity|].
  split; [reflexivity|]. cbn [Loop.remaining Loop.current_rate
    MonthlyPayment.remaining_balance].
  split; [reflexivity|]. split; [exact Hpos | reflexivity].
Qed.

(** From month [from] to a prepayment month [k] ahead, when the rates of the
    months before [k] leave part of the balance: the loop appends one
    ordinary payment for each month before [k], then the terminal entry on
    the balance entering [k]. *)
Lemma run_to_prepayment k d :
  forall from st,
    Z.to_nat (k - from) = d -> (1 <= from <= k)%Z -> (k <= tenor_months)%Z ->
    prepayment_due prepayment_info k = true ->
    (forall j, (from <= j < k)%Z -> prepayment_due prepayment_info j = false) ->
    repayment_method = "equal_principal"%string
    \/ ((forall j, (from <= j < k)%Z ->
           leaves_balance grace_interest_months j
             (RateStructure.get_rate_for_month rate_structure j scenario_bump))
        /\ ((from < k)%Z ->
            leaves_balance grace_interest_months from (Loop.current_rate st))) ->
    0 < Loop.remaining st ->
    exists st' normal rate,
      run (Py.range from (tenor_months + 1)) st = Return st'
      /\ Loop.payments st'
         = Loop.payments st ++ normal
           ++ [terminal_payment fee_structure k
                 (last (balances normal) (Loop.remaining st)) rate]
      /\ List.length normal = d.
Proof.
  induction d as [|d IH]; intros from st Hd Hfrom Hk Hdue Hnot Hcond HB.
  - assert (from = k) by lia. subst from.
    rewrite range_cons by lia. unfold run. cbn [for_months]. fold run.
    destruct (loop_body_step tenor_months rate_structure repayment_method
                grace_principal_months grace_interest_months fee_structure
                prepayment_info scenario_bump k st)
      as (st1 & b & mp & Hb & Hp & _ & _ & _ & _ & _ & Hbt & Hterm & _);
      [lia | exact HB |].
    rewrite Hb. cbn [bind fst snd]. rewrite (Hbt Hdue).
    destruct (Hterm Hdue) as [Emp _].
    exists st1, [], (Loop.current_rate st). split; [reflexivity|].
    split; [rewrite Hp, Emp; reflexivity | reflexivity].
  - rewrite range_cons by lia. unfold run. cbn [for_months]. fold run.
    assert (Hnext :
      repayment_method = "equal_principal"%string
      \/ ((forall j, (from + 1 <= j < k)%Z ->
             leaves_balance grace_interest_months j
               (RateStructure.get_rate_for_month rate_structure j scenario_bump))
          /\ leaves_balance grace_interest_months from
               (settled_rate rate_structure scenario_bump from (Loop.current_rate st))
          /\ leaves_balance grace_interest_months (from + 1)
               (settled_rate rate_structure scenario_bump from (Loop.current_rate st)))).
    { destruct Hcond as [E|[Hrates Hcur]]; [left; exact E | right].
      split; [intros j Hj; apply Hrates; lia|].
      assert (Hs : leaves_balance grace_interest_months from
                     (settled_rate rate_structure scenario_bump from
                        (Loop.current_rate st))).
      { unfold settled_rate. destruct (Py.ltb _ _); [apply Hrates | apply Hcur]; lia. }
      split; [exact Hs|]. destruct Hs as [Hlow Hgrace].
      split; [exact Hlow|]. intros Hg. apply Hgrace. lia. }
    destruct (loop_body_goes_on from st) as (st1 & mp & Hb & Hp & Hrem & Hpos & Hcur1);
      [lia | apply Hnot; lia | exact HB | |].
    { destruct Hnext as [E|(_ & Hs & _)]; [left; exact E | right; exact Hs]. }
    fold body. rewrite Hb. cbn [bind fst snd].
    destruct (IH (from + 1)%Z st1) as (st2 & normal & rate & Hrun & Hp2 & Hlen);
      [lia | lia | exact Hk | exact Hdue | intros j Hj; apply Hnot; lia | | exact Hpos |].
    { destruct Hnext as [E|(Hrates & _ & Hs)]; [left; exact E | right].
      split; [exact Hrates|]. intros _. rewrite Hcur1. exact Hs. }
    exists st2, (mp :: normal), rate. split; [exact Hrun|].
    split; [|cbn [List.length]; lia].
    rewrite Hp2, Hp, <- app_assoc. cbn [app balances map].
    fold (balances normal). rewrite last_cons_default, Hrem. reflexivity.
Qed.

End PayoffFacts.

(** C2 (amended).  For a positive principal and a prepayment at month [k] of
    the term, when the method is equal principal or the rates of the months
    before [k] leave part of the balance (above -600% a year, and in a month
    of interest grace a monthly rate [m] with [m * m + m < 1]), the schedule
    has exactly [k] entries; the last one has [remaining_balance = 0], pays
    off the whole balance [B] entering month [k] and charges the tiered
    prepayment fee on [B], whatever [is_partial] and the partial amount
    are. *)
Theorem prepayment_truncates_schedule
    (principal : Q) (tenor_months : Z) (rate_structure : RateStructure.t)
    (repayment_method : string) (grace_principal_months grace_interest_months : Z)
    (fee_structure : option FeeStructure.t)
    (prepayment_amount_vnd : option Q) (is_partial : bool)
    (scenario_bump : Q) (k : Z) :
  0 < principal -> (1 <= k <= tenor_months)%Z ->
  repayment_method = "equal_principal"%string
  \/ (forall j, (1 <= j < k)%Z ->
         leaves_balance grace_interest_months j
           (RateStructure.get_rate_for_month rate_structure j scenario_bump)) ->
  exists schedule normal final,
    generate_amortization_schedule principal tenor_months rate_structure
      repayment_method grace_principal_months grace_interest_months fee_structure
      (Some (PrepaymentInfo.mk (Some k) prepayment_amount_vnd is_partial))
      scenario_bump = Return schedule
    /\ AmortizationSchedule.payments schedule = normal ++ [final]
    /\ Z.of_nat (List.length (AmortizationSchedule.payments schedule)) = k
    /\ MonthlyPayment.month final = k
    /\ MonthlyPayment.remaining_balance final = 0
    /\ MonthlyPayment.principal final = last (balances normal) principal
    /\ MonthlyPayment.fees final
       = calculate_prepayment_fee (last (balances normal) principal) k fee_structure
    /\ MonthlyPayment.payment final
       = last (balances normal) principal + MonthlyPayment.fees final.
Proof.
  intros Hp Hk Hcond. unfold generate_amortization_schedule.
  replace (Py.leb principal 0 || (tenor_months <=? 0)%Z) with false.
  2:{ symmetry. apply orb_false_iff. split; [apply leb_false; exact Hp | apply Z.leb_gt; lia]. }
  destruct (run_to_prepayment tenor_months rate_structure repayment_method
              grace_principal_months grace_interest_months fee_structure
              (Some (PrepaymentInfo.mk (Some k) prepayment_amount_vnd is_partial))
              scenario_bump k (Z.to_nat (k - 1)) 1
              (initial_loop principal rate_structure fee_structure scenario_bump))
    as (st & normal & rate & Hrun & Hpay & Hlen).
  - reflexivity.
  - lia.
  - lia.
  - cbn. apply Z.eqb_refl.
  - intros j Hj. cbn. apply Z.eqb_neq. lia.
  - destruct Hcond as [E|Hrates]; [left; exact E | right].
    split; [exact Hrates|]. intros H1. cbn [initial_loop Loop.current_rate].
    apply Hrates. lia.
  - exact Hp.
  - rewrite Hrun. cbn [bind]. cbn [initial_loop Loop.payments Loop.remaining app] in Hpay.
    eexists _, normal, _. split; [reflexivity|].
    cbn [AmortizationSchedule.payments]. split; [exact Hpay|].
    split; [rewrite Hpay, length_app; cbn [List.length]; lia|].
    split; [reflexivity|]. split; [reflexivity|]. split; [reflexivity|].
    split; [|reflexivity].
    unfold terminal_payment, calculate_prepayment_fee.
    cbn [MonthlyPayment.fees]. destruct fee_structure; reflexivity.
Qed.

Lemma prepayment_truncates_schedule_witness :
  exists schedule normal final,
    generate_amortization_schedule 1200 6 (RateStructure.mk 12 6 0 5) "annuity"
      0 1 None (Some (PrepaymentInfo.mk (Some 3%Z) (Some 100) true)) 0 = Return schedule
    /\ AmortizationSchedule.payments schedule = normal ++ [final]
    /\ Z.of_nat (List.length (AmortizationSchedule.payments schedule)) = 3%Z
    /\ MonthlyPayment.month final = 3%Z
    /\ MonthlyPayment.remaining_balance final = 0
    /\ MonthlyPayment.principal final = last (balances normal) 1200
    /\ MonthlyPayment.fees final
       = calculate_prepayment_fee (last (balances normal) 1200) 3 None
    /\ MonthlyPayment.payment final
       = last (balances normal) 1200 + MonthlyPayment.fees final.
Proof.
  apply (prepayment_truncates_schedule 1200 6 (RateStructure.mk 12 6 0 5) "annuity"
           0 1 None (Some 100) true 0 3).
  - lra.
  - lia.
  - right. intros j Hj. unfold RateStructure.get_rate_for_month, leaves_balance.
    cbn [RateStructure.fixed_months RateStructure.fixed_rate_pct].
    replace (j <=? 6)%Z with true by (symmetry; apply Z.leb_le; lia).
    split; [reflexivity | intros _; reflexivity].
Defined.

(** C2, as stated, fails: at 1200% a year with one month of interest grace, a
    loan of 100 over 3 months with a prepayment at month 3 is paid off by the
    first instalment, and the schedule has one entry, not three. *)
Lemma early_payoff_precedes_prepayment :
  exists schedule,
    generate_amortization_schedule 100 3 (RateStructure.mk 1200 3 0 5) "annuity"
      0 1 None (Some (PrepaymentInfo.mk (Some 3%Z) None false)) 0 = Return schedule
    /\ List.length (AmortizationSchedule.payments schedule) = 1%nat
    /\ map MonthlyPayment.month (AmortizationSchedule.payments schedule) = [1%Z].
Proof.
  eexists. split; [vm_compute; reflexivity|].
  split; reflexivity.
Qed.

(** It also fails at a rate of -600% a year without any grace: the annuity
    payment of a negative rate is [remaining / n], the negative interest is
    added to the principal portion, and a loan of 100 over 2 months with a
    prepayment at month 2 is paid off by the first instalment. *)
Lemma negative_rate_pays_off_before_prepayment :
  exists schedule,
    generate_amortization_schedule 100 2 (RateStructure.mk (-600) 2 0 5) "annuity"
      0 0 None (Some (PrepaymentInfo.mk (Some 2%Z) None false)) 0 = Return schedule
    /\ map MonthlyPayment.month (AmortizationSchedule.payments schedule) = [1%Z]
    /\ balances (AmortizationSchedule.payments schedule) = [0].
Proof.
  eexists. split; [vm_compute; reflexivity|].
  split; reflexivity.
Qed.

(** ** The IRR solver *)

Section IRRFacts.

Variable cashflows : list Q.
Variable tolerance : Q.

(** With [1 + rate > 0] no discount factor is zero: the inner loop returns. *)
Lemma npv_and_derivative_returns rate items :
  0 < 1 + rate ->
  forall acc, exists nd, npv_and_derivative rate items acc = Return nd.
Proof.
  intros Hr. induction items as [|[t cf] rest IH]; intros acc.
  - exists acc. reflexivity.
  - cbn [npv_and_derivative].
    rewrite truediv_nonzero
      by (pose proof (Qpower_0_lt (1 + rate) t Hr); lra).
    cbn [bind]. destruct (0 <? t)%Z.
    + rewrite truediv_nonzero
        by (pose proof (Qpower_0_lt (1 + rate) (t + 1) Hr); lra).
      cbn [bind]. apply IH.
    + cbn [bind]. apply IH.
Qed.

(** One Newton-Raphson pass from a rate in [-0.5, 1.0] returns, and the rate
    it hands on is again in [-0.5, 1.0]. *)
Lemma newton_iteration_clamped rate :
  -0.5 <= rate <= 1.0 ->
  exists it,
    newton_iteration cashflows tolerance rate = Return it
    /\ match it with
       | Underflow => True
       | Converged new_rate | Next new_rate => -0.5 <= new_rate <= 1.0
       end.
Proof.
  intros Hr. unfold newton_iteration.
  destruct (npv_and_derivative_returns rate (Py.enumerate cashflows)) with (acc := (0, 0))
    as [nd Hnd]; [lra|].
  rewrite Hnd. cbn [bind].
  destruct (Py.ltb (Qabs (snd nd)) 1e-20) eqn:U.
  - exists Underflow. split; [reflexivity | exact I].
  - apply ltb_false in U.
    rewrite truediv_nonzero.
    2:{ intros E. rewrite E in U. change (Qabs 0) with 0 in U. qconst. lra. }
    cbn [bind].
    destruct (Py.ltb _ tolerance); eexists; (split; [reflexivity|]);
      cbv beta iota; qmm; lra.
Qed.

(** The loop returns a rate in [-0.5, 1.0] whatever its budget. *)
Lemma newton_loop_clamped iterations :
  forall rate,
    -0.5 <= rate <= 1.0 ->
    exists r, newton_loop cashflows tolerance iterations rate = Return r
              /\ -0.5 <= r <= 1.0.
Proof.
  induction iterations as [|n IH]; intros rate Hr.
  - exists rate. split; [reflexivity | exact Hr].
  - cbn [newton_loop].
    destruct (newton_iteration_clamped rate Hr) as (it & Hit & Hb).
    rewrite Hit. cbn [bind]. destruct it as [|r'|r'].
    + exists rate. split; [reflexivity | exact Hr].
    + exists r'. split; [reflexivity | exact Hb].
    + apply IH. exact Hb.
Qed.

End IRRFacts.

(** The powers of a base in [1/2, 2] with an exponent up to 1023 stay
    within [2^-1023, 2^1023], inside the range of a double. *)
Lemma power_in_double_range x k :
  (1 # 2) <= x <= 2 -> (0 <= k <= 1023)%Z ->
  (1 # 2) ^ 1023 <= x ^ k <= 2 ^ 1023.
Proof.
  intros Hx Hk.
  assert (Hup : x ^ k <= 2 ^ k).
  { rewrite <- (Z2Nat.id k) by lia. apply power_base_order; lra. }
  assert (Hlow : (1 # 2) ^ k <= x ^ k).
  { rewrite <- (Z2Nat.id k) by lia. apply power_base_order; lra. }
  assert (H2 : 2 ^ k <= 2 ^ 1023) by (apply Qpower_le_compat_l; [lia | lra]).
  assert (Hh : (1 # 2) ^ 1023 <= (1 # 2) ^ k).
  { replace 1023%Z with (k + (1023 - k))%Z at 1 by lia.
    rewrite Qpower_plus by lra.
    assert (0 < (1 # 2) ^ k) by (apply Qpower_0_lt; lra).
    assert ((1 # 2) ^ (1023 - k) <= 1).
    { rewrite <- (Qpower_1 (1023 - k)).
      rewrite <- (Z2Nat.id (1023 - k)) by lia. apply power_base_order; lra. }
    set (a := (1 # 2) ^ k) in *. set (b := (1 # 2) ^ (1023 - k)) in *. nra. }
  set (lo := (1 # 2) ^ 1023) in *. set (hi := 2 ^ 1023) in *.
  split; lra.
Qed.

Lemma enumerate_bounds {A : Type} (xs : list A) t x :
  In (t, x) (Py.enumerate xs) -> (0 <= t < Z.of_nat (List.length xs))%Z.
Proof.
  unfold Py.enumerate. intros H. apply in_combine_l in H.
  apply in_map_iff in H. destruct H as (i & <- & Hi). apply in_seq in Hi. lia.
Qed.

(** In exact arithmetic [calculate_irr] returns a rate in [-0.5, 1.0]. *)
Lemma calculate_irr_returns_clamped (cashflows : list Q) :
  exists r, calculate_irr cashflows = Return r /\ -0.5 <= r <= 1.0.
Proof.
  unfold calculate_irr, calculate_irr_with.
  destruct (List.length cashflows <? 2)%nat.
  - exists 0. split; [reflexivity | lra].
  - apply newton_loop_clamped. lra.
Qed.


Section LongCashflows.

Import PrimFloat.
Local Open Scope float_scope.


End LongCashflows.

(** ** The eligibility filter *)

Lemma append_if_app c code l : append_if c code l = l ++ append_if c code [].
Proof. unfold append_if. destruct c; [reflexivity | rewrite app_nil_r; reflexivity]. Qed.

Section HardFilterFacts.

Variable application : Application.t.
Variable metrics : Metrics.t.
Variable product : LoanProduct.t.
Variable user_input : UserInput.t.
Variable effective_tenor : Z.

(** Every check only appends: what it does to a list is what it does to the
    empty list, appended. *)
Ltac appends :=
  repeat match goal with
         | |- context [match ?x with _ => _ end] => destruct x
         end;
  try rewrite app_nil_r; try reflexivity;
  try (rewrite append_if_app; reflexivity).

Lemma check_purpose_appends l :
  check_purpose application product l = l ++ check_purpose application product [].
Proof. unfold check_purpose. appends. Qed.

Lemma check_term_bounds_appends l :
  check_term_bounds product effective_tenor l
  = l ++ check_term_bounds product effective_tenor [].
Proof.
  unfold check_term_bounds. cbv zeta.
  destruct (truthyZ (LoanProduct.min_term_months product));
    destruct (truthyZ (LoanProduct.max_term_months product));
    try rewrite app_nil_r; try reflexivity;
    try (rewrite append_if_app; reflexivity).
  rewrite append_if_app, (append_if_app _ _ l),
    (append_if_app _ _ (append_if _ "TENOR_TOO_SHORT" [])), app_assoc.
  reflexivity.
Qed.

Lemma check_ltv_appends l :
  check_ltv application product user_input l
  = l ++ check_ltv application product user_input [].
Proof. unfold check_ltv. cbv zeta. appends. Qed.

Lemma check_loan_amount_bounds_appends l :
  check_loan_amount_bounds application product l
  = l ++ check_loan_amount_bounds application product [].
Proof.
  unfold check_loan_amount_bounds. cbv zeta.
  destruct (truthyQ (LoanProduct.min_loan_amount product));
    destruct (truthyQ (LoanProduct.max_loan_amount product));
    try rewrite app_nil_r; try reflexivity;
    try (rewrite append_if_app; reflexivity).
  rewrite append_if_app, (append_if_app _ _ l),
    (append_if_app _ _ (append_if _ "LOAN_AMOUNT_TOO_LOW" [])), app_assoc.
  reflexivity.
Qed.

Lemma check_income_type_appends l :
  check_income_type application product l
  = l ++ check_income_type application product [].
Proof. unfold check_income_type. appends. Qed.

Lemma check_min_income_appends l :
  check_min_income metrics product l = l ++ check_min_income metrics product [].
Proof. unfold check_min_income. appends. Qed.

Lemma check_collateral_type_appends l :
  check_collateral_type application product l
  = l ++ check_collateral_type application product [].
Proof. unfold check_collateral_type. appends. Qed.

Lemma check_geo_appends l :
  check_geo application product l = l ++ check_geo application product [].
Proof. unfold check_geo. appends. Qed.

Lemma check_dsr_appends l :
  check_dsr metrics product l = l ++ check_dsr metrics product [].
Proof. unfold check_dsr. appends. Qed.

End HardFilterFacts.

(** C7.  The filter returns [passes = true] exactly when its list of
    rejection reasons is empty.  When the product's [min_income_vnd] is
    15,000,000, the applicant's [total_income] is 10,000,000 and no other
    check appends a reason, the candidate is rejected and the list is
    ["INCOME_BELOW_MIN"], so the primary reason is INCOME_BELOW_MIN. *)
Theorem hard_filter_passes_iff_no_reason
    (application : Application.t) (metrics : Metrics.t) (product : LoanProduct.t)
    (user_input : UserInput.t) (effective_tenor : Z) :
  let result :=
    _apply_hard_filters_with_tenor application metrics product user_input
      effective_tenor in
  (fst result = true <-> snd result = [])
  /\ (LoanProduct.min_income_vnd product = Some 15000000 ->
      Metrics.total_income metrics = Some 10000000 ->
      check_purpose application product [] = [] ->
      check_term_bounds product effective_tenor [] = [] ->
      check_ltv application product user_input [] = [] ->
      check_loan_amount_bounds application product [] = [] ->
      check_income_type application product [] = [] ->
      check_collateral_type application product [] = [] ->
      check_geo application product [] = [] ->
      check_dsr metrics product [] = [] ->
      result = (false, ["INCOME_BELOW_MIN"%string])
      /\ hd_error (snd result) = Some "INCOME_BELOW_MIN"%string).
Proof.
  intros result. split.
  - unfold result, _apply_hard_filters_with_tenor. cbv zeta. cbn [fst snd].
    destruct (check_dsr _ _ _) as [|r rs]; cbn; split; intros H;
      try reflexivity; discriminate.
  - intros Hmin Hinc H1 H2 H3 H4 H5 H6 H7 H8.
    assert (E : result = (false, ["INCOME_BELOW_MIN"%string])).
    { unfold result, _apply_hard_filters_with_tenor. cbv zeta.
      rewrite H1, H2, H3, H4, H5.
      assert (Hc : check_min_income metrics product [] = ["INCOME_BELOW_MIN"%string]).
      { unfold check_min_income. rewrite Hmin, Hinc. reflexivity. }
      rewrite Hc, check_collateral_type_appends, H6, app_nil_r.
      rewrite check_geo_appends, H7, app_nil_r.
      rewrite check_dsr_appends, H8, app_nil_r. reflexivity. }
    split; [exact E | rewrite E; reflexivity].
Qed.

Lemma hard_filter_passes_iff_no_reason_witness :
  _apply_hard_filters_with_tenor sample_application sample_metrics sample_product
    sample_user_input 180
  = (false, ["INCOME_BELOW_MIN"%string]).
Proof.
  apply (hard_filter_passes_iff_no_reason sample_application sample_metrics
           sample_product sample_user_input 180); reflexivity.
Defined.

(** ** Score ranges *)

Lemma clamp_0_100_bounds x : 0 <= clamp_0_100 x <= 100.
Proof. unfold clamp_0_100. qmm. lra. Qed.

Lemma clamp_0_100_top x : 100 <= x -> clamp_0_100 x == 100.
Proof. intros H. unfold clamp_0_100. qmm. lra. Qed.

(** C4 fails for the stability score, which has no clamp: its two components
    are weighted [1 - 0.3 p] and [0.3 p + 0.35], which add up to 1.35.  For a
    product with a fixed period of 24 months or more and a +4% payment that
    does not exceed the base payment, [_calculate_stability_score] returns
    135, outside [0, 100], whatever the preference [p]. *)
Lemma stability_score_is_135 product base stress user_input fixed :
  LoanProduct.rate_fixed_months product = Some fixed -> (24 <= fixed)%Z ->
  LoanProduct.rate_model product = None ->
  0 < LoanCostSummary.monthly_payment_first_12m base ->
  LoanCostSummary.monthly_payment_post_promo stress
  <= LoanCostSummary.monthly_payment_first_12m base ->
  exists score,
    _calculate_stability_score product (Some base) (Some stress) user_input
    = Return score
    /\ score == 135.
Proof.
  intros Hfix H24 Hrm Hpos Hle. unfold _calculate_stability_score.
  rewrite (proj2 (ltb_true _ _) Hpos), Hrm, Hfix.
  rewrite truediv_nonzero by lra. cbn [bind].
  eexists. split; [reflexivity|].
  set (first := LoanCostSummary.monthly_payment_first_12m base) in *.
  set (post := LoanCostSummary.monthly_payment_post_promo stress) in *.
  assert (Hv : (post - first) / first <= 0).
  { apply Qle_shift_div_r; [exact Hpos | lra]. }
  assert (E1 : clamp_0_100 (100 - (post - first) / first * 500) == 100)
    by (apply clamp_0_100_top; lra).
  assert (Hm : orZ (Some fixed) 0 = fixed).
  { unfold orZ, truthyZ. destruct (fixed =? 0)%Z eqn:Z0; [|reflexivity].
    apply Z.eqb_eq in Z0. lia. }
  rewrite Hm.
  assert (E2 : Qmin 100 (inject_Z fixed * (100 / 24)) == 100).
  { apply Q.min_l. assert (24 <= inject_Z fixed).
    { change 24 with (inject_Z 24). rewrite <- Zle_Qle. exact H24. }
    change (100 / 24) with (100 # 24). lra. }
  rewrite E1, E2.
  set (p := getQ (UserInput.priority_cost_vs_stability user_input) 50).
  qconst. lra.
Qed.

Lemma stability_score_is_135_witness :
  exists score,
    _calculate_stability_score quick_product
      (Some (LoanCostSummary.mk 0 0 0 0 0 0 100 100 0))
      (Some (LoanCostSummary.mk 0 0 0 0 0 0 100 100 0))
      (UserInput.mk None None)
    = Return score
    /\ score == 135.
Proof.
  apply (stability_score_is_135 quick_product _ _ _ 24);
    [reflexivity | lia | reflexivity | cbn; lra | cbn; lra].
Defined.

(** The same through the whole engine: the one product recommended to the
    quick borrower carries a stability score of 135. *)
Lemma quick_recommendation_stability :
  exists response rec,
    generate_recommendations 0 (quick_application None) [quick_product]
    = Return response
    /\ RecommendationResponse.top response = [rec]
    /\ RecommendationResponse.rejected response = []
    /\ Scores.stability (ProductRecommendation.scores rec) == 135.
Proof.
  eexists. eexists. split; [vm_compute; reflexivity|].
  split; [reflexivity|]. split; [reflexivity|]. vm_compute. reflexivity.
Qed.

(** ** The run date *)

Lemma bind_ext {A B : Type} (c : exc A) (k k' : A -> exc B) :
  (forall a, k a = k' a) -> bind c k = bind c k'.
Proof. intros H. destruct c; [reflexivity | apply H]. Qed.

Lemma same_outcome_bind {A A' B B' : Type} (R : A -> A' -> Prop) (S : B -> B' -> Prop)
    (c : exc A) (c' : exc A') (k : A -> exc B) (k' : A' -> exc B') :
  same_outcome R c c' ->
  (forall a a', R a a' -> same_outcome S (k a) (k' a')) ->
  same_outcome S (bind c k) (bind c' k').
Proof.
  intros Hc Hk. destruct c as [e|a], c' as [e'|a']; cbn in *;
    [exact Hc | contradiction | contradiction | apply Hk; exact Hc].
Qed.

Lemma same_outcome_refl {A : Type} (R : A -> A -> Prop) (c : exc A) :
  (forall a, R a a) -> same_outcome R c c.
Proof. intros H. destruct c; cbn; [reflexivity | apply H]. Qed.

(** Without a deadline the speed score does not read the date. *)
Lemma speed_score_no_deadline today today' product application :
  Application.need_disbursement_by_date application = None ->
  _calculate_speed_score today product application
  = _calculate_speed_score today' product application.
Proof. intros H. unfold _calculate_speed_score. rewrite H. reflexivity. Qed.

(** The speed score never raises: the one division is guarded by
    [days_until_needed > 0]. *)
Lemma speed_score_returns today product application :
  exists score, _calculate_speed_score today product application = Return score.
Proof.
  unfold _calculate_speed_score. cbv zeta.
  destruct (Application.need_disbursement_by_date application) as [need_by|];
    [|eexists; reflexivity].
  match goal with |- context [(?s <=? _)%Z] => set (sla_days := s) end.
  destruct (sla_days <=? need_by - today)%Z; [|eexists; reflexivity].
  destruct (0 <? need_by - today)%Z eqn:D; [|eexists; reflexivity].
  apply Z.ltb_lt in D.
  rewrite truediv_nonzero.
  - eexists. reflexivity.
  - intros E. assert (0 < inject_Z (need_by - today)) by (apply inject_Z_pos; lia). lra.
Qed.

Lemma multi_factor_score_no_deadline today today' product application metrics
    user_input scenarios :
  Application.need_disbursement_by_date application = None ->
  _calculate_multi_factor_score today product application metrics user_input scenarios
  = _calculate_multi_factor_score today' product application metrics user_input scenarios.
Proof.
  intros H. unfold _calculate_multi_factor_score.
  rewrite (speed_score_no_deadline today today' product application H). reflexivity.
Qed.

Lemma for_products_no_deadline today today' application metrics user_input products :
  Application.need_disbursement_by_date application = None ->
  forall ranked rejected,
    for_products today application metrics user_input products ranked rejected
    = for_products today' application metrics user_input products ranked rejected.
Proof.
  intros H. induction products as [|product rest IH]; intros ranked rejected.
  - reflexivity.
  - cbn [for_products]. cbv zeta.
    destruct (negb (fst (_apply_hard_filters_with_tenor application metrics product
                           user_input _))); [apply IH|].
    unfold score_product.
    match goal with
    | |- bind (bind ?c ?k) ?f = bind (bind ?c ?k') ?f' =>
        replace (bind c k') with (bind c k)
    end.
    + apply bind_ext. intros scores. apply IH.
    + apply bind_ext. intros scenarios.
      rewrite (multi_factor_score_no_deadline today today' _ _ _ _ _ H). reflexivity.
Qed.

(** Whatever the base scores, the strategy adjustment ends the same way. *)
Lemma strategy_adjusted_score_outcome base_scores base_scores' application product
    scenarios :
  same_outcome (fun _ _ => True)
    (_calculate_strategy_adjusted_score base_scores application product scenarios)
    (_calculate_strategy_adjusted_score base_scores' application product scenarios).
Proof.
  unfold _calculate_strategy_adjusted_score.
  destruct (Application.repayment_strategy application) as [[]|]; cbn; try exact I.
  destruct (_calculate_long_hold_stability_score product _ _); cbn;
    [reflexivity | exact I].
Qed.

Lemma multi_factor_score_outcome today today' product application metrics
    user_input scenarios :
  same_outcome (fun _ _ => True)
    (_calculate_multi_factor_score today product application metrics user_input scenarios)
    (_calculate_multi_factor_score today' product application metrics user_input scenarios).
Proof.
  unfold _calculate_multi_factor_score.
  destruct (_calculate_cost_score _ _); [reflexivity|]. cbn [bind].
  destruct (_calculate_stability_score _ _ _ _); [reflexivity|]. cbn [bind].
  destruct (_calculate_approval_score _ _ _); [reflexivity|]. cbn [bind].
  destruct (speed_score_returns today product application) as [s ->].
  destruct (speed_score_returns today' product application) as [s' ->].
  cbn [bind].
  destruct (_calculate_penalties_score _ _ _); [reflexivity | exact I].
Qed.

Lemma score_product_outcome today today' application metrics user_input product
    effective_tenor :
  same_outcome (fun _ _ => True)
    (score_product today application metrics user_input product effective_tenor)
    (score_product today' application metrics user_input product effective_tenor).
Proof.
  unfold score_product. cbv zeta.
  destruct (stress_test_scenarios _ _ _ _ _ _ _ _) as [e|scenarios]; [reflexivity|].
  cbn [bind].
  apply (same_outcome_bind (fun _ _ => True)).
  - apply multi_factor_score_outcome.
  - intros b b' _. apply strategy_adjusted_score_outcome.
Qed.

Lemma for_products_rejections today today' application metrics user_input products :
  forall ranked ranked' rejected,
    same_outcome (fun r r' => snd r = snd r')
      (for_products today application metrics user_input products ranked rejected)
      (for_products today' application metrics user_input products ranked' rejected).
Proof.
  induction products as [|product rest IH]; intros ranked ranked' rejected.
  - reflexivity.
  - cbn [for_products]. cbv zeta.
    destruct (negb (fst (_apply_hard_filters_with_tenor application metrics product
                           user_input _))); [apply IH|].
    apply (same_outcome_bind (fun _ _ => True)).
    + apply score_product_outcome.
    + intros s s' _. apply IH.
Qed.

(** C8 (amended).  Two runs on the same application and catalogue, on the
    days [today] and [today'], end the same way and reject the same products
    for the same reasons; when the application has no
    [need_disbursement_by_date] they give the same response, ranked scores
    included. *)
Theorem runs_agree_up_to_the_deadline (today today' : Z)
    (application : Application.t) (products : list LoanProduct.t) :
  same_outcome
    (fun r r' => RecommendationResponse.rejected r = RecommendationResponse.rejected r')
    (generate_recommendations today application products)
    (generate_recommendations today' application products)
  /\ (Application.need_disbursement_by_date application = None ->
      generate_recommendations today application products
      = generate_recommendations today' application products).
Proof.
  unfold generate_recommendations. split.
  - destruct (calculate_application_metrics application) as [e|metrics];
      [reflexivity|]. cbn [bind].
    apply (same_outcome_bind (fun r r' => snd r = snd r')).
    + apply for_products_rejections.
    + intros r r' H. cbn. exact H.
  - intros H. apply bind_ext. intros metrics.
    rewrite (for_products_no_deadline today today' _ _ _ _ H). reflexivity.
Qed.

Lemma runs_agree_up_to_the_deadline_witness :
  generate_recommendations 0 (quick_application None) [quick_product]
  = generate_recommendations 90 (quick_application None) [quick_product].
Proof.
  apply (runs_agree_up_to_the_deadline 0 90 (quick_application None) [quick_product]).
  reflexivity.
Defined.

(** C8, as stated, fails: the speed score reads the current date.  The quick
    borrower needs the money by day 100; the product takes 15 days.  Run on
    day 0 the speed score is 97, run on day 90 it is 25, and the ranked total
    differs. *)
Lemma ranked_scores_follow_the_run_date :
  exists r r' rec rec',
    generate_recommendations 0 (quick_application (Some 100%Z)) [quick_product]
    = Return r
    /\ generate_recommendations 90 (quick_application (Some 100%Z)) [quick_product]
       = Return r'
    /\ RecommendationResponse.top r = [rec]
    /\ RecommendationResponse.top r' = [rec']
    /\ Scores.speed (ProductRecommendation.scores rec) == 97
    /\ Scores.speed (ProductRecommendation.scores rec') == 25
    /\ ~ Scores.total (ProductRecommendation.scores rec)
         == Scores.total (ProductRecommendation.scores rec').
Proof.
  eexists. eexists. eexists. eexists.
  split; [vm_compute; reflexivity|].
  split; [vm_compute; reflexivity|].
  split; [reflexivity|]. split; [reflexivity|].
  split; [vm_compute; reflexivity|].
  split; [vm_compute; reflexivity|].
  intros H. vm_compute in H. discriminate.
Qed.

(** ** The cashflows behind the APR *)

Lemma npv_is_present_value rate items :
  forall acc nd,
    npv_and_derivative rate items acc = Return nd ->
    fst nd == fst acc + present_value rate items.
Proof.
  induction items as [|[t cf] rest IH]; intros acc nd H.
  - cbn in H. injection H as <-. cbn. lra.
  - cbn [npv_and_derivative] in H. unfold truediv at 1 in H.
    destruct (Qeq_bool ((1 + rate) ^ t) 0); [discriminate|]. cbn [bind] in H.
    destruct (0 <? t)%Z.
    + destruct (_ // _) as [e|dterm]; [discriminate|]. cbn [bind] in H.
      apply IH in H. cbn [fst] in H. cbn [present_value]. lra.
    + cbn [bind] in H. apply IH in H. cbn [fst] in H. cbn [present_value]. lra.
Qed.

Lemma monthly_insurance_not_negative balance fs :
  0 <= balance -> 0 <= _calculate_monthly_insurance balance fs.
Proof.
  intros HB. unfold _calculate_monthly_insurance.
  destruct (Py.ltb 0 (FeeStructure.insurance_vnd fs)) eqn:V.
  - apply ltb_true in V. qlra.
  - destruct (Py.ltb 0 (FeeStructure.insurance_annual_pct fs)) eqn:A; [|lra].
    apply ltb_true in A.
    destruct (String.eqb _ _ && Py.ltb 0 (FeeStructure.property_value_vnd fs)) eqn:P.
    + apply andb_true_iff in P. destruct P as [_ P]. apply ltb_true in P.
      qconst. nra.
    + qconst. nra.
Qed.

Lemma principal_and_payment_sum tenor_months repayment_method month B interest rate pp pay :
  principal_and_payment tenor_months repayment_method month B interest rate
  = Return (pp, pay) ->
  pay == pp + interest.
Proof.
  unfold principal_and_payment.
  destruct (String.eqb repayment_method "equal_principal").
  - destruct (_ // _) as [e|v]; [discriminate|]. cbn [bind].
    intros H. injection H as <- <-. reflexivity.
  - destruct (annuity_payment _ _ _) as [e|v]; [discriminate|]. cbn [bind].
    intros H. injection H as <- <-. lra.
Qed.

Section FixedRateFacts.

Variable tenor_months : Z.
Variable rate_structure : RateStructure.t.
Variable repayment_method : string.
Variable grace_principal_months : Z.
Variable fee_structure : option FeeStructure.t.
Variable scenario_bump : Q.

Hypothesis fixed_for_the_term : (tenor_months <= RateStructure.fixed_months rate_structure)%Z.
Hypothesis fee_not_negative : monthly_fee_not_negative fee_structure.

Let nominal := RateStructure.fixed_rate_pct rate_structure / 100.

Let body :=
  loop_body tenor_months rate_structure repayment_method grace_principal_months
    0 fee_structure None scenario_bump.

Let run :=
  for_months tenor_months rate_structure repayment_method grace_principal_months
    0 fee_structure None scenario_bump.

(** A month of a fixed-rate loan without interest grace or prepayment: the
    payment covers the month's interest and the reduction of the balance. *)
Lemma loop_body_fixed_rate month st :
  (1 <= month <= tenor_months)%Z -> 0 < Loop.remaining st ->
  Loop.current_rate st == nominal ->
  exists st' b mp,
    body month st = Return (st', b)
    /\ Loop.payments st' = Loop.payments st ++ [mp]
    /\ Loop.current_rate st' == nominal
    /\ Loop.remaining st * (1 + nominal / 12)
       <= MonthlyPayment.payment mp + MonthlyPayment.remaining_balance mp
    /\ 0 <= MonthlyPayment.fees mp
    /\ 0 <= MonthlyPayment.insurance mp.
Proof.
  intros Hm HB Hcur. unfold body, loop_body. cbn [prepayment_due]. cbv zeta.
  assert (Enew : RateStructure.get_rate_for_month rate_structure month scenario_bump
                 = nominal).
  { unfold RateStructure.get_rate_for_month.
    replace (month <=? RateStructure.fixed_months rate_structure)%Z with true
      by (symmetry; apply Z.leb_le; lia).
    reflexivity. }
  rewrite Enew.
  replace (Py.ltb 1e-10 (Qabs (nominal - Loop.current_rate st))) with false.
  2:{ symmetry. apply ltb_false. apply Qabs_case; intros; qlra. }
  set (B := Loop.remaining st) in *. set (rate := Loop.current_rate st) in *.
  replace (month <=? 0)%Z with false by (symmetry; apply Z.leb_gt; lia).
  destruct (principal_portion_bounds tenor_months repayment_method month B rate false Hm HB)
    as (pp & pay & Hpp & Hpos & _).
  cbv zeta in Hpp.
  pose proof (principal_and_payment_sum _ _ _ _ _ _ _ _ Hpp) as Hsum.
  assert (Hstage :
    exists pp' pay',
      (if (month <=? grace_principal_months)%Z
       then Return (0, B * (rate / 12))
       else principal_and_payment tenor_months repayment_method month B
              (B * (rate / 12)) rate)
      = Return (pp', pay')
      /\ 0 <= pp' /\ pay' == pp' + B * (rate / 12)).
  { destruct (month <=? grace_principal_months)%Z.
    - eexists _, _. split; [reflexivity|]. split; lra.
    - eexists _, _. split; [exact Hpp|]. split; [exact Hpos | exact Hsum]. }
  destruct Hstage as (pp' & pay' & Hst & Hpos' & Hsum').
  rewrite Hst. cbn [bind fst snd orb].
  eexists _, _, _. split; [reflexivity|].
  split; [reflexivity|].
  cbn [Loop.payments Loop.remaining Loop.current_rate MonthlyPayment.payment
       MonthlyPayment.remaining_balance MonthlyPayment.fees MonthlyPayment.insurance].
  split; [exact Hcur|].
  assert (Ei : B * (rate / 12) == B * (nominal / 12)) by (rewrite Hcur; reflexivity).
  split.
  { rewrite Hsum', Ei. qmm. lra. }
  split.
  { unfold monthly_fee_not_negative in fee_not_negative.
    destruct fee_structure; [exact fee_not_negative | lra]. }
  destruct fee_structure as [fs|]; [|lra].
  apply monthly_insurance_not_negative. qmm. lra.
Qed.

(** The loop of a fixed-rate loan from month [from] on: the entries it
    appends pay down the balance at the nominal monthly rate. *)
Lemma run_pays_down n :
  forall from st,
    Z.to_nat (tenor_months + 1 - from) = n -> (1 <= from)%Z ->
    0 < Loop.remaining st -> Loop.current_rate st == nominal ->
    exists st' entries,
      run (Py.range from (tenor_months + 1)) st = Return st'
      /\ Loop.payments st' = Loop.payments st ++ entries
      /\ pays_down (nominal / 12) (Loop.remaining st) entries.
Proof.
  induction n as [|n IH]; intros from st Hn Hfrom HB Hcur.
  - rewrite range_nil by lia. exists st, []. cbn.
    split; [reflexivity|]. split; [rewrite app_nil_r; reflexivity | exact I].
  - rewrite range_cons by lia. unfold run. cbn [for_months]. fold run.
    destruct (loop_body_fixed_rate from st) as (st1 & b & mp & Hb & Hp & Hc1 & Hpay & Hfee & Hins);
      [lia | exact HB | exact Hcur |].
    destruct (loop_body_step tenor_months rate_structure repayment_method
                grace_principal_months 0 fee_structure None scenario_bump from st)
      as (st1' & b' & mp' & Hb' & Hp' & _ & Hr & _ & Hc & _); [lia | exact HB |].
    fold body in Hb'. rewrite Hb in Hb'. injection Hb' as <- <-.
    rewrite Hp in Hp'. apply app_inj_tail in Hp'. destruct Hp' as [_ <-].
    fold body. rewrite Hb. cbn [bind fst snd].
    destruct b.
    + exists st1, [mp]. split; [reflexivity|]. split; [exact Hp|].
      cbn [pays_down]. repeat split; try assumption; lra.
    + destruct (Hc eq_refl) as [Hrem Hpos].
      destruct (IH (from + 1)%Z st1) as (st2 & entries & Hrun & Hp2 & Hd);
        [lia | lia | exact Hpos | exact Hc1 |].
      exists st2, (mp :: entries). split; [exact Hrun|].
      split; [rewrite Hp2, Hp, <- app_assoc; reflexivity|].
      rewrite Hrem in Hd. cbn [pays_down].
      repeat split; try assumption; lra.
Qed.

End FixedRateFacts.

(** Discounted at a rate up to [m], the payments of entries that pay a
    balance [B] down to zero at the rate [m] are worth at least [B]. *)
Lemma pays_down_present_value r m :
  -1 < r -> r <= m ->
  forall entries B k cs,
    pays_down m B entries ->
    Forall2 (fun c p => c <= - MonthlyPayment.payment p) cs entries ->
    last (balances entries) B == 0 ->
    present_value r (combine (map Z.of_nat (seq (S k) (List.length cs))) cs)
    <= - (B / (1 + r) ^ Z.of_nat k).
Proof.
  intros Hr Hm. induction entries as [|p rest IH]; intros B k cs Hd Hf Hl.
  - inversion Hf; subst. cbn in Hl |- *. unfold Qdiv. rewrite Hl. lra.
  - inversion Hf as [|c p' cs' rest' Hc Hf']; subst.
    destruct Hd as (HB & Hpay & _ & _ & Hd).
    cbn [balances map] in Hl. fold (balances rest) in Hl.
    rewrite last_cons_default in Hl.
    specialize (IH _ (S k) cs' Hd Hf' Hl).
    cbn [List.length seq map combine present_value].
    set (tail := present_value r _) in *.
    assert (HX : 0 < (1 + r) ^ Z.of_nat k) by (apply Qpower_0_lt; lra).
    pose proof (power_succ (1 + r) k ltac:(lra)) as HP.
    set (X := (1 + r) ^ Z.of_nat k) in *.
    set (P := (1 + r) ^ Z.of_nat (S k)) in *.
    assert (HPpos : 0 < P) by (rewrite HP; apply Qmult_lt_0_compat; lra).
    set (B' := MonthlyPayment.remaining_balance p) in *.
    assert (Hstep : c - B' <= - (B * (1 + r))).
    { assert (B * r <= B * m) by nra. lra. }
    assert (E : B / X == B * (1 + r) / P).
    { rewrite HP. field. lra. }
    assert (Hdiv : (c - B') / P <= - (B * (1 + r)) / P).
    { apply Qmult_le_compat_r; [exact Hstep|]. apply Qlt_le_weak, Qinv_lt_0_compat, HPpos. }
    rewrite E. unfold Qdiv in *. lra.
Qed.

Lemma pays_down_cashflows m prepayment_fee (L : Z) :
  0 <= prepayment_fee ->
  forall entries B k,
    pays_down m B entries ->
    Forall2 (fun c p => c <= - MonthlyPayment.payment p)
      (map (fun ip : Z * MonthlyPayment.t =>
              let payment := snd ip in
              let total_payment :=
                MonthlyPayment.payment payment + MonthlyPayment.fees payment
                + MonthlyPayment.insurance payment in
              let total_payment :=
                if (fst ip =? L)%Z
                then total_payment + prepayment_fee else total_payment in
              - total_payment)
         (combine (map Z.of_nat (seq k (List.length entries))) entries))
      entries.
Proof.
  intros Hf. induction entries as [|p rest IH]; intros B k Hd.
  - constructor.
  - destruct Hd as (_ & _ & Hfee & Hins & Hd).
    cbn [List.length seq map combine]. constructor; [|apply (IH _ _ Hd)].
    cbn [fst snd]. destruct (Z.of_nat k =? L)%Z; lra.
Qed.

Lemma last_default_irrelevant (xs : list Q) d d' : xs <> [] -> last xs d = last xs d'.
Proof.
  destruct xs as [|a xs]; [congruence|]. intros _.
  rewrite !last_cons_default. reflexivity.
Qed.

(** For a fixed-rate loan of a positive principal, without prepayment or
    interest grace, whose principal grace ends before the last month and
    whose monthly fee is not negative: the cashflows [calculate_apr] hands to
    the solver are worth at most [- upfront_fees] at every monthly rate from
    above -100% up to the nominal monthly rate. *)
Lemma cashflows_worth_less_than_fees
    (principal : Q) (tenor_months : Z) (rate_structure : RateStructure.t)
    (repayment_method : string) (grace_principal_months : Z)
    (fee_structure : option FeeStructure.t) (scenario_bump : Q)
    (upfront_fees prepayment_fee : Q) :
  0 < principal ->
  (1 <= tenor_months <= RateStructure.fixed_months rate_structure)%Z ->
  (grace_principal_months < tenor_months)%Z ->
  monthly_fee_not_negative fee_structure ->
  0 <= prepayment_fee ->
  exists schedule,
    generate_amortization_schedule principal tenor_months rate_structure
      repayment_method grace_principal_months 0 fee_structure None scenario_bump
    = Return schedule
    /\ AmortizationSchedule.payments schedule <> []
    /\ forall rate,
         -1 < rate -> rate <= RateStructure.fixed_rate_pct rate_structure / 100 / 12 ->
         present_value rate
           (Py.enumerate (apr_cashflows principal schedule upfront_fees prepayment_fee))
         <= - upfront_fees.
Proof.
  intros Hp Ht Hg Hfee Hpre. unfold generate_amortization_schedule.
  replace (Py.leb principal 0 || (tenor_months <=? 0)%Z) with false.
  2:{ symmetry. apply orb_false_iff. split; [apply leb_false; exact Hp | apply Z.leb_gt; lia]. }
  set (st0 := initial_loop principal rate_structure fee_structure scenario_bump).
  assert (Hcur : Loop.current_rate st0 == RateStructure.fixed_rate_pct rate_structure / 100).
  { unfold st0, initial_loop. cbn [Loop.current_rate].
    unfold RateStructure.get_rate_for_month.
    replace (1 <=? RateStructure.fixed_months rate_structure)%Z with true
      by (symmetry; apply Z.leb_le; lia).
    reflexivity. }
  destruct (run_pays_down tenor_months rate_structure repayment_method
              grace_principal_months fee_structure scenario_bump
              ltac:(lia) Hfee (Z.to_nat (tenor_months + 1 - 1)) 1 st0)
    as (st & entries & Hrun & Hpay & Hdown); [reflexivity | lia | exact Hp | exact Hcur |].
  destruct (run_balances tenor_months rate_structure repayment_method
              grace_principal_months 0 fee_structure None scenario_bump
              (Z.to_nat (tenor_months + 1 - 1)) 1 st0)
    as (st' & Hrun' & _ & _ & Hz); [reflexivity | lia | |].
  { split; [exact Hp|]. split; [exact I|]. split; [constructor|]. left. reflexivity. }
  rewrite Hrun in Hrun'. injection Hrun' as <-.
  specialize (Hz ltac:(lia) (or_introl Hg)). destruct Hz as [Hne Hlast].
  rewrite Hrun. cbn [bind]. cbn [Loop.payments st0 initial_loop app] in Hpay.
  rewrite Hpay in Hne, Hlast |- *.
  rewrite (last_default_irrelevant _ 1 principal Hne) in Hlast.
  eexists. split; [reflexivity|]. cbn [AmortizationSchedule.payments].
  split.
  { intros E. apply Hne. rewrite E. reflexivity. }
  intros rate Hlo Hhi.
  unfold apr_cashflows, Py.enumerate.
  cbn [AmortizationSchedule.payments List.length seq map combine present_value].
  pose proof (pays_down_cashflows _ prepayment_fee
                (Z.of_nat (List.length entries) - 1) Hpre entries _ 0%nat Hdown) as Hcs.
  pose proof (pays_down_present_value rate _ Hlo Hhi entries _ 0%nat _ Hdown Hcs Hlast)
    as Hpv.
  rewrite length_map, length_combine, length_map, length_seq, Nat.min_id in Hpv.
  rewrite length_map, length_combine, length_map, length_seq, Nat.min_id.
  change ((1 + rate) ^ Z.of_nat 0) with 1 in Hpv |- *.
  set (pv := present_value rate _) in Hpv.
  change (pv <= - (principal / 1)) in Hpv.
  change ((principal - upfront_fees) / 1 + pv <= - upfront_fees).
  clearbody pv.
  pose proof (div_one principal) as E1.
  pose proof (div_one (principal - upfront_fees)) as E2.
  lra.
Qed.

(** Bernoulli: compounding over 12 months gives more than 12 times the
    monthly rate. *)
Lemma compounding_above_simple r k : -1 <= r -> 1 + inject_Z (Z.of_nat k) * r <= (1 + r) ^ Z.of_nat k.
Proof.
  intros Hr. induction k as [|k IH].
  - change ((1 + r) ^ Z.of_nat 0) with 1. change (inject_Z (Z.of_nat 0)) with 0. lra.
  - destruct (Qeq_dec r (-1)) as [E|N].
    + rewrite Nat2Z.inj_succ. unfold Z.succ. rewrite inject_Z_plus.
      assert (E0 : (1 + r) ^ (Z.of_nat k + 1) == 0).
      { assert (E1 : 1 + r == 0) by lra. rewrite E1. apply Qpower_0. lia. }
      rewrite E0. assert (0 <= inject_Z (Z.of_nat k)).
      { change 0 with (inject_Z 0). rewrite <- Zle_Qle. lia. }
      change (inject_Z 1) with 1. nra.
    + rewrite power_succ by lra.
      rewrite Nat2Z.inj_succ. unfold Z.succ. rewrite inject_Z_plus.
      change (inject_Z 1) with 1.
      assert (Hk : 0 <= inject_Z (Z.of_nat k)).
      { change 0 with (inject_Z 0). rewrite <- Zle_Qle. lia. }
      set (q := inject_Z (Z.of_nat k)) in *. set (x := (1 + r) ^ Z.of_nat k) in *.
      assert ((1 + q * r) * (1 + r) <= x * (1 + r))
        by (apply Qmult_le_compat_r; lra).
      nra.
Qed.




(** ** Interest under a higher rate *)

(** Bernoulli's inequality. *)
Lemma power_minus_one_linear m k : 0 <= m -> inject_Z (Z.of_nat k) * m <= (1 + m) ^ Z.of_nat k - 1.
Proof.
  intros Hm. induction k as [|k IH].
  - change (inject_Z (Z.of_nat 0)) with 0. change ((1 + m) ^ Z.of_nat 0) with 1. lra.
  - rewrite power_succ by lra. rewrite Nat2Z.inj_succ. unfold Z.succ.
    rewrite inject_Z_plus. change (inject_Z 1) with 1.
    set (f := (1 + m) ^ Z.of_nat k) in *. set (q := inject_Z (Z.of_nat k)) in *.
    assert (0 <= q).
    { unfold q. change 0 with (inject_Z 0). rewrite <- Zle_Qle. lia. }
    assert (0 <= q * m) by (apply Qmult_le_0_compat; lra).
    assert (0 <= (f - 1) * m) by (apply Qmult_le_0_compat; lra).
    lra.
Qed.

(** [((1 + m) ^ k - 1) / m] grows with [m]. *)
Lemma power_minus_one_order m1 m2 k :
  0 < m1 -> m1 <= m2 ->
  m2 * ((1 + m1) ^ Z.of_nat k - 1) <= m1 * ((1 + m2) ^ Z.of_nat k - 1).
Proof.
  intros H1 H2. induction k as [|k IH].
  - change ((1 + m1) ^ Z.of_nat 0) with 1. change ((1 + m2) ^ Z.of_nat 0) with 1. lra.
  - rewrite !power_succ by lra.
    pose proof (power_minus_one_linear m1 k ltac:(lra)) as L1.
    pose proof (power_minus_one_linear m2 k ltac:(lra)) as L2.
    assert (0 <= inject_Z (Z.of_nat k)).
    { change 0 with (inject_Z 0). rewrite <- Zle_Qle. lia. }
    set (q := inject_Z (Z.of_nat k)) in *.
    set (f1 := (1 + m1) ^ Z.of_nat k) in *. set (f2 := (1 + m2) ^ Z.of_nat k) in *.
    assert (0 <= f1 - 1) by nra. assert (0 <= f2 - 1) by nra.
    set (g1 := f1 - 1) in *. set (g2 := f2 - 1) in *.
    assert (E1 : f1 == g1 + 1) by (unfold g1; lra).
    assert (E2 : f2 == g2 + 1) by (unfold g2; lra).
    rewrite E1, E2.
    assert (m2 * g1 * (1 + m1) <= m1 * g2 * (1 + m2)).
    { assert (m2 * g1 * (1 + m1) <= m1 * g2 * (1 + m1)) by (apply Qmult_le_compat_r; lra).
      assert (0 <= m1 * g2) by (apply Qmult_le_0_compat; lra).
      assert (m1 * g2 * (1 + m1) <= m1 * g2 * (1 + m2)) by nra.
      lra. }
    lra.
Qed.

Lemma div_le_cross a b c d : 0 < b -> 0 < d -> a * d <= c * b -> a / b <= c / d.
Proof.
  intros Hb Hd H. apply Qle_shift_div_r; [exact Hb|].
  assert (E : c / d * b == c * b / d) by (field; lra).
  rewrite E. apply Qle_shift_div_l; assumption.
Qed.

Section ShareFacts.

Variable tenor_months : Z.
Variable repayment_method : string.
Variable grace_principal_months : Z.
Variable month : Z.

Hypothesis month_in_term : (1 <= month <= tenor_months)%Z.

Let n := (tenor_months - month + 1)%Z.

Let share := principal_share tenor_months repayment_method grace_principal_months month.

Lemma months_left : n = Z.of_nat (Z.to_nat n) /\ 1 <= inject_Z n.
Proof.
  split; [unfold n; lia|].
  change 1 with (inject_Z 1). rewrite <- Zle_Qle. unfold n. lia.
Qed.

(** For a positive monthly rate [m]: [m <= n * m <= (1 + m) ^ n - 1]. *)
Lemma growth_covers_rate m : 0 < m -> inject_Z n * m <= (1 + m) ^ n - 1.
Proof.
  intros Hm. destruct months_left as [E _]. rewrite E.
  apply power_minus_one_linear. lra.
Qed.

Lemma principal_share_bounds rate : 0 <= rate -> 0 <= share rate <= 1.
Proof.
  intros Hr. destruct months_left as [_ Hn].
  assert (H1n : 0 <= 1 / inject_Z n <= 1).
  { split; [apply Qle_shift_div_l; lra | apply Qle_shift_div_r; lra]. }
  unfold share, principal_share. fold n.
  destruct (month <=? grace_principal_months)%Z; [lra|].
  destruct (String.eqb repayment_method "equal_principal"); [exact H1n|].
  destruct (Py.leb rate 0) eqn:L; [exact H1n|].
  apply leb_false in L. assert (Hm : 0 < rate / 12) by qlra.
  pose proof (growth_covers_rate _ Hm) as G.
  set (m := rate / 12) in *. set (g := (1 + m) ^ n - 1) in *.
  assert (m <= g) by nra.
  split; [apply Qle_shift_div_l; lra | apply Qle_shift_div_r; lra].
Qed.

(** Before the last month the share is less than the whole balance. *)
Lemma principal_share_partial rate :
  (month < tenor_months)%Z -> 0 <= rate -> share rate < 1.
Proof.
  intros Hlt Hr.
  assert (Hn : 2 <= inject_Z n).
  { change 2 with (inject_Z 2). rewrite <- Zle_Qle. unfold n. lia. }
  assert (H1n : 1 / inject_Z n < 1) by (apply Qlt_shift_div_r; lra).
  unfold share, principal_share. fold n.
  destruct (month <=? grace_principal_months)%Z; [lra|].
  destruct (String.eqb repayment_method "equal_principal"); [exact H1n|].
  destruct (Py.leb rate 0) eqn:L; [exact H1n|].
  apply leb_false in L. assert (Hm : 0 < rate / 12) by qlra.
  pose proof (growth_covers_rate _ Hm) as G.
  set (m := rate / 12) in *. set (g := (1 + m) ^ n - 1) in *.
  assert (m < g) by nra.
  apply Qlt_shift_div_r; lra.
Qed.

(** A higher rate repays a smaller share. *)
Lemma principal_share_order r1 r2 : 0 <= r1 -> r1 <= r2 -> share r2 <= share r1.
Proof.
  intros H1 H2. destruct months_left as [En Hn].
  unfold share, principal_share. fold n.
  destruct (month <=? grace_principal_months)%Z; [lra|].
  destruct (String.eqb repayment_method "equal_principal"); [lra|].
  destruct (Py.leb r1 0) eqn:L1, (Py.leb r2 0) eqn:L2;
    try apply leb_true in L1; try apply leb_true in L2;
    try apply leb_false in L1; try apply leb_false in L2.
  - lra.
  - assert (Hm : 0 < r2 / 12) by qlra.
    pose proof (growth_covers_rate _ Hm) as G.
    set (m := r2 / 12) in *. set (g := (1 + m) ^ n - 1) in *.
    assert (0 < g) by nra.
    apply div_le_cross; lra.
  - lra.
  - assert (Hm1 : 0 < r1 / 12) by qlra. assert (Hm2 : r1 / 12 <= r2 / 12) by qlra.
    pose proof (growth_covers_rate _ Hm1) as G1.
    pose proof (growth_covers_rate (r2 / 12) ltac:(lra)) as G2.
    pose proof (power_minus_one_order _ _ (Z.to_nat n) Hm1 Hm2) as O.
    rewrite <- En in O.
    set (m1 := r1 / 12) in *. set (m2 := r2 / 12) in *.
    set (g1 := (1 + m1) ^ n - 1) in *. set (g2 := (1 + m2) ^ n - 1) in *.
    assert (0 < g1) by nra. assert (0 < g2) by nra.
    apply div_le_cross; lra.
Qed.

(** The principal portion of a month is the share of the balance. *)
Lemma principal_portion_is_share B rate pp pay :
  0 < B -> 0 <= rate ->
  (if (month <=? grace_principal_months)%Z then Return (0, B * (rate / 12))
   else principal_and_payment tenor_months repayment_method month B
          (B * (rate / 12)) rate)
  = Return (pp, pay) ->
  pp == B * share rate.
Proof.
  intros HB Hr. destruct months_left as [En Hn].
  unfold share, principal_share, principal_and_payment. fold n.
  destruct (month <=? grace_principal_months)%Z.
  { intros H. injection H as <- _. lra. }
  destruct (String.eqb repayment_method "equal_principal").
  { rewrite truediv_nonzero by lra. cbn [bind]. intros H. injection H as <- _.
    field. lra. }
  rewrite annuity_payment_value. cbn [bind]. intros H. injection H as <- _.
  destruct (annuity_value_cases B rate n HB ltac:(unfold n; lia)) as [[H0 E]|(H0 & F & E)].
  - replace (Py.leb rate 0) with true by (symmetry; apply leb_true; exact H0).
    rewrite E. assert (rate == 0) by lra.
    assert (Ei : B * (rate / 12) == 0) by (rewrite H; field).
    rewrite Ei. field. lra.
  - replace (Py.leb rate 0) with false by (symmetry; apply leb_false; exact H0).
    set (v := annuity_value B rate n) in *. set (m := rate / 12) in *.
    set (f := (1 + m) ^ n) in *.
    assert (Ev : v == B * m * f / (f - 1)).
    { rewrite <- E. field. lra. }
    rewrite Ev. field. lra.
Qed.

End ShareFacts.

Section OrdinaryMonth.

Variable tenor_months : Z.
Variable rate_structure : RateStructure.t.
Variable repayment_method : string.
Variable grace_principal_months : Z.
Variable fee_structure : option FeeStructure.t.
Variable prepayment_info : option PrepaymentInfo.t.
Variable scenario_bump : Q.

Let body :=
  loop_body tenor_months rate_structure repayment_method grace_principal_months
    0 fee_structure prepayment_info scenario_bump.

(** A month without prepayment or interest grace, at a non-negative rate:
    the interest is charged on the whole balance at the settled rate, and the
    balance shrinks by the principal share. *)
Lemma loop_body_ordinary month st :
  (1 <= month <= tenor_months)%Z -> 0 < Loop.remaining st ->
  prepayment_due prepayment_info month = false ->
  0 <= settled_rate rate_structure scenario_bump month (Loop.current_rate st) ->
  exists st' b mp,
    body month st = Return (st', b)
    /\ b = Py.leb (Loop.remaining st') 0
    /\ Loop.payments st' = Loop.payments st ++ [mp]
    /\ MonthlyPayment.month mp = month
    /\ MonthlyPayment.interest mp
       = Loop.remaining st
         * (settled_rate rate_structure scenario_bump month (Loop.current_rate st) / 12)
    /\ Loop.current_rate st'
       = settled_rate rate_structure scenario_bump month (Loop.current_rate st)
    /\ Loop.remaining st'
       == Loop.remaining st
          * (1 - principal_share tenor_months repayment_method grace_principal_months
                   month
                   (settled_rate rate_structure scenario_bump month (Loop.current_rate st))).
Proof.
  intros Hm HB Hdue. unfold body, loop_body, settled_rate. rewrite Hdue. cbv zeta.
  set (rate :=
         if Py.ltb 1e-10
              (Qabs (RateStructure.get_rate_for_month rate_structure month scenario_bump
                     - Loop.current_rate st))
         then RateStructure.get_rate_for_month rate_structure month scenario_bump
         else Loop.current_rate st).
  intros Hr.
  set (B := Loop.remaining st) in *.
  replace (month <=? 0)%Z with false by (symmetry; apply Z.leb_gt; lia).
  destruct (principal_portion_bounds tenor_months repayment_method month B rate false Hm HB)
    as (pp & pay & Hpp & _).
  cbv zeta in Hpp.
  assert (Hstage :
    exists pp' pay',
      (if (month <=? grace_principal_months)%Z
       then Return (0, B * (rate / 12))
       else principal_and_payment tenor_months repayment_method month B
              (B * (rate / 12)) rate)
      = Return (pp', pay')).
  { destruct (month <=? grace_principal_months)%Z.
    - eexists _, _. reflexivity.
    - eexists _, _. exact Hpp. }
  destruct Hstage as (pp' & pay' & Hst).
  pose proof (principal_portion_is_share tenor_months repayment_method
                grace_principal_months month Hm B rate pp' pay' HB Hr Hst) as Hshare.
  pose proof (principal_share_bounds tenor_months repayment_method
                grace_principal_months month Hm rate Hr) as Hbounds.
  rewrite Hst. cbn [bind fst snd].
  eexists _, _, _. split; [reflexivity|].
  split; [reflexivity|]. split; [reflexivity|].
  cbn [Loop.payments Loop.remaining Loop.current_rate MonthlyPayment.month
       MonthlyPayment.interest].
  split; [reflexivity|]. split; [reflexivity|]. split; [reflexivity|].
  set (s := principal_share tenor_months repayment_method grace_principal_months
              month rate) in *.
  assert (0 <= B * s) by (apply Qmult_le_0_compat; lra).
  assert (B * s <= B) by nra.
  qmm. lra.
Qed.

End OrdinaryMonth.

Section InterestOrder.

Variable tenor_months : Z.
Variable rate_structure : RateStructure.t.
Variable repayment_method : string.
Variable grace_principal_months : Z.
Variable fee_structure : option FeeStructure.t.
Variable prepayment_info : option PrepaymentInfo.t.
Variable b1 b2 : Q.

Hypothesis bumps_ordered : b1 <= b2.
Hypothesis fixed_rate_not_negative : 0 <= RateStructure.fixed_rate_pct rate_structure.
Hypothesis floating_rate_not_negative :
  0 <= RateStructure.reference_rate_pct rate_structure
       + RateStructure.floating_margin_pct rate_structure + b1 * 100.

Let run1 :=
  for_months tenor_months rate_structure repayment_method grace_principal_months
    0 fee_structure prepayment_info b1.

Let run2 :=
  for_months tenor_months rate_structure repayment_method grace_principal_months
    0 fee_structure prepayment_info b2.

(** The settled rates of the two runs stay ordered. *)
Lemma settled_rates_ordered month c1 c2 :
  0 <= c1 -> rates_related rate_structure b1 b2 month c1 c2 ->
  0 <= settled_rate rate_structure b1 month c1
  /\ settled_rate rate_structure b1 month c1 <= settled_rate rate_structure b2 month c2
  /\ rates_related rate_structure b1 b2 (month + 1)
       (settled_rate rate_structure b1 month c1)
       (settled_rate rate_structure b2 month c2).
Proof.
  intros Hc Hrel. unfold rates_related, settled_rate in *. cbv zeta.
  unfold RateStructure.get_rate_for_month in *.
  destruct (month <=? RateStructure.fixed_months rate_structure)%Z eqn:Efix.
  - apply Z.leb_le in Efix.
    destruct Hrel as [Heq|(Hlt & _)]; [|lia].
    set (F := RateStructure.fixed_rate_pct rate_structure / 100).
    assert (HF : 0 <= F) by (unfold F; qlra).
    destruct (Py.ltb 1e-10 (Qabs (F - c1))) eqn:L1, (Py.ltb 1e-10 (Qabs (F - c2))) eqn:L2;
      try apply ltb_true in L1; try apply ltb_true in L2;
      try apply ltb_false in L1; try apply ltb_false in L2.
    + split; [exact HF|]. split; [lra|]. left. reflexivity.
    + exfalso. revert L1 L2. apply Qabs_case; apply Qabs_case; intros; qlra.
    + exfalso. revert L1 L2. apply Qabs_case; apply Qabs_case; intros; qlra.
    + split; [exact Hc|]. split; [lra|]. left. exact Heq.
  - apply Z.leb_gt in Efix.
    replace (month + 1 <=? RateStructure.fixed_months rate_structure)%Z with false
      by (symmetry; apply Z.leb_gt; lia).
    set (n1 := (RateStructure.reference_rate_pct rate_structure
                + RateStructure.floating_margin_pct rate_structure + b1 * 100) / 100) in *.
    set (n2 := (RateStructure.reference_rate_pct rate_structure
                + RateStructure.floating_margin_pct rate_structure + b2 * 100) / 100) in *.
    assert (Hn1 : 0 <= n1) by (unfold n1; qlra).
    assert (Hn : n1 <= n2) by (unfold n1, n2; qlra).
    assert (Z0 : forall x, Qabs (x - x) <= 1e-10).
    { intros x. apply Qabs_case; intros; qlra. }
    destruct (Py.ltb 1e-10 (Qabs (n1 - c1))) eqn:L1, (Py.ltb 1e-10 (Qabs (n2 - c2))) eqn:L2;
      try apply ltb_true in L1; try apply ltb_true in L2;
      try apply ltb_false in L1; try apply ltb_false in L2.
    + split; [exact Hn1|]. split; [exact Hn|]. right.
      split; [lia|]. split; [apply Z0|]. split; [apply Z0 | exact Hn].
    + destruct Hrel as [Heq|(_ & A1 & _)].
      * assert (n1 <= c2).
        { revert L1 L2. apply Qabs_case; apply Qabs_case; intros; qlra. }
        split; [exact Hn1|]. split; [exact H|]. right.
        split; [lia|]. split; [apply Z0|]. split; [exact L2 | exact H].
      * exfalso. qlra.
    + destruct Hrel as [Heq|(_ & _ & A2 & _)].
      * assert (c1 <= n2).
        { revert L1 L2. apply Qabs_case; apply Qabs_case; intros; qlra. }
        split; [exact Hc|]. split; [exact H|]. right.
        split; [lia|]. split; [exact L1|]. split; [apply Z0 | exact H].
      * exfalso. qlra.
    + assert (c1 <= c2) by (destruct Hrel as [Heq|(_ & _ & _ & Hle)]; lra).
      split; [exact Hc|]. split; [exact H|]. right.
      split; [lia|]. split; [exact L1|]. split; [exact L2 | exact H].
Qed.

(** The two runs of the loop from month [from] on, the first on no larger a
    balance: both return, and entry by entry the second charges at least
    the interest of the first. *)
Lemma run_interest_ordered n :
  forall from st1 st2,
    Z.to_nat (tenor_months + 1 - from) = n -> (1 <= from)%Z ->
    0 < Loop.remaining st1 -> Loop.remaining st1 <= Loop.remaining st2 ->
    0 <= Loop.current_rate st1 ->
    rates_related rate_structure b1 b2 from (Loop.current_rate st1) (Loop.current_rate st2) ->
    exists st1' st2' e1 e2,
      run1 (Py.range from (tenor_months + 1)) st1 = Return st1'
      /\ run2 (Py.range from (tenor_months + 1)) st2 = Return st2'
      /\ Loop.payments st1' = Loop.payments st1 ++ e1
      /\ Loop.payments st2' = Loop.payments st2 ++ e2
      /\ interest_ordered e1 e2.
Proof.
  induction n as [|n IH]; intros from st1 st2 Hn Hfrom HB1 HB Hc1 Hrel.
  - rewrite range_nil by lia. exists st1, st2, [], []. cbn.
    split; [reflexivity|]. split; [reflexivity|].
    split; [rewrite app_nil_r; reflexivity|].
    split; [rewrite app_nil_r; reflexivity | constructor].
  - rewrite range_cons by lia. unfold run1, run2. cbn [for_months]. fold run1 run2.
    assert (HB2 : 0 < Loop.remaining st2) by lra.
    destruct (prepayment_due prepayment_info from) eqn:Hdue.
    + destruct (loop_body_step tenor_months rate_structure repayment_method
                  grace_principal_months 0 fee_structure prepayment_info b1 from st1)
        as (s1 & x1 & mp1 & Hb1 & Hp1 & Hm1 & _ & _ & _ & _ & Hx1 & Ht1 & _);
        [lia | exact HB1 |].
      destruct (loop_body_step tenor_months rate_structure repayment_method
                  grace_principal_months 0 fee_structure prepayment_info b2 from st2)
        as (s2 & x2 & mp2 & Hb2 & Hp2 & Hm2 & _ & _ & _ & _ & Hx2 & Ht2 & _);
        [lia | exact HB2 |].
      rewrite Hb1, Hb2. cbn [bind fst snd]. rewrite (Hx1 Hdue), (Hx2 Hdue).
      exists s1, s2, [mp1], [mp2].
      split; [reflexivity|]. split; [reflexivity|].
      split; [exact Hp1|]. split; [exact Hp2|].
      constructor; [|constructor]. split; [congruence|].
      destruct (Ht1 Hdue) as [-> _]. destruct (Ht2 Hdue) as [-> _]. cbn. lra.
    + destruct (settled_rates_ordered from _ _ Hc1 Hrel) as (Hr1 & Hr12 & Hrel').
      destruct (loop_body_ordinary tenor_months rate_structure repayment_method
                  grace_principal_months fee_structure prepayment_info b1 from st1)
        as (s1 & x1 & mp1 & Hb1 & Hx1 & Hp1 & Hm1 & Hi1 & Hcur1 & Hrem1);
        [lia | exact HB1 | exact Hdue | exact Hr1 |].
      destruct (loop_body_ordinary tenor_months rate_structure repayment_method
                  grace_principal_months fee_structure prepayment_info b2 from st2)
        as (s2 & x2 & mp2 & Hb2 & Hx2 & Hp2 & Hm2 & Hi2 & Hcur2 & Hrem2);
        [lia | exact HB2 | exact Hdue | lra |].
      rewrite Hb1, Hb2. cbn [bind fst snd].
      set (r1 := settled_rate rate_structure b1 from (Loop.current_rate st1)) in *.
      set (r2 := settled_rate rate_structure b2 from (Loop.current_rate st2)) in *.
      assert (Hint : MonthlyPayment.interest mp1 <= MonthlyPayment.interest mp2).
      { rewrite Hi1, Hi2. qconst.
        assert (Loop.remaining st1 * r1 <= Loop.remaining st2 * r2) by nra. lra. }
      assert (Hhead : interest_ordered [mp1] [mp2]).
      { constructor; [|constructor]. split; [congruence | exact Hint]. }
      destruct (Z.eq_dec from tenor_months) as [Elast|Nlast].
      * assert (Er : Py.range (from + 1) (tenor_months + 1) = []) by (apply range_nil; lia).
        rewrite Er. cbn [for_months].
        exists s1, s2, [mp1], [mp2].
        split; [destruct x1; reflexivity|]. split; [destruct x2; reflexivity|].
        split; [exact Hp1|]. split; [exact Hp2 | exact Hhead].
      * assert (Hm : (1 <= from <= tenor_months)%Z) by lia.
        pose proof (principal_share_bounds tenor_months repayment_method
                      grace_principal_months from Hm r1 Hr1) as Hs1.
        pose proof (principal_share_bounds tenor_months repayment_method
                      grace_principal_months from Hm r2 ltac:(lra)) as Hs2.
        pose proof (principal_share_partial tenor_months repayment_method
                      grace_principal_months from Hm r1 ltac:(lia) Hr1) as Hp.
        pose proof (principal_share_partial tenor_months repayment_method
                      grace_principal_months from Hm r2 ltac:(lia) ltac:(lra)) as Hp'.
        pose proof (principal_share_order tenor_months repayment_method
                      grace_principal_months from Hm r1 r2 Hr1 Hr12) as Ho.
        set (k1 := principal_share tenor_months repayment_method grace_principal_months
                     from r1) in *.
        set (k2 := principal_share tenor_months repayment_method grace_principal_months
                     from r2) in *.
        assert (Hpos1 : 0 < Loop.remaining s1).
        { rewrite Hrem1. apply Qmult_lt_0_compat; lra. }
        assert (Hpos2 : 0 < Loop.remaining s2).
        { rewrite Hrem2. apply Qmult_lt_0_compat; lra. }
        assert (Hle : Loop.remaining s1 <= Loop.remaining s2).
        { rewrite Hrem1, Hrem2.
          assert (Loop.remaining st1 * (1 - k1) <= Loop.remaining st2 * (1 - k1))
            by (apply Qmult_le_compat_r; lra).
          assert (Loop.remaining st2 * (1 - k1) <= Loop.remaining st2 * (1 - k2)) by nra.
          lra. }
        replace x1 with false
          by (rewrite Hx1; symmetry; apply leb_false; exact Hpos1).
        replace x2 with false
          by (rewrite Hx2; symmetry; apply leb_false; exact Hpos2).
        destruct (IH (from + 1)%Z s1 s2) as (t1 & t2 & e1 & e2 & R1 & R2 & P1 & P2 & Ho');
          [lia | lia | exact Hpos1 | exact Hle | rewrite Hcur1; exact Hr1
          | rewrite Hcur1, Hcur2; exact Hrel' |].
        exists t1, t2, (mp1 :: e1), (mp2 :: e2).
        split; [exact R1|]. split; [exact R2|].
        split; [rewrite P1, Hp1, <- app_assoc; reflexivity|].
        split; [rewrite P2, Hp2, <- app_assoc; reflexivity|].
        constructor; [split; [congruence | exact Hint] | exact Ho'].
Qed.

End InterestOrder.

Lemma sum_ordered xs ys : Forall2 Qle xs ys -> Py.sum xs <= Py.sum ys.
Proof.
  unfold Py.sum. intros H.
  assert (G : forall a b, a <= b -> fold_left Qplus xs a <= fold_left Qplus ys b).
  { induction H as [|x y xs ys Hxy H IH]; intros a b Hab; [exact Hab|].
    cbn [fold_left]. apply IH. lra. }
  apply G. lra.
Qed.

Lemma interest_ordered_within h e1 e2 :
  interest_ordered e1 e2 ->
  Forall2 Qle
    (map MonthlyPayment.interest (filter (fun p => (MonthlyPayment.month p <=? h)%Z) e1))
    (map MonthlyPayment.interest (filter (fun p => (MonthlyPayment.month p <=? h)%Z) e2)).
Proof.
  intros H. induction H as [|p1 p2 e1 e2 [Hm Hi] H IH]; [constructor|].
  cbn [filter]. rewrite Hm.
  destruct (MonthlyPayment.month p2 <=? h)%Z; [|exact IH].
  cbn [map]. constructor; assumption.
Qed.

Lemma average_returns xs : exists a, average xs = Return a.
Proof.
  destruct xs as [|x xs]; [eexists; reflexivity|].
  unfold average. rewrite truediv_nonzero; [eexists; reflexivity|].
  assert (0 < inject_Z (Z.of_nat (List.length (x :: xs))))
    by (apply inject_Z_pos; cbn [List.length]; lia).
  lra.
Qed.

Lemma calculate_apr_returns principal schedule upfront_fees prepayment_fee :
  exists apr, calculate_apr principal schedule upfront_fees prepayment_fee = Return apr.
Proof.
  unfold calculate_apr.
  destruct (AmortizationSchedule.payments schedule); [eexists; reflexivity|].
  unfold calculate_irr, calculate_irr_with.
  destruct (List.length _ <? 2)%nat; [eexists; reflexivity|].
  destruct (newton_loop_clamped
              (apr_cashflows principal schedule upfront_fees prepayment_fee)
              1e-10 (Z.to_nat 100) 0.01 ltac:(lra)) as (r & -> & _).
  eexists. reflexivity.
Qed.

(** A scenario whose schedule is generated returns a summary, and its
    [total_interest] is the interest of the entries within the horizon. *)
Lemma stress_scenario_total_interest principal tenor_months rate_structure
    repayment_method grace_principal_months fee_structure prepayment_info
    horizon_months bump schedule :
  generate_amortization_schedule principal tenor_months rate_structure
    repayment_method grace_principal_months 0 fee_structure prepayment_info bump
  = Return schedule ->
  exists summary,
    stress_scenario principal tenor_months rate_structure repayment_method
      grace_principal_months fee_structure prepayment_info horizon_months bump
    = Return summary
    /\ LoanCostSummary.total_interest summary
       = Py.sum (map MonthlyPayment.interest
                   (filter (fun p => (MonthlyPayment.month p
                                      <=? horizon tenor_months horizon_months)%Z)
                      (AmortizationSchedule.payments schedule))).
Proof.
  intros H. unfold stress_scenario. rewrite H. cbn [bind]. cbv zeta.
  destruct (calculate_apr_returns principal schedule
              match fee_structure with
              | Some fs => _calculate_upfront_fees principal fs
              | None => 0
              end
              (realized_prepay_fee prepayment_info (AmortizationSchedule.payments schedule)))
    as [apr ->].
  cbn [bind].
  match goal with |- context [average ?xs] => destruct (average_returns xs) as [a1 ->] end.
  cbn [bind].
  match goal with |- context [average ?xs] => destruct (average_returns xs) as [a2 ->] end.
  cbn [bind]. eexists. split; reflexivity.
Qed.

(** Under a higher bump the schedule charges, entry by entry, at least the
    same interest. *)
Lemma schedules_interest_ordered principal tenor_months rate_structure
    repayment_method grace_principal_months fee_structure prepayment_info b1 b2 :
  b1 <= b2 ->
  0 <= RateStructure.fixed_rate_pct rate_structure ->
  0 <= RateStructure.reference_rate_pct rate_structure
       + RateStructure.floating_margin_pct rate_structure + b1 * 100 ->
  exists s1 s2,
    generate_amortization_schedule principal tenor_months rate_structure
      repayment_method grace_principal_months 0 fee_structure prepayment_info b1
    = Return s1
    /\ generate_amortization_schedule principal tenor_months rate_structure
         repayment_method grace_principal_months 0 fee_structure prepayment_info b2
       = Return s2
    /\ interest_ordered (AmortizationSchedule.payments s1)
         (AmortizationSchedule.payments s2).
Proof.
  intros Hb Hfix Hfloat. unfold generate_amortization_schedule.
  destruct (Py.leb principal 0 || (tenor_months <=? 0)%Z) eqn:G.
  { eexists _, _. split; [reflexivity|]. split; [reflexivity | constructor]. }
  apply orb_false_iff in G. destruct G as [Gp Gt].
  apply leb_false in Gp. apply Z.leb_gt in Gt.
  destruct (run_interest_ordered tenor_months rate_structure repayment_method
              grace_principal_months fee_structure prepayment_info b1 b2
              Hb Hfix Hfloat (Z.to_nat (tenor_months + 1 - 1)) 1
              (initial_loop principal rate_structure fee_structure b1)
              (initial_loop principal rate_structure fee_structure b2))
    as (t1 & t2 & e1 & e2 & R1 & R2 & P1 & P2 & Ho).
  - reflexivity.
  - lia.
  - exact Gp.
  - cbn. lra.
  - cbn [initial_loop Loop.current_rate]. unfold RateStructure.get_rate_for_month.
    destruct (1 <=? RateStructure.fixed_months rate_structure)%Z; qlra.
  - cbn [initial_loop Loop.current_rate]. unfold rates_related.
    unfold RateStructure.get_rate_for_month.
    destruct (1 <=? RateStructure.fixed_months rate_structure)%Z eqn:E.
    + left. reflexivity.
    + right. apply Z.leb_gt in E. split; [exact E|].
      split; [apply Qabs_case; intros; qlra|].
      split; [apply Qabs_case; intros; qlra | qlra].
  - rewrite R1, R2. cbn [bind]. eexists _, _.
    split; [reflexivity|]. split; [reflexivity|].
    cbn [AmortizationSchedule.payments]. rewrite P1, P2. exact Ho.
Qed.




(** * Further properties *)

(** ** Totals and shape of a schedule *)

Lemma sum_from (xs : list Q) a : fold_left Qplus xs a == a + Py.sum xs.
Proof.
  unfold Py.sum. revert a. induction xs as [|x xs IH]; intros a.
  - cbn. lra.
  - cbn [fold_left]. rewrite (IH (a + x)), (IH (0 + x)). lra.
Qed.

Lemma sum_cons x (xs : list Q) : Py.sum (x :: xs) == x + Py.sum xs.
Proof. unfold Py.sum at 1. cbn [fold_left]. rewrite sum_from. lra. Qed.

Section TotalsFacts.

Variable tenor_months : Z.
Variable rate_structure : RateStructure.t.
Variable repayment_method : string.
Variable grace_principal_months : Z.
Variable grace_interest_months : Z.
Variable fee_structure : option FeeStructure.t.
Variable prepayment_info : option PrepaymentInfo.t.
Variable scenario_bump : Q.

Let body :=
  loop_body tenor_months rate_structure repayment_method grace_principal_months
    grace_interest_months fee_structure prepayment_info scenario_bump.

Let run :=
  for_months tenor_months rate_structure repayment_method grace_principal_months
    grace_interest_months fee_structure prepayment_info scenario_bump.

(** What one iteration adds to the running totals. *)
Lemma loop_body_totals month st :
  (1 <= month <= tenor_months)%Z -> 0 < Loop.remaining st ->
  exists st' b mp,
    body month st = Return (st', b)
    /\ Loop.payments st' = Loop.payments st ++ [mp]
    /\ MonthlyPayment.month mp = month
    /\ (b = false ->
        Loop.remaining st' = MonthlyPayment.remaining_balance mp
        /\ 0 < Loop.remaining st')
    /\ MonthlyPayment.principal mp + MonthlyPayment.remaining_balance mp
       == Loop.remaining st
    /\ Loop.total_interest st' == Loop.total_interest st + MonthlyPayment.interest mp
    /\ Loop.total_principal st' == Loop.total_principal st + MonthlyPayment.principal mp
    /\ Loop.total_fees st' == Loop.total_fees st + MonthlyPayment.fees mp
    /\ Loop.total_insurance st'
       == Loop.total_insurance st + MonthlyPayment.insurance mp.
Proof.
  intros Hm HB. unfold body, loop_body.
  destruct (prepayment_due prepayment_info month) eqn:Hp.
  - eexists _, _, _. split; [reflexivity|].
    split; [reflexivity|]. split; [reflexivity|].
    cbn [Loop.payments Loop.remaining Loop.total_interest Loop.total_principal
         Loop.total_fees Loop.total_insurance MonthlyPayment.month
         MonthlyPayment.remaining_balance MonthlyPayment.principal
         MonthlyPayment.interest MonthlyPayment.fees MonthlyPayment.insurance].
    split; [intros; discriminate|].
    repeat split; lra.
  - cbv zeta.
    set (rate :=
           if Py.ltb 1e-10
                (Qabs (RateStructure.get_rate_for_month rate_structure month scenario_bump
                       - Loop.current_rate st))
           then RateStructure.get_rate_for_month rate_structure month scenario_bump
           else Loop.current_rate st).
    set (B := Loop.remaining st) in *.
    destruct (principal_portion_bounds tenor_months repayment_method month B rate
                (month <=? grace_interest_months)%Z Hm HB)
      as (pp & pay & Hpp & _).
    cbv zeta in Hpp.
    assert (Hstage :
      exists pp' pay',
        (if (month <=? grace_principal_months)%Z
         then Return (0, if (month <=? grace_interest_months)%Z then 0 else B * (rate / 12))
         else principal_and_payment tenor_months repayment_method month B
                (if (month <=? grace_interest_months)%Z then 0 else B * (rate / 12)) rate)
        = Return (pp', pay')).
    { destruct (month <=? grace_principal_months)%Z.
      - eexists _, _. reflexivity.
      - eexists _, _. exact Hpp. }
    destruct Hstage as (pp' & pay' & Hst).
    rewrite Hst. cbn [bind fst snd].
    eexists _, _, _. split; [reflexivity|].
    split; [reflexivity|]. split; [reflexivity|].
    cbn [Loop.payments Loop.remaining Loop.total_interest Loop.total_principal
         Loop.total_fees Loop.total_insurance MonthlyPayment.month
         MonthlyPayment.remaining_balance MonthlyPayment.principal
         MonthlyPayment.interest MonthlyPayment.fees MonthlyPayment.insurance].
    split; [intros Hb; apply leb_false in Hb; split; [reflexivity | exact Hb]|].
    split; [qmm; lra|].
    repeat split; reflexivity.
Qed.

(** The loop from month [from] on: the entries it appends are numbered from
    [from] without a gap, the totals grow by the sums of their columns, and
    what they repay and what they leave make up the opening balance. *)
Lemma run_totals n :
  forall from st,
    Z.to_nat (tenor_months + 1 - from) = n -> (1 <= from)%Z ->
    0 < Loop.remaining st ->
    exists st' entries,
      run (Py.range from (tenor_months + 1)) st = Return st'
      /\ Loop.payments st' = Loop.payments st ++ entries
      /\ map MonthlyPayment.month entries
         = Py.range from (from + Z.of_nat (List.length entries))
      /\ (List.length entries <= n)%nat
      /\ Py.sum (map MonthlyPayment.principal entries)
         + last (balances entries) (Loop.remaining st)
         == Loop.remaining st
      /\ Loop.total_interest st'
         == Loop.total_interest st + Py.sum (map MonthlyPayment.interest entries)
      /\ Loop.total_principal st'
         == Loop.total_principal st + Py.sum (map MonthlyPayment.principal entries)
      /\ Loop.total_fees st'
         == Loop.total_fees st + Py.sum (map MonthlyPayment.fees entries)
      /\ Loop.total_insurance st'
         == Loop.total_insurance st + Py.sum (map MonthlyPayment.insurance entries).
Proof.
  induction n as [|n IH]; intros from st Hn Hfrom HB.
  - rewrite range_nil by lia. exists st, []. cbn [for_months run map List.length].
    split; [reflexivity|]. split; [rewrite app_nil_r; reflexivity|].
    split; [rewrite range_nil by lia; reflexivity|].
    split; [lia|]. unfold Py.sum. cbn. repeat split; lra.
  - rewrite range_cons by lia. unfold run. cbn [for_months]. fold run.
    destruct (loop_body_totals from st)
      as (st1 & b & mp & Hb & Hp & Hmo & Hc & Hbal & Hi & Hpr & Hf & Hins);
      [lia | exact HB |].
    fold body. rewrite Hb. cbn [bind fst snd].
    assert (Hone : st1 = st1 ->
      exists st' entries,
        Return st1 = Return st'
        /\ Loop.payments st' = Loop.payments st ++ entries
        /\ map MonthlyPayment.month entries
           = Py.range from (from + Z.of_nat (List.length entries))
        /\ (List.length entries <= S n)%nat
        /\ Py.sum (map MonthlyPayment.principal entries)
           + last (balances entries) (Loop.remaining st)
           == Loop.remaining st
        /\ Loop.total_interest st'
           == Loop.total_interest st + Py.sum (map MonthlyPayment.interest entries)
        /\ Loop.total_principal st'
           == Loop.total_principal st + Py.sum (map MonthlyPayment.principal entries)
        /\ Loop.total_fees st'
           == Loop.total_fees st + Py.sum (map MonthlyPayment.fees entries)
        /\ Loop.total_insurance st'
           == Loop.total_insurance st + Py.sum (map MonthlyPayment.insurance entries)).
    { intros _. exists st1, [mp]. split; [reflexivity|]. split; [exact Hp|].
      cbn [map List.length balances last]. rewrite !sum_cons. unfold Py.sum. cbn [fold_left].
      split; [rewrite Hmo, range_cons by lia; rewrite range_nil by lia; reflexivity|].
      split; [lia|]. repeat split; lra. }
    destruct b; [apply Hone; reflexivity|]. clear Hone.
    destruct (Hc eq_refl) as [Hrem Hpos].
    destruct (IH (from + 1)%Z st1)
      as (st2 & entries & Hrun & Hp2 & Hm2 & Hlen & Hbal2 & Hi2 & Hpr2 & Hf2 & Hins2);
      [lia | lia | exact Hpos |].
    exists st2, (mp :: entries). split; [exact Hrun|].
    split; [rewrite Hp2, Hp, <- app_assoc; reflexivity|].
    assert (El : (from + Z.of_nat (List.length (mp :: entries))
                  = from + 1 + Z.of_nat (List.length entries))%Z)
      by (cbn [List.length]; lia).
    split; [cbn [map]; rewrite Hmo, Hm2, El; symmetry; apply range_cons; lia|].
    split; [cbn [List.length]; lia|].
    cbn [map balances]. fold (balances entries). rewrite !sum_cons.
    rewrite last_cons_default. rewrite Hrem in Hbal2.
    repeat split; lra.
Qed.

End TotalsFacts.

(** The totals of a schedule are the sums of the columns of its entries;
    [total_fees] also counts the upfront fees. *)
Theorem schedule_totals_are_column_sums
    (principal : Q) (tenor_months : Z) (rate_structure : RateStructure.t)
    (repayment_method : string) (grace_principal_months grace_interest_months : Z)
    (fee_structure : option FeeStructure.t) (prepayment_info : option PrepaymentInfo.t)
    (scenario_bump : Q) :
  0 < principal -> (0 < tenor_months)%Z ->
  exists schedule,
    generate_amortization_schedule principal tenor_months rate_structure
      repayment_method grace_principal_months grace_interest_months fee_structure
      prepayment_info scenario_bump = Return schedule
    /\ AmortizationSchedule.total_interest schedule
       == Py.sum (map MonthlyPayment.interest (AmortizationSchedule.payments schedule))
    /\ AmortizationSchedule.total_principal schedule
       == Py.sum (map MonthlyPayment.principal (AmortizationSchedule.payments schedule))
    /\ AmortizationSchedule.total_payments schedule
       = Py.sum (map MonthlyPayment.payment (AmortizationSchedule.payments schedule))
    /\ AmortizationSchedule.total_fees schedule
       == match fee_structure with
          | Some fs => _calculate_upfront_fees principal fs
          | None => 0
          end
          + Py.sum (map MonthlyPayment.fees (AmortizationSchedule.payments schedule))
    /\ AmortizationSchedule.total_insurance schedule
       == Py.sum (map MonthlyPayment.insurance (AmortizationSchedule.payments schedule)).
Proof.
  intros Hp Ht. unfold generate_amortization_schedule.
  replace (Py.leb principal 0 || (tenor_months <=? 0)%Z) with false.
  2:{ symmetry. apply orb_false_iff. split; [apply leb_false; exact Hp | apply Z.leb_gt; lia]. }
  destruct (run_totals tenor_months rate_structure repayment_method
              grace_principal_months grace_interest_months fee_structure
              prepayment_info scenario_bump (Z.to_nat (tenor_months + 1 - 1)) 1
              (initial_loop principal rate_structure fee_structure scenario_bump))
    as (st & entries & Hrun & Hpay & _ & _ & _ & Hi & Hpr & Hf & Hins);
    [reflexivity | lia | exact Hp |].
  rewrite Hrun. cbn [bind]. eexists. split; [reflexivity|].
  cbn [AmortizationSchedule.total_interest AmortizationSchedule.total_principal
       AmortizationSchedule.total_payments AmortizationSchedule.total_fees
       AmortizationSchedule.total_insurance AmortizationSchedule.payments].
  cbn [initial_loop Loop.payments Loop.total_interest Loop.total_principal
       Loop.total_fees Loop.total_insurance app] in Hpay, Hi, Hpr, Hf, Hins.
  rewrite Hpay.
  split; [lra|]. split; [lra|]. split; [reflexivity|]. split; lra.
Qed.

Lemma schedule_totals_are_column_sums_witness :
  exists schedule,
    generate_amortization_schedule 1200 3 (RateStructure.mk 12 3 0 5) "annuity"
      0 0 (Some FeeStructure.default) None 0 = Return schedule
    /\ AmortizationSchedule.total_interest schedule
       == Py.sum (map MonthlyPayment.interest (AmortizationSchedule.payments schedule))
    /\ AmortizationSchedule.total_principal schedule
       == Py.sum (map MonthlyPayment.principal (AmortizationSchedule.payments schedule))
    /\ AmortizationSchedule.total_payments schedule
       = Py.sum (map MonthlyPayment.payment (AmortizationSchedule.payments schedule))
    /\ AmortizationSchedule.total_fees schedule
       == _calculate_upfront_fees 1200 FeeStructure.default
          + Py.sum (map MonthlyPayment.fees (AmortizationSchedule.payments schedule))
    /\ AmortizationSchedule.total_insurance schedule
       == Py.sum (map MonthlyPayment.insurance (AmortizationSchedule.payments schedule)).
Proof.
  apply (schedule_totals_are_column_sums 1200 3 (RateStructure.mk 12 3 0 5) "annuity"
           0 0 (Some FeeStructure.default) None 0); [lra | lia].
Defined.

(** A schedule numbers its entries 1, 2, ... without a gap and has at most
    [tenor_months] of them.  In exact arithmetic the principal it repays and
    the balance it leaves make up the loan, so the whole principal is repaid
    when the balance ends at zero; on doubles the two sums differ from the
    principal by the rounding of the instalments. *)
Theorem schedule_repays_the_principal
    (principal : Q) (tenor_months : Z) (rate_structure : RateStructure.t)
    (repayment_method : string) (grace_principal_months grace_interest_months : Z)
    (fee_structure : option FeeStructure.t) (prepayment_info : option PrepaymentInfo.t)
    (scenario_bump : Q) :
  0 < principal -> (0 < tenor_months)%Z ->
  exists schedule,
    generate_amortization_schedule principal tenor_months rate_structure
      repayment_method grace_principal_months grace_interest_months fee_structure
      prepayment_info scenario_bump = Return schedule
    /\ map MonthlyPayment.month (AmortizationSchedule.payments schedule)
       = Py.range 1 (1 + Z.of_nat (List.length (AmortizationSchedule.payments schedule)))
    /\ (Z.of_nat (List.length (AmortizationSchedule.payments schedule)) <= tenor_months)%Z
    /\ AmortizationSchedule.total_principal schedule
       + last (balances (AmortizationSchedule.payments schedule)) principal
       == principal
    /\ ((grace_principal_months < tenor_months)%Z
        \/ prepayment_within prepayment_info tenor_months 1 ->
        AmortizationSchedule.total_principal schedule == principal).
Proof.
  intros Hp Ht. unfold generate_amortization_schedule.
  replace (Py.leb principal 0 || (tenor_months <=? 0)%Z) with false.
  2:{ symmetry. apply orb_false_iff. split; [apply leb_false; exact Hp | apply Z.leb_gt; lia]. }
  set (st0 := initial_loop principal rate_structure fee_structure scenario_bump).
  destruct (run_totals tenor_months rate_structure repayment_method
              grace_principal_months grace_interest_months fee_structure
              prepayment_info scenario_bump (Z.to_nat (tenor_months + 1 - 1)) 1 st0)
    as (st & entries & Hrun & Hpay & Hmonths & Hlen & Hbal & _ & Hpr & _);
    [reflexivity | lia | exact Hp |].
  destruct (run_balances tenor_months rate_structure repayment_method
              grace_principal_months grace_interest_months fee_structure
              prepayment_info scenario_bump (Z.to_nat (tenor_months + 1 - 1)) 1 st0)
    as (st' & Hrun' & _ & _ & Hz); [reflexivity | lia | |].
  { split; [exact Hp|]. split; [exact I|]. split; [constructor|]. left. reflexivity. }
  rewrite Hrun in Hrun'. injection Hrun' as <-.
  rewrite Hrun. cbn [bind]. eexists. split; [reflexivity|].
  cbn [AmortizationSchedule.total_principal AmortizationSchedule.payments].
  cbn [st0 initial_loop Loop.payments Loop.total_principal Loop.remaining app]
    in Hpay, Hpr, Hbal.
  rewrite Hpay in *.
  split; [exact Hmonths|]. split; [lia|]. split; [lra|].
  intros Hc. destruct (Hz ltac:(lia) Hc) as [Hne Hlast].
  rewrite (last_default_irrelevant _ 1 principal Hne) in Hlast. lra.
Qed.

Lemma schedule_repays_the_principal_witness :
  exists schedule,
    generate_amortization_schedule 1200 3 (RateStructure.mk 12 3 0 5) "annuity"
      0 0 None None 0 = Return schedule
    /\ map MonthlyPayment.month (AmortizationSchedule.payments schedule)
       = Py.range 1 (1 + Z.of_nat (List.length (AmortizationSchedule.payments schedule)))
    /\ (Z.of_nat (List.length (AmortizationSchedule.payments schedule)) <= 3)%Z
    /\ AmortizationSchedule.total_principal schedule
       + last (balances (AmortizationSchedule.payments schedule)) 1200
       == 1200
    /\ ((0 < 3)%Z \/ prepayment_within None 3 1 ->
        AmortizationSchedule.total_principal schedule == 1200).
Proof.
  apply (schedule_repays_the_principal 1200 3 (RateStructure.mk 12 3 0 5) "annuity"
           0 0 None None 0); [lra | lia].
Defined.

(** ** Rate bumps and the fixed period *)

Lemma for_months_ext tenor_months rate_structure repayment_method
    grace_principal_months grace_interest_months fee_structure prepayment_info b1 b2
    months :
  (forall month st,
     In month months ->
     loop_body tenor_months rate_structure repayment_method grace_principal_months
       grace_interest_months fee_structure prepayment_info b1 month st
     = loop_body tenor_months rate_structure repayment_method grace_principal_months
         grace_interest_months fee_structure prepayment_info b2 month st) ->
  forall st,
    for_months tenor_months rate_structure repayment_method grace_principal_months
      grace_interest_months fee_structure prepayment_info b1 months st
    = for_months tenor_months rate_structure repayment_method grace_principal_months
        grace_interest_months fee_structure prepayment_info b2 months st.
Proof.
  induction months as [|month rest IH]; intros H st; [reflexivity|].
  cbn [for_months]. rewrite (H month st) by (left; reflexivity).
  apply bind_ext. intros r. destruct (snd r); [reflexivity|].
  apply IH. intros m s Hin. apply H. right. exact Hin.
Qed.

(** A loan whose term ends within the fixed period does not feel the rate
    bump: every bump gives the same schedule and the same stress summary, and
    the three scenarios of the stress test coincide. *)
Theorem fixed_period_loan_ignores_the_bump
    (principal : Q) (tenor_months : Z) (rate_structure : RateStructure.t)
    (repayment_method : string) (grace_principal_months grace_interest_months : Z)
    (fee_structure : option FeeStructure.t) (prepayment_info : option PrepaymentInfo.t)
    (horizon_months : option Z) (b1 b2 : Q) :
  (tenor_months <= RateStructure.fixed_months rate_structure)%Z ->
  generate_amortization_schedule principal tenor_months rate_structure
    repayment_method grace_principal_months grace_interest_months fee_structure
    prepayment_info b1
  = generate_amortization_schedule principal tenor_months rate_structure
      repayment_method grace_principal_months grace_interest_months fee_structure
      prepayment_info b2
  /\ stress_scenario principal tenor_months rate_structure repayment_method
       grace_principal_months fee_structure prepayment_info horizon_months b1
     = stress_scenario principal tenor_months rate_structure repayment_method
         grace_principal_months fee_structure prepayment_info horizon_months b2.
Proof.
  intros Hfix.
  assert (Hrate : forall month b,
             (month <= tenor_months)%Z ->
             RateStructure.get_rate_for_month rate_structure month b
             = RateStructure.fixed_rate_pct rate_structure / 100).
  { intros month b Hm. unfold RateStructure.get_rate_for_month.
    replace (month <=? RateStructure.fixed_months rate_structure)%Z with true
      by (symmetry; apply Z.leb_le; lia).
    reflexivity. }
  assert (Hgen : forall grace_interest,
    generate_amortization_schedule principal tenor_months rate_structure
      repayment_method grace_principal_months grace_interest fee_structure
      prepayment_info b1
    = generate_amortization_schedule principal tenor_months rate_structure
        repayment_method grace_principal_months grace_interest fee_structure
        prepayment_info b2).
  { intros grace_interest. unfold generate_amortization_schedule.
    destruct (Py.leb principal 0 || (tenor_months <=? 0)%Z) eqn:G; [reflexivity|].
    apply orb_false_iff in G. destruct G as [_ Gt]. apply Z.leb_gt in Gt.
    unfold initial_loop. rewrite (Hrate 1%Z b1), (Hrate 1%Z b2) by lia.
    rewrite (for_months_ext tenor_months rate_structure repayment_method
               grace_principal_months grace_interest fee_structure prepayment_info
               b1 b2); [reflexivity|].
    intros month st Hin. apply range_bounds in Hin.
    unfold loop_body. rewrite (Hrate month b1), (Hrate month b2) by lia.
    reflexivity. }
  split; [apply Hgen|].
  unfold stress_scenario. rewrite (Hgen 0%Z). reflexivity.
Qed.

Lemma fixed_period_loan_ignores_the_bump_witness :
  generate_amortization_schedule 1200 12 (RateStructure.mk 12 24 2.5 5) "annuity"
    0 0 None None 0
  = generate_amortization_schedule 1200 12 (RateStructure.mk 12 24 2.5 5) "annuity"
      0 0 None None 0.04
  /\ stress_scenario 1200 12 (RateStructure.mk 12 24 2.5 5) "annuity" 0 None None None 0
     = stress_scenario 1200 12 (RateStructure.mk 12 24 2.5 5) "annuity" 0 None None
         None 0.04.
Proof.
  apply (fixed_period_loan_ignores_the_bump 1200 12 (RateStructure.mk 12 24 2.5 5)
           "annuity" 0 0 None None None 0 0.04).
  cbn. lia.
Defined.

(** ** The range of the APR *)

(** In exact arithmetic [calculate_apr] never raises, and the APR it
    returns lies between [0.5 ^ 12 - 1] and [2 ^ 12 - 1]: the monthly rate of
    the solver is clamped to [-0.5, 1.0].  On doubles the solver raises for
    schedules of more than about a thousand entries, see
    [long_cashflows_raise]. *)
Theorem calculate_apr_is_bounded (principal : Q) (schedule : AmortizationSchedule.t)
    (upfront_fees prepayment_fee : Q) :
  exists apr,
    calculate_apr principal schedule upfront_fees prepayment_fee = Return apr
    /\ - (4095 # 4096) <= apr <= 4095.
Proof.
  unfold calculate_apr.
  destruct (AmortizationSchedule.payments schedule) as [|p ps] eqn:E.
  - exists 0. split; [reflexivity | lra].
  - assert (Hirr : exists r,
               calculate_irr (apr_cashflows principal schedule upfront_fees prepayment_fee)
               = Return r /\ -0.5 <= r <= 1.0).
    { unfold calculate_irr, calculate_irr_with.
      destruct (List.length _ <? 2)%nat; [exists 0; split; [reflexivity | lra]|].
      apply newton_loop_clamped. lra. }
    destruct Hirr as (r & -> & Hr). cbn [bind]. eexists. split; [reflexivity|].
    pose proof (power_base_order (1 # 2) (1 + r) 12 ltac:(lra) ltac:(lra)) as Hlo.
    pose proof (power_base_order (1 + r) 2 12 ltac:(lra) ltac:(lra)) as Hhi.
    change (Z.of_nat 12) with 12%Z in Hlo, Hhi.
    change ((1 # 2) ^ 12) with (1 # 4096) in Hlo.
    change (2 ^ 12) with 4096 in Hhi.
    lra.
Qed.

(** ** The stress test returns *)

Lemma generate_returns principal tenor_months rate_structure repayment_method
    grace_principal_months grace_interest_months fee_structure prepayment_info
    scenario_bump :
  exists schedule,
    generate_amortization_schedule principal tenor_months rate_structure
      repayment_method grace_principal_months grace_interest_months fee_structure
      prepayment_info scenario_bump = Return schedule.
Proof.
  unfold generate_amortization_schedule.
  destruct (Py.leb principal 0 || (tenor_months <=? 0)%Z) eqn:G.
  - eexists. reflexivity.
  - apply orb_false_iff in G. destruct G as [Gp Gt].
    apply leb_false in Gp. apply Z.leb_gt in Gt.
    destruct (run_balances tenor_months rate_structure repayment_method
                grace_principal_months grace_interest_months fee_structure
                prepayment_info scenario_bump
                (Z.to_nat (tenor_months + 1 - 1)) 1
                (initial_loop principal rate_structure fee_structure scenario_bump))
      as (st & Hrun & _); [reflexivity | lia | |].
    { split; [exact Gp|]. split; [exact I|]. split; [constructor|]. left. reflexivity. }
    rewrite Hrun. cbn [bind]. eexists. reflexivity.
Qed.

Lemma stress_scenario_returns principal tenor_months rate_structure repayment_method
    grace_principal_months fee_structure prepayment_info horizon_months bump :
  exists summary,
    stress_scenario principal tenor_months rate_structure repayment_method
      grace_principal_months fee_structure prepayment_info horizon_months bump
    = Return summary.
Proof.
  destruct (generate_returns principal tenor_months rate_structure repayment_method
              grace_principal_months 0 fee_structure prepayment_info bump)
    as [schedule Hs].
  destruct (stress_scenario_total_interest _ _ _ _ _ _ _ horizon_months _ _ Hs)
    as (summary & H & _).
  exists summary. exact H.
Qed.

Lemma stress_test_returns principal tenor_months rate_structure repayment_method
    grace_principal_months fee_structure prepayment_info horizon_months :
  exists base plus2 plus4,
    stress_test_scenarios principal tenor_months rate_structure repayment_method
      grace_principal_months fee_structure prepayment_info horizon_months
    = Return [("+0%"%string, base); ("+2%"%string, plus2); ("+4%"%string, plus4)].
Proof.
  unfold stress_test_scenarios, scenarios. cbn [run_scenarios].
  destruct (stress_scenario_returns principal tenor_months rate_structure
              repayment_method grace_principal_months fee_structure prepayment_info
              horizon_months 0.0) as [base ->].
  destruct (stress_scenario_returns principal tenor_months rate_structure
              repayment_method grace_principal_months fee_structure prepayment_info
              horizon_months 0.02) as [plus2 ->].
  destruct (stress_scenario_returns principal tenor_months rate_structure
              repayment_method grace_principal_months fee_structure prepayment_info
              horizon_months 0.04) as [plus4 ->].
  cbn [bind]. eexists _, _, _. reflexivity.
Qed.

(** Whatever the loan, [stress_test_scenarios] raises no [ZeroDivisionError]:
    it returns one summary under each of the keys "+0%", "+2%" and "+4%",
    and no other key is present. *)
Theorem stress_test_never_raises
    (principal : Q) (tenor_months : Z) (rate_structure : RateStructure.t)
    (repayment_method : string) (grace_principal_months : Z)
    (fee_structure : option FeeStructure.t) (prepayment_info : option PrepaymentInfo.t)
    (horizon_months : option Z) :
  exists results base plus2 plus4,
    stress_test_scenarios principal tenor_months rate_structure repayment_method
      grace_principal_months fee_structure prepayment_info horizon_months
    = Return results
    /\ scenario_get results "+0%" = Some base
    /\ scenario_get results "+2%" = Some plus2
    /\ scenario_get results "+4%" = Some plus4
    /\ (forall key,
          key <> "+0%"%string -> key <> "+2%"%string -> key <> "+4%"%string ->
          scenario_get results key = None).
Proof.
  destruct (stress_test_returns principal tenor_months rate_structure repayment_method
              grace_principal_months fee_structure prepayment_info horizon_months)
    as (base & plus2 & plus4 & H).
  eexists _, base, plus2, plus4. split; [exact H|].
  split; [reflexivity|]. split; [reflexivity|]. split; [reflexivity|].
  intros key H0 H2 H4. cbn [scenario_get].
  destruct (String.eqb_spec "+0%" key) as [E|_]; [congruence|].
  destruct (String.eqb_spec "+2%" key) as [E|_]; [congruence|].
  destruct (String.eqb_spec "+4%" key) as [E|_]; [congruence|].
  reflexivity.
Qed.

(** ** Fees *)

(** The fee charged on a prepayment is the balance times the percentage that
    [_get_prepay_fee_at_month] reads off the same tiers: both walk the
    schedule in order and stop at the first tier that covers the month. *)
Theorem prepayment_fee_follows_the_tier (remaining_balance : Q) (month : Z)
    (prepayment_schedule : list PrepaymentTier.t) :
  _calculate_prepayment_fee remaining_balance month prepayment_schedule
  == remaining_balance * (_get_prepay_fee_at_month prepayment_schedule month / 100).
Proof.
  induction prepayment_schedule as [|tier rest IH].
  - cbn. field.
  - cbn [_calculate_prepayment_fee _get_prepay_fee_at_month].
    destruct (tier_covers tier month); [|exact IH].
    unfold getQ. reflexivity.
Qed.

(** The upfront fees never go down when the principal goes up, as long as the
    two percentages are not negative; they are not negative when no
    parameter of the fee structure and no principal is. *)
Theorem upfront_fees_grow_with_principal (p1 p2 : Q) (fee_structure : FeeStructure.t) :
  0 <= FeeStructure.origination_fee_pct fee_structure ->
  0 <= FeeStructure.disbursement_fee_pct fee_structure ->
  p1 <= p2 ->
  _calculate_upfront_fees p1 fee_structure <= _calculate_upfront_fees p2 fee_structure
  /\ (0 <= p1 ->
      0 <= FeeStructure.origination_min_vnd fee_structure ->
      0 <= FeeStructure.appraisal_fee_vnd fee_structure ->
      0 <= FeeStructure.disbursement_fee_vnd fee_structure ->
      match FeeStructure.origination_max_vnd fee_structure with
      | Some cap => 0 <= cap
      | None => True
      end ->
      0 <= _calculate_upfront_fees p1 fee_structure).
Proof.
  intros Ho Hd Hp. unfold _calculate_upfront_fees. cbv zeta.
  set (o := FeeStructure.origination_fee_pct fee_structure) in *.
  set (d := FeeStructure.disbursement_fee_pct fee_structure) in *.
  assert (Ho1 : p1 * (o / 100) <= p2 * (o / 100)) by (apply Qmult_le_compat_r; qlra).
  assert (Hd1 : p1 * (d / 100) <= p2 * (d / 100)) by (apply Qmult_le_compat_r; qlra).
  split.
  - destruct (FeeStructure.origination_max_vnd fee_structure); qmm; lra.
  - intros H1 Hmin Ha Hdf Hcap.
    assert (0 <= p1 * (o / 100)) by (apply Qmult_le_0_compat; qlra).
    assert (0 <= p1 * (d / 100)) by (apply Qmult_le_0_compat; qlra).
    destruct (FeeStructure.origination_max_vnd fee_structure); qmm; lra.
Qed.

Lemma upfront_fees_grow_with_principal_witness :
  _calculate_upfront_fees 1000 (FeeStructure.mk 1 5 (Some 20) 2 3 0.5 0 0 0 "on_balance" 0 [])
  <= _calculate_upfront_fees 5000
       (FeeStructure.mk 1 5 (Some 20) 2 3 0.5 0 0 0 "on_balance" 0 [])
  /\ 0 <= _calculate_upfront_fees 1000
            (FeeStructure.mk 1 5 (Some 20) 2 3 0.5 0 0 0 "on_balance" 0 []).
Proof.
  destruct (upfront_fees_grow_with_principal 1000 5000
              (FeeStructure.mk 1 5 (Some 20) 2 3 0.5 0 0 0 "on_balance" 0 []))
    as [H1 H2]; [cbn; lra | cbn; lra | lra |].
  split; [exact H1|]. apply H2; cbn; lra.
Defined.

(** The monthly insurance never goes down when the balance goes up, whatever
    the fee structure, and is not negative on a balance that is not. *)
Theorem monthly_insurance_grows_with_balance (b1 b2 : Q) (fee_structure : FeeStructure.t) :
  b1 <= b2 ->
  _calculate_monthly_insurance b1 fee_structure
  <= _calculate_monthly_insurance b2 fee_structure
  /\ (0 <= b1 -> 0 <= _calculate_monthly_insurance b1 fee_structure).
Proof.
  intros Hb. split; [|apply monthly_insurance_not_negative].
  unfold _calculate_monthly_insurance.
  destruct (Py.ltb 0 (FeeStructure.insurance_vnd fee_structure)); [lra|].
  destruct (Py.ltb 0 (FeeStructure.insurance_annual_pct fee_structure)) eqn:A; [|lra].
  apply ltb_true in A.
  destruct (String.eqb _ _ && Py.ltb 0 (FeeStructure.property_value_vnd fee_structure));
    [lra|].
  qconst. nra.
Qed.

Lemma monthly_insurance_grows_with_balance_witness :
  _calculate_monthly_insurance 100 (FeeStructure.mk 0 0 None 0 0 0 0 1.2 0 "on_balance" 0 [])
  <= _calculate_monthly_insurance 200
       (FeeStructure.mk 0 0 None 0 0 0 0 1.2 0 "on_balance" 0 [])
  /\ 0 <= _calculate_monthly_insurance 100
            (FeeStructure.mk 0 0 None 0 0 0 0 1.2 0 "on_balance" 0 []).
Proof.
  destruct (monthly_insurance_grows_with_balance 100 200
              (FeeStructure.mk 0 0 None 0 0 0 0 1.2 0 "on_balance" 0 []))
    as [H1 H2]; [lra|].
  split; [exact H1|]. apply H2. lra.
Defined.

(** ** The annuity payment *)

Lemma geometric_closed m k :
  0 <= m -> m * geometric (1 + m) k == (1 + m) ^ Z.of_nat k - 1.
Proof.
  intros Hm. induction k as [|k IH].
  - change ((1 + m) ^ Z.of_nat 0) with 1. cbn [geometric]. lra.
  - cbn [geometric]. rewrite power_succ by lra.
    set (f := (1 + m) ^ Z.of_nat k) in *. set (h := geometric (1 + m) k) in *.
    lra.
Qed.

(** For [0 <= m1 <= m2] the sums [h1] and [h2] of the powers of [1 + m1] and
    [1 + m2] satisfy [h1 <= h2] and [h2 - h1 <= (m2 - m1) * h1 * h2]. *)
Lemma geometric_gap m1 m2 k :
  0 <= m1 -> m1 <= m2 ->
  inject_Z (Z.of_nat k) <= geometric (1 + m1) k
  /\ geometric (1 + m1) k <= geometric (1 + m2) k
  /\ geometric (1 + m2) k - geometric (1 + m1) k
     <= (m2 - m1) * (geometric (1 + m1) k * geometric (1 + m2) k).
Proof.
  intros H1 H2. induction k as [|k IH].
  - cbn [geometric]. change (inject_Z (Z.of_nat 0)) with 0. lra.
  - destruct IH as (Hk & Hle & Hgap). cbn [geometric].
    pose proof (geometric_closed m1 k H1) as C1.
    pose proof (geometric_closed m2 k ltac:(lra)) as C2.
    rewrite Nat2Z.inj_succ. unfold Z.succ. rewrite inject_Z_plus.
    change (inject_Z 1) with 1.
    assert (Hq : 0 <= inject_Z (Z.of_nat k)).
    { change 0 with (inject_Z 0). rewrite <- Zle_Qle. lia. }
    set (q := inject_Z (Z.of_nat k)) in *.
    set (h1 := geometric (1 + m1) k) in *. set (h2 := geometric (1 + m2) k) in *.
    set (f1 := (1 + m1) ^ Z.of_nat k) in *. set (f2 := (1 + m2) ^ Z.of_nat k) in *.
    assert (E1 : f1 == 1 + m1 * h1) by lra.
    assert (E2 : f2 == 1 + m2 * h2) by lra.
    assert (P1 : 0 <= m1 * h1) by (apply Qmult_le_0_compat; lra).
    assert (P2 : 0 <= m2 * h2) by (apply Qmult_le_0_compat; lra).
    assert (P12 : m1 * h1 <= m2 * h2).
    { assert (m1 * h1 <= m1 * h2) by nra. assert (m1 * h2 <= m2 * h2) by nra. lra. }
    assert (Hh : 0 <= h1 * h2) by (apply Qmult_le_0_compat; lra).
    split; [lra|]. split; [lra|].
    rewrite E1, E2.
    (* h2 - h1 + (m2 h2 - m1 h1) <= (m2 - m1) (h1 + f1) (h2 + f2) *)
    assert (A : m2 * h2 - m1 * h1 <= (m2 - m1) * (h1 * (1 + m2 * h2))).
    { assert (m2 * (h2 - h1) <= m2 * ((m2 - m1) * (h1 * h2)))
        by (set (d := (m2 - m1) * (h1 * h2)) in *; nra).
      lra. }
    assert (B : 0 <= (m2 - m1) * ((1 + m1 * h1) * h2 + (1 + m1 * h1) * (1 + m2 * h2))).
    { apply Qmult_le_0_compat; [lra|].
      assert (0 <= (1 + m1 * h1) * h2) by (apply Qmult_le_0_compat; lra).
      assert (0 <= (1 + m1 * h1) * (1 + m2 * h2)) by (apply Qmult_le_0_compat; lra).
      lra. }
    lra.
Qed.

Lemma geometric_ext x y k : x == y -> geometric x k == geometric y k.
Proof.
  intros E. induction k as [|k IH]; [reflexivity|].
  cbn [geometric]. rewrite IH, E. reflexivity.
Qed.

Lemma geometric_one k : geometric 1 k == inject_Z (Z.of_nat k).
Proof.
  induction k as [|k IH]; [reflexivity|].
  cbn [geometric]. rewrite IH, Qpower_1.
  rewrite Nat2Z.inj_succ. unfold Z.succ. rewrite inject_Z_plus. reflexivity.
Qed.

(** The annuity payment times the sum [h] of the powers of [1 + m] up to
    [n - 1] is [principal * (1 + m * h)], [m] being the monthly rate. *)
Lemma annuity_value_geometric p r n m :
  0 < p -> (1 <= n)%Z -> m == Qmax r 0 / 12 ->
  0 <= m
  /\ annuity_value p r n * geometric (1 + m) (Z.to_nat n)
     == p * (1 + m * geometric (1 + m) (Z.to_nat n)).
Proof.
  intros Hp Hn Em.
  assert (Hk : n = Z.of_nat (Z.to_nat n)) by lia.
  destruct (annuity_value_cases p r n Hp Hn) as [[Hr E]|(Hr & F & E)].
  - assert (E0 : m == 0).
    { rewrite Em. destruct (monthly_rate_cases r) as [[_ H]|[H _]]; [exact H | lra]. }
    split; [lra|].
    rewrite (geometric_ext (1 + m) 1) by lra.
    rewrite geometric_one, <- Hk, E, E0. field.
    assert (0 < inject_Z n) by (apply inject_Z_pos; lia). lra.
  - assert (E0 : m == r / 12).
    { rewrite Em. destruct (monthly_rate_cases r) as [[H _]|[_ H]]; [lra | exact H]. }
    assert (Hm : 0 < r / 12) by qlra.
    split; [lra|].
    rewrite (geometric_ext (1 + m) (1 + r / 12)) by lra. rewrite E0.
    pose proof (geometric_closed (r / 12) (Z.to_nat n) ltac:(lra)) as C.
    rewrite <- Hk in C.
    set (v := annuity_value p r n) in *. set (h := geometric (1 + r / 12) (Z.to_nat n)) in *.
    set (f := (1 + r / 12) ^ n) in *. set (x := r / 12) in *.
    assert (E2 : v * (x * h) == p * x * (1 + x * h)) by (rewrite C; lra).
    assert (E3 : x * (v * h - p * (1 + x * h)) == 0) by lra.
    apply Qmult_integral in E3. destruct E3 as [E3|E3]; lra.
Qed.

(** In exact arithmetic, for a positive principal over [n >= 1] months the
    annuity payment is returned without error; it is at least the
    straight-line instalment [principal / n], more than one month of interest
    on the principal, and at most the principal with one month of interest.
    On doubles the first bound is lost for rates near the rounding unit, see
    [tiny_rate_annuity_on_doubles]. *)
Theorem annuity_payment_bounds (principal annual_rate : Q) (months : Z) :
  0 < principal -> (1 <= months)%Z ->
  exists payment,
    annuity_payment principal annual_rate months = Return payment
    /\ principal / inject_Z months <= payment
    /\ principal * (Qmax annual_rate 0 / 12) < payment
    /\ payment <= principal * (1 + Qmax annual_rate 0 / 12).
Proof.
  intros Hp Hn. rewrite annuity_payment_value. eexists. split; [reflexivity|].
  destruct (annuity_value_geometric principal annual_rate months
              (Qmax annual_rate 0 / 12) Hp Hn ltac:(reflexivity)) as [Hm E].
  set (m := Qmax annual_rate 0 / 12) in *.
  set (v := annuity_value principal annual_rate months) in *.
  assert (Hk : months = Z.of_nat (Z.to_nat months)) by lia.
  destruct (geometric_gap 0 m (Z.to_nat months) ltac:(lra) Hm) as (Hq & Hle & _).
  destruct (geometric_gap m m (Z.to_nat months) Hm ltac:(lra)) as (Hq' & _ & _).
  rewrite <- Hk in Hq, Hq'.
  assert (H1 : 1 <= inject_Z months).
  { change 1 with (inject_Z 1). rewrite <- Zle_Qle. exact Hn. }
  set (h := geometric (1 + m) (Z.to_nat months)) in *.
  assert (Hh : 1 <= h) by lra.
  assert (Hv : v == principal * (1 + m * h) / h).
  { rewrite <- E. field. lra. }
  assert (Hmh : 0 <= m * h) by (apply Qmult_le_0_compat; lra).
  (* h <= n * (1 + m h): every power is at most the highest *)
  assert (Hpow : h <= inject_Z months * (1 + m * h)).
  { pose proof (geometric_closed m (Z.to_nat months) Hm) as C. fold h in C.
    assert (G : forall k, geometric (1 + m) k
                          <= inject_Z (Z.of_nat k) * (1 + m) ^ Z.of_nat k).
    { induction k as [|k IH].
      - cbn [geometric]. change (inject_Z (Z.of_nat 0)) with 0. lra.
      - cbn [geometric]. rewrite power_succ by lra.
        rewrite Nat2Z.inj_succ. unfold Z.succ. rewrite inject_Z_plus.
        change (inject_Z 1) with 1.
        assert (0 <= inject_Z (Z.of_nat k)).
        { change 0 with (inject_Z 0). rewrite <- Zle_Qle. lia. }
        assert (0 < (1 + m) ^ Z.of_nat k) by (apply Qpower_0_lt; lra).
        set (q := inject_Z (Z.of_nat k)) in *. set (f := (1 + m) ^ Z.of_nat k) in *.
        assert (0 <= q * f) by (apply Qmult_le_0_compat; lra).
        assert (0 <= q * f * m) by (apply Qmult_le_0_compat; lra).
        assert (0 <= f * m) by (apply Qmult_le_0_compat; lra).
        lra. }
    specialize (G (Z.to_nat months)). fold h in G.
    set (f := (1 + m) ^ Z.of_nat (Z.to_nat months)) in *.
    assert (Hf : f == 1 + m * h) by lra.
    rewrite <- Hk in G. rewrite Hf in G. exact G. }
  split.
  { rewrite Hv. apply div_le_cross; [lra | lra|].
    assert (principal * h <= principal * (inject_Z months * (1 + m * h)))
      by (apply Qmult_le_l; lra).
    lra. }
  split.
  { rewrite Hv. apply Qlt_shift_div_l; [lra|].
    assert (principal * m * h == principal * (m * h)) by lra. lra. }
  rewrite Hv. apply Qle_shift_div_r; [lra|].
  assert (principal * 1 <= principal * h) by (apply Qmult_le_l; lra).
  assert (principal * (m * h) == principal * m * h) by lra.
  lra.
Qed.

Lemma annuity_payment_bounds_witness :
  exists payment,
    annuity_payment 1200 0.12 12 = Return payment
    /\ 1200 / inject_Z 12 <= payment
    /\ 1200 * (Qmax 0.12 0 / 12) < payment
    /\ payment <= 1200 * (1 + Qmax 0.12 0 / 12).
Proof.
  apply (annuity_payment_bounds 1200 0.12 12); [lra | lia].
Defined.

(** In exact arithmetic a higher annual rate never lowers the annuity
    payment.  On doubles this fails between rate 0 and a rate near the
    rounding unit, see [tiny_rate_annuity_on_doubles]. *)
Theorem annuity_payment_grows_with_rate (principal r1 r2 : Q) (months : Z) :
  r1 <= r2 ->
  exists p1 p2,
    annuity_payment principal r1 months = Return p1
    /\ annuity_payment principal r2 months = Return p2
    /\ p1 <= p2.
Proof.
  intros Hr. rewrite !annuity_payment_value. eexists _, _.
  split; [reflexivity|]. split; [reflexivity|].
  destruct (Qlt_le_dec 0 principal) as [Hp|Hp].
  2:{ unfold annuity_value.
      replace (Py.leb principal 0) with true by (symmetry; apply leb_true; exact Hp).
      cbn [orb]. lra. }
  destruct (Z_lt_le_dec months 1) as [Hn|Hn].
  { unfold annuity_value.
    replace (months <=? 0)%Z with true by (symmetry; apply Z.leb_le; lia).
    rewrite !orb_true_r. lra. }
  destruct (annuity_value_geometric principal r1 months (Qmax r1 0 / 12) Hp Hn
              ltac:(reflexivity)) as [Hm1 E1].
  destruct (annuity_value_geometric principal r2 months (Qmax r2 0 / 12) Hp Hn
              ltac:(reflexivity)) as [Hm2 E2].
  assert (Hm : Qmax r1 0 / 12 <= Qmax r2 0 / 12).
  { assert (Qmax r1 0 <= Qmax r2 0) by (qmm; lra). qlra. }
  set (m1 := Qmax r1 0 / 12) in *. set (m2 := Qmax r2 0 / 12) in *.
  destruct (geometric_gap m1 m2 (Z.to_nat months) Hm1 Hm) as (Hq & Hle & Hgap).
  assert (H1 : 1 <= inject_Z (Z.of_nat (Z.to_nat months))).
  { change 1 with (inject_Z 1). rewrite <- Zle_Qle. lia. }
  set (h1 := geometric (1 + m1) (Z.to_nat months)) in *.
  set (h2 := geometric (1 + m2) (Z.to_nat months)) in *.
  set (v1 := annuity_value principal r1 months) in *.
  set (v2 := annuity_value principal r2 months) in *.
  assert (Hv1 : v1 == principal * (1 + m1 * h1) / h1) by (rewrite <- E1; field; lra).
  assert (Hv2 : v2 == principal * (1 + m2 * h2) / h2) by (rewrite <- E2; field; lra).
  rewrite Hv1, Hv2. apply div_le_cross; [lra | lra|].
  (* (1 + m1 h1) h2 <= (1 + m2 h2) h1, that is h2 - h1 <= (m2 - m1) h1 h2 *)
  assert (principal * ((1 + m1 * h1) * h2) <= principal * ((1 + m2 * h2) * h1))
    by (apply Qmult_le_l; lra).
  lra.
Qed.

Lemma annuity_payment_grows_with_rate_witness :
  exists p1 p2,
    annuity_payment 1200 0.07 12 = Return p1
    /\ annuity_payment 1200 0.09 12 = Return p2
    /\ p1 <= p2.
Proof.
  apply (annuity_payment_grows_with_rate 1200 0.07 0.09 12). lra.
Defined.

Section RoundedAnnuity.

Import PrimFloat.
Local Open Scope float_scope.

(** On doubles, at an annual rate of 1e-15 the factor [(1 + m) ** 12] is
    exactly 1 and [annuity_payment] divides by [factor - 1 = 0]; at 1e-14 the
    payment on 1000 over 12 months comes out at 78.19, below the 83.33 of
    rate 0. *)
Lemma tiny_rate_annuity_on_doubles :
  Double.annuity_payment 1000 1e-15 12 = Raise ZeroDivisionError
  /\ Double.annuity_payment 1000 0 12 = Return 83.333333333333329
  /\ Double.annuity_payment 1000 1e-14 12 = Return 78.187493530738607.
Proof. repeat split; vm_compute; reflexivity. Qed.

End RoundedAnnuity.

(** ** Legacy schedules and summaries *)

Lemma non_increasing_cons x xs :
  non_increasing xs -> Forall (fun y => y <= x) xs -> non_increasing (x :: xs).
Proof.
  intros Hs Hf. destruct xs as [|y ys]; [exact I|].
  split; [inversion Hf; assumption | exact Hs].
Qed.

(** The payments the loop appends: as many as iterations, each between
    the monthly principal and the monthly principal plus interest on the
    opening balance, never increasing. *)
Lemma equal_principal_loop_shape monthly_principal monthly_rate :
  0 <= monthly_principal -> 0 <= monthly_rate ->
  forall iterations remaining payments,
    0 <= remaining ->
    exists appended,
      equal_principal_loop iterations monthly_principal monthly_rate remaining payments
      = payments ++ appended
      /\ List.length appended = iterations
      /\ Forall (fun x => monthly_principal <= x
                          /\ x <= monthly_principal + remaining * monthly_rate) appended
      /\ non_increasing appended
      /\ (iterations <> O ->
          hd 0 appended = monthly_principal + remaining * monthly_rate).
Proof.
  intros Hp Hm. induction iterations as [|k IH]; intros remaining payments Hr.
  - exists []. cbn. split; [rewrite app_nil_r; reflexivity|].
    split; [reflexivity|]. split; [constructor|]. split; [exact I | congruence].
  - cbn [equal_principal_loop]. cbv zeta.
    assert (Hr' : 0 <= Qmax 0 (remaining - monthly_principal)) by (qmm; lra).
    destruct (IH (Qmax 0 (remaining - monthly_principal))
                (payments ++ [monthly_principal + remaining * monthly_rate]) Hr')
      as (rest & E & Hlen & Hall & Hs & _).
    exists ((monthly_principal + remaining * monthly_rate) :: rest).
    split; [rewrite E, <- app_assoc; reflexivity|].
    split; [cbn [List.length]; lia|].
    assert (Hi : 0 <= remaining * monthly_rate) by (apply Qmult_le_0_compat; assumption).
    assert (Hle : Qmax 0 (remaining - monthly_principal) * monthly_rate
                  <= remaining * monthly_rate).
    { apply Qmult_le_compat_r; [qmm; lra | exact Hm]. }
    assert (Hall' : Forall (fun x => monthly_principal <= x
                                     /\ x <= monthly_principal + remaining * monthly_rate)
                      rest).
    { eapply Forall_impl; [|exact Hall]. cbn beta. intros x [H1 H2]. split; lra. }
    split; [constructor; [split; lra | exact Hall']|].
    split; [|intros _; reflexivity].
    apply non_increasing_cons; [exact Hs|].
    eapply Forall_impl; [|exact Hall']. cbn beta. intros x [_ H2]. exact H2.
Qed.

(** For a positive principal over [months >= 1] months the legacy
    equal-principal schedule is returned without error; it has exactly
    [months] payments, they never increase, none is below the monthly
    principal, and the first is the payment [equal_principal_payment] gives
    on the whole principal. *)
Theorem equal_principal_schedule_shape (principal annual_rate : Q) (months : Z) :
  0 < principal -> (1 <= months)%Z ->
  exists payments first,
    equal_principal_schedule principal annual_rate months = Return payments
    /\ Z.of_nat (List.length payments) = months
    /\ non_increasing payments
    /\ Forall (fun x => principal / inject_Z months <= x) payments
    /\ equal_principal_payment principal principal annual_rate months
       = Return (principal / inject_Z months,
                 principal * (Qmax annual_rate 0 / 12), first)
    /\ hd 0 payments = first.
Proof.
  intros Hp Hn. unfold equal_principal_schedule, equal_principal_payment.
  replace (Py.leb principal 0 || (months <=? 0)%Z) with false.
  2:{ symmetry. apply orb_false_iff. split; [apply leb_false; exact Hp | apply Z.leb_gt; lia]. }
  assert (Hq : 0 < inject_Z months) by (apply inject_Z_pos; lia).
  rewrite truediv_nonzero by lra. cbn [bind]. cbv zeta.
  assert (Hmp : 0 <= principal / inject_Z months)
    by (apply Qle_shift_div_l; [exact Hq | lra]).
  assert (Hm : 0 <= Qmax annual_rate 0 / 12) by (qmm; qlra).
  destruct (equal_principal_loop_shape _ _ Hmp Hm (Z.to_nat months) principal []
              ltac:(lra)) as (appended & E & Hlen & Hall & Hs & Hhd).
  cbn [app] in E. rewrite E.
  eexists _, _. split; [reflexivity|].
  split; [lia|]. split; [exact Hs|].
  split; [eapply Forall_impl; [|exact Hall]; cbn beta; intros x [H _]; exact H|].
  split; [reflexivity|]. apply Hhd. lia.
Qed.

Lemma equal_principal_schedule_shape_witness :
  exists payments first,
    equal_principal_schedule 1200 0.12 12 = Return payments
    /\ Z.of_nat (List.length payments) = 12%Z
    /\ non_increasing payments
    /\ Forall (fun x => 1200 / inject_Z 12 <= x) payments
    /\ equal_principal_payment 1200 1200 0.12 12
       = Return (1200 / inject_Z 12, 1200 * (Qmax 0.12 0 / 12), first)
    /\ hd 0 payments = first.
Proof.
  apply (equal_principal_schedule_shape 1200 0.12 12); [lra | lia].
Defined.

Lemma sum_not_negative xs : Forall (fun x => 0 <= x) xs -> 0 <= Py.sum xs.
Proof.
  induction 1 as [|x xs Hx _ IH]; [unfold Py.sum; cbn; lra|].
  rewrite sum_cons. lra.
Qed.

Lemma sum_firstn_not_negative xs :
  Forall (fun x => 0 <= x) xs -> forall b, 0 <= Py.sum (firstn b xs).
Proof.
  induction 1 as [|x xs Hx _ IH]; intros b.
  - rewrite firstn_nil. unfold Py.sum. cbn. lra.
  - destruct b as [|b]; [unfold Py.sum; cbn; lra|].
    cbn [firstn]. rewrite sum_cons. specialize (IH b). lra.
Qed.

Lemma sum_firstn_order xs :
  Forall (fun x => 0 <= x) xs ->
  forall a b, (a <= b)%nat -> Py.sum (firstn a xs) <= Py.sum (firstn b xs).
Proof.
  induction 1 as [|x xs Hx Hxs IH]; intros a b Hab.
  - rewrite !firstn_nil. lra.
  - destruct a as [|a].
    + change (Py.sum (firstn 0 (x :: xs))) with 0.
      apply sum_firstn_not_negative. constructor; assumption.
    + destruct b as [|b]; [lia|]. cbn [firstn]. rewrite !sum_cons.
      specialize (IH a b ltac:(lia)). lra.
Qed.

(** On payments that are not negative the summary is ordered:
    [year1_total <= total_3y <= total_5y <= sum(payments)]; the three totals
    are the whole sum when there are at most 12 payments; [month1_payment] is
    the first payment.  An empty list gives zeros. *)
Theorem summarize_costs_is_ordered (payments : list Q) :
  Forall (fun x => 0 <= x) payments ->
  EstimatedCosts.year1_total (summarize_costs payments)
  <= EstimatedCosts.total_3y (summarize_costs payments)
  /\ EstimatedCosts.total_3y (summarize_costs payments)
     <= EstimatedCosts.total_5y (summarize_costs payments)
  /\ EstimatedCosts.total_5y (summarize_costs payments) <= Py.sum payments
  /\ ((List.length payments <= 12)%nat ->
      EstimatedCosts.year1_total (summarize_costs payments) == Py.sum payments
      /\ EstimatedCosts.total_5y (summarize_costs payments) == Py.sum payments)
  /\ EstimatedCosts.month1_payment (summarize_costs payments) = hd 0.0 payments.
Proof.
  intros Hpos. destruct payments as [|first rest].
  - cbn. unfold Py.sum. cbn. repeat split; try lra; try reflexivity.
  - cbn [summarize_costs EstimatedCosts.year1_total EstimatedCosts.total_3y
         EstimatedCosts.total_5y EstimatedCosts.month1_payment hd].
    set (ps := first :: rest) in *. unfold partial_total.
    assert (Hall : Py.sum (firstn (List.length ps) ps) = Py.sum ps)
      by (rewrite firstn_all; reflexivity).
    split; [apply sum_firstn_order; [exact Hpos | lia]|].
    split; [apply sum_firstn_order; [exact Hpos | lia]|].
    split; [rewrite <- Hall; apply sum_firstn_order; [exact Hpos | lia]|].
    split; [|reflexivity].
    intros Hlen.
    replace (Nat.min 12 (List.length ps)) with (List.length ps) by lia.
    replace (Nat.min 60 (List.length ps)) with (List.length ps) by lia.
    rewrite Hall. split; reflexivity.
Qed.

Lemma summarize_costs_is_ordered_witness :
  EstimatedCosts.year1_total (summarize_costs [100; 90; 80])
  <= EstimatedCosts.total_3y (summarize_costs [100; 90; 80])
  /\ EstimatedCosts.total_3y (summarize_costs [100; 90; 80])
     <= EstimatedCosts.total_5y (summarize_costs [100; 90; 80])
  /\ EstimatedCosts.total_5y (summarize_costs [100; 90; 80]) <= Py.sum [100; 90; 80]
  /\ ((List.length [100; 90; 80] <= 12)%nat ->
      EstimatedCosts.year1_total (summarize_costs [100; 90; 80]) == Py.sum [100; 90; 80]
      /\ EstimatedCosts.total_5y (summarize_costs [100; 90; 80]) == Py.sum [100; 90; 80])
  /\ EstimatedCosts.month1_payment (summarize_costs [100; 90; 80]) = hd 0.0 [100; 90; 80].
Proof.
  apply (summarize_costs_is_ordered [100; 90; 80]).
  repeat constructor; lra.
Defined.

Lemma fold_max_upper rest :
  forall x, x <= fold_left Qmax rest x
            /\ Forall (fun y => y <= fold_left Qmax rest x) rest.
Proof.
  induction rest as [|y rest IH]; intros x.
  - cbn. split; [lra | constructor].
  - cbn [fold_left]. destruct (IH (Qmax x y)) as [H1 H2].
    pose proof (Q.le_max_l x y). pose proof (Q.le_max_r x y).
    split; [lra|]. constructor; [lra | exact H2].
Qed.

Lemma max_or_zero_upper xs : Forall (fun x => x <= max_or_zero xs) xs.
Proof.
  destruct xs as [|x rest]; [constructor|].
  cbn [max_or_zero]. destruct (fold_max_upper rest x) as [H1 H2].
  constructor; assumption.
Qed.

(** In exact arithmetic [cost_estimates_with_stress] raises no error, and
    the [stress_max_monthly] it reports is at least every payment of the
    schedule it is computed from, [month1_payment] included. *)
Theorem stress_max_monthly_covers_payments (principal : Q) (tenor_months : Z)
    (rate_fixed : Q) (rate_fixed_months : Z) (post_fixed_rate : Q) :
  exists schedule costs stress,
    generate_amortization_schedule principal tenor_months
      (RateStructure.mk (rate_fixed * 100) rate_fixed_months 0 (post_fixed_rate * 100))
      "annuity" 0 0 None None 0.0
    = Return schedule
    /\ cost_estimates_with_stress principal tenor_months rate_fixed rate_fixed_months
         post_fixed_rate
       = Return costs
    /\ EstimatedCosts.stress_max_monthly costs = Some stress
    /\ Forall (fun p => MonthlyPayment.payment p <= stress)
         (AmortizationSchedule.payments schedule)
    /\ EstimatedCosts.month1_payment costs <= stress.
Proof.
  unfold cost_estimates_with_stress. cbv zeta.
  destruct (generate_returns principal tenor_months
              (RateStructure.mk (rate_fixed * 100) rate_fixed_months 0
                 (post_fixed_rate * 100))
              "annuity" 0 0 None None 0.0) as [schedule Hs].
  rewrite Hs. cbn [bind].
  set (entries := AmortizationSchedule.payments schedule).
  set (payments := map MonthlyPayment.payment entries).
  pose proof (max_or_zero_upper payments) as Hmax.
  assert (Hstress :
    exists stress,
      (if (0 <? Z.max 0 (tenor_months - Z.max rate_fixed_months 0))%Z
          && negb (match entries with [] => true | _ => false end)
       then
         if Py.ltb 0
              (match find (fun p => (MonthlyPayment.month p =? rate_fixed_months)%Z)
                       entries with
               | Some p => MonthlyPayment.remaining_balance p
               | None => principal
               end)
         then
           stress_plus_one <-
             annuity_payment
               (match find (fun p => (MonthlyPayment.month p =? rate_fixed_months)%Z)
                        entries with
                | Some p => MonthlyPayment.remaining_balance p
                | None => principal
                end)
               (post_fixed_rate + 0.01)
               (Z.max 0 (tenor_months - Z.max rate_fixed_months 0)) ;;
           stress_plus_two <-
             annuity_payment
               (match find (fun p => (MonthlyPayment.month p =? rate_fixed_months)%Z)
                        entries with
                | Some p => MonthlyPayment.remaining_balance p
                | None => principal
                end)
               (post_fixed_rate + 0.02)
               (Z.max 0 (tenor_months - Z.max rate_fixed_months 0)) ;;
           Return (Qmax (Qmax (max_or_zero payments) stress_plus_one) stress_plus_two)
         else Return (max_or_zero payments)
       else Return (max_or_zero payments))
      = Return stress
      /\ max_or_zero payments <= stress).
  { destruct (_ && _); [|eexists; split; [reflexivity | lra]].
    destruct (Py.ltb 0 _); [|eexists; split; [reflexivity | lra]].
    rewrite !annuity_payment_value. cbn [bind]. eexists. split; [reflexivity|].
    qmm. lra. }
  destruct Hstress as (stress & -> & Hle). cbn [bind].
  exists schedule. eexists _, stress. split; [reflexivity|]. split; [reflexivity|].
  cbn [EstimatedCosts.stress_max_monthly EstimatedCosts.month1_payment].
  split; [reflexivity|].
  assert (Hall : Forall (fun x => x <= stress) payments).
  { eapply Forall_impl; [|exact Hmax]. cbn beta. intros x Hx. lra. }
  split.
  - unfold payments in Hall. rewrite Forall_map in Hall. exact Hall.
  - destruct payments as [|first rest] eqn:E.
    + cbn [summarize_costs EstimatedCosts.month1_payment].
      cbn [max_or_zero] in Hle. exact Hle.
    + cbn [summarize_costs EstimatedCosts.month1_payment].
      inversion Hall; assumption.
Qed.

(** ** Balances within the principal *)

(** The balances the loop leaves from month [from] on lie between 0 and the
    opening balance. *)
Lemma run_bounded tenor_months rate_structure repayment_method grace_principal_months
    grace_interest_months fee_structure prepayment_info scenario_bump n :
  forall from st,
    Z.to_nat (tenor_months + 1 - from) = n -> (1 <= from)%Z ->
    0 < Loop.remaining st ->
    exists st' entries,
      for_months tenor_months rate_structure repayment_method grace_principal_months
        grace_interest_months fee_structure prepayment_info scenario_bump
        (Py.range from (tenor_months + 1)) st = Return st'
      /\ Loop.payments st' = Loop.payments st ++ entries
      /\ Forall (fun p => 0 <= MonthlyPayment.remaining_balance p <= Loop.remaining st
                          /\ (from <= MonthlyPayment.month p)%Z) entries.
Proof.
  induction n as [|n IH]; intros from st Hn Hfrom HB.
  - rewrite range_nil by lia. exists st, []. cbn.
    split; [reflexivity|]. split; [rewrite app_nil_r; reflexivity | constructor].
  - rewrite range_cons by lia. cbn [for_months].
    destruct (loop_body_step tenor_months rate_structure repayment_method
                grace_principal_months grace_interest_months fee_structure
                prepayment_info scenario_bump from st)
      as (st1 & b & mp & Hb & Hp & Hmo & Hr & _ & Hc & _); [lia | exact HB |].
    rewrite Hb. cbn [bind fst snd]. destruct b.
    + exists st1, [mp]. split; [reflexivity|]. split; [exact Hp|].
      constructor; [split; [exact Hr | lia] | constructor].
    + destruct (Hc eq_refl) as [Hrem Hpos].
      destruct (IH (from + 1)%Z st1) as (st2 & entries & Hrun & Hp2 & Hall);
        [lia | lia | exact Hpos |].
      exists st2, (mp :: entries). split; [exact Hrun|].
      split; [rewrite Hp2, Hp, <- app_assoc; reflexivity|].
      constructor; [split; [exact Hr | lia]|].
      eapply Forall_impl; [|exact Hall]. cbn beta. intros p [H1 H2].
      rewrite Hrem in H1. split; [lra | lia].
Qed.

Lemma schedule_bounded principal tenor_months rate_structure repayment_method
    grace_principal_months grace_interest_months fee_structure prepayment_info
    scenario_bump :
  exists schedule,
    generate_amortization_schedule principal tenor_months rate_structure
      repayment_method grace_principal_months grace_interest_months fee_structure
      prepayment_info scenario_bump = Return schedule
    /\ Forall (fun p => 0 <= MonthlyPayment.remaining_balance p <= principal
                        /\ (1 <= MonthlyPayment.month p)%Z)
         (AmortizationSchedule.payments schedule).
Proof.
  unfold generate_amortization_schedule.
  destruct (Py.leb principal 0 || (tenor_months <=? 0)%Z) eqn:G.
  - eexists. split; [reflexivity | constructor].
  - apply orb_false_iff in G. destruct G as [Gp Gt].
    apply leb_false in Gp. apply Z.leb_gt in Gt.
    destruct (run_bounded tenor_months rate_structure repayment_method
                grace_principal_months grace_interest_months fee_structure
                prepayment_info scenario_bump (Z.to_nat (tenor_months + 1 - 1)) 1
                (initial_loop principal rate_structure fee_structure scenario_bump))
      as (st & entries & Hrun & Hp & Hall); [reflexivity | lia | exact Gp |].
    rewrite Hrun. cbn [bind]. eexists. split; [reflexivity|].
    cbn [AmortizationSchedule.payments]. cbn [initial_loop Loop.payments app] in Hp.
    rewrite Hp. exact Hall.
Qed.

(** In exact arithmetic [simulate_two_stage_annuity] raises no error.  For
    a positive principal the balance it reports after the fixed period lies
    between 0 and the principal, and it is the principal itself when there is
    no fixed period. *)
Theorem balance_after_fixed_period_is_bounded (principal : Q) (total_months : Z)
    (fixed_rate : Q) (fixed_months : Z) (post_fixed_rate : Q) :
  0 < principal ->
  exists payments remaining_after_fixed,
    simulate_two_stage_annuity principal total_months fixed_rate fixed_months
      post_fixed_rate
    = Return (payments, remaining_after_fixed)
    /\ 0 <= remaining_after_fixed <= principal
    /\ ((fixed_months <= 0)%Z -> remaining_after_fixed = principal).
Proof.
  intros Hp. unfold simulate_two_stage_annuity. cbv zeta.
  destruct (schedule_bounded principal total_months
              (RateStructure.mk (fixed_rate * 100) fixed_months 0 (post_fixed_rate * 100))
              "annuity" 0 0 None None 0.0) as (schedule & -> & Hall).
  cbn [bind]. eexists _, _. split; [reflexivity|].
  set (pick := fun (remaining_after_fixed : Q) (p : MonthlyPayment.t) =>
                 if (MonthlyPayment.month p <=? fixed_months)%Z
                 then MonthlyPayment.remaining_balance p else remaining_after_fixed).
  assert (G : forall entries acc,
             Forall (fun p => 0 <= MonthlyPayment.remaining_balance p <= principal
                              /\ (1 <= MonthlyPayment.month p)%Z) entries ->
             0 <= acc <= principal ->
             0 <= fold_left pick entries acc <= principal
             /\ ((fixed_months <= 0)%Z -> fold_left pick entries acc = acc)).
  { induction entries as [|p entries IH]; intros acc Hf Hacc.
    - cbn. split; [exact Hacc | reflexivity].
    - inversion Hf as [|? ? [Hb Hm] Hf']; subst. cbn [fold_left].
      assert (Hpick : 0 <= pick acc p <= principal).
      { unfold pick. destruct (MonthlyPayment.month p <=? fixed_months)%Z; assumption. }
      destruct (IH (pick acc p) Hf' Hpick) as [H1 H2].
      split; [exact H1|]. intros Hz. rewrite (H2 Hz). unfold pick.
      replace (MonthlyPayment.month p <=? fixed_months)%Z with false
        by (symmetry; apply Z.leb_gt; lia).
      reflexivity. }
  apply (G _ principal Hall). lra.
Qed.

Lemma balance_after_fixed_period_is_bounded_witness :
  exists payments remaining_after_fixed,
    simulate_two_stage_annuity 1200 3 0.12 1 0.1
    = Return (payments, remaining_after_fixed)
    /\ 0 <= remaining_after_fixed <= 1200
    /\ ((1 <= 0)%Z -> remaining_after_fixed = 1200).
Proof.
  apply (balance_after_fixed_period_is_bounded 1200 3 0.12 1 0.1). lra.
Defined.

(** ** The factor scores *)

Lemma cost_score_range scenario principal :
  exists score,
    _calculate_cost_score scenario principal = Return score /\ 0 <= score <= 100.
Proof.
  unfold _calculate_cost_score. destruct scenario as [scenario|].
  2:{ eexists. split; [reflexivity | lra]. }
  assert (Hratio : exists ratio,
             (if Py.ltb 0 principal
              then LoanCostSummary.total_cost_excluding_principal scenario // principal
              else Return 0) = Return ratio).
  { destruct (Py.ltb 0 principal) eqn:L; [|eexists; reflexivity].
    apply ltb_true in L. rewrite truediv_nonzero by lra. eexists. reflexivity. }
  destruct Hratio as [ratio ->]. cbn [bind]. eexists. split; [reflexivity|].
  match goal with
  | |- _ <= (clamp_0_100 ?a + clamp_0_100 ?b) / 2 <= _ =>
      pose proof (clamp_0_100_bounds a); pose proof (clamp_0_100_bounds b);
      set (x := clamp_0_100 a) in *; set (y := clamp_0_100 b) in *
  end.
  qlra.
Qed.

Lemma guarded_margin limit value :
  exists margin,
    (if Py.ltb 0 limit then (limit - value) // limit else Return 0) = Return margin.
Proof.
  destruct (Py.ltb 0 limit) eqn:L; [|eexists; reflexivity].
  apply ltb_true in L. rewrite truediv_nonzero by lra. eexists. reflexivity.
Qed.

Lemma approval_score_range product application metrics :
  exists score,
    _calculate_approval_score product application metrics = Return score
    /\ 0 <= score <= 100.
Proof.
  unfold _calculate_approval_score. cbv zeta.
  assert (H1 : exists s1,
             match truthyQ (LoanProduct.max_dsr product), Metrics.dsr metrics with
             | Some max_dsr, Some dsr =>
                 margin <- (if Py.ltb 0 max_dsr then (max_dsr - dsr) // max_dsr
                            else Return 0) ;;
                 Return (70.0 + margin * 15)
             | _, _ => Return 70.0
             end = Return s1).
  { destruct (truthyQ (LoanProduct.max_dsr product)) as [max_dsr|];
      [|eexists; reflexivity].
    destruct (Metrics.dsr metrics) as [dsr|]; [|eexists; reflexivity].
    destruct (guarded_margin max_dsr dsr) as [margin ->]. cbn [bind].
    eexists. reflexivity. }
  destruct H1 as [s1 ->]. cbn [bind].
  set (max_ltv := match truthyQ (LoanProduct.max_ltv product) with
                  | Some v => Some v
                  | None =>
                      match truthyQ (LoanProduct.max_ltv_pct product) with
                      | Some pct => Some (pct / 100)
                      | None => None
                      end
                  end).
  assert (H2 : exists s2,
             match truthyQ max_ltv, Metrics.ltv metrics with
             | Some max_ltv, Some ltv =>
                 margin <- (if Py.ltb 0 max_ltv then (max_ltv - ltv) // max_ltv
                            else Return 0) ;;
                 Return (s1 + margin * 10)
             | _, _ => Return s1
             end = Return s2).
  { destruct (truthyQ max_ltv) as [limit|]; [|eexists; reflexivity].
    destruct (Metrics.ltv metrics) as [ltv|]; [|eexists; reflexivity].
    destruct (guarded_margin limit ltv) as [margin ->]. cbn [bind].
    eexists. reflexivity. }
  destruct H2 as [s2 ->]. cbn [bind].
  eexists. split; [reflexivity | apply clamp_0_100_bounds].
Qed.

Lemma speed_score_range today product application :
  exists score,
    _calculate_speed_score today product application = Return score
    /\ 0 <= score <= 100.
Proof.
  unfold _calculate_speed_score. cbv zeta.
  destruct (Application.need_disbursement_by_date application) as [need_by|].
  2:{ eexists. split; [reflexivity|]. qmm. lra. }
  match goal with |- context [(?s <=? _)%Z] => set (sla_days := s) end.
  destruct (sla_days <=? need_by - today)%Z eqn:S.
  - apply Z.leb_le in S.
    destruct (0 <? need_by - today)%Z eqn:D.
    + apply Z.ltb_lt in D.
      assert (Hd : 0 < inject_Z (need_by - today)) by (apply inject_Z_pos; lia).
      rewrite truediv_nonzero by lra. cbn [bind].
      eexists. split; [reflexivity|].
      assert (0 <= inject_Z (need_by - today - sla_days)).
      { change 0 with (inject_Z 0). rewrite <- Zle_Qle. lia. }
      assert (0 <= inject_Z (need_by - today - sla_days) / inject_Z (need_by - today))
        by (apply Qle_shift_div_l; lra).
      qmm. lra.
    + cbn [bind]. eexists. split; [reflexivity|]. qmm. lra.
  - apply Z.leb_gt in S. eexists. split; [reflexivity|].
    assert (0 <= inject_Z (sla_days - (need_by - today))).
    { change 0 with (inject_Z 0). rewrite <- Zle_Qle. lia. }
    qmm. lra.
Qed.

Lemma penalties_score_range product application scenario :
  exists score,
    _calculate_penalties_score product application scenario = Return score
    /\ 0 <= score <= 100.
Proof.
  unfold _calculate_penalties_score.
  destruct scenario as [scenario|]; [|eexists; split; [reflexivity | lra]].
  destruct (truthyZ (Application.expected_prepayment_month application));
    [|eexists; split; [reflexivity | lra]].
  destruct (Py.leb (Application.loan_amount application) 0) eqn:L;
    [eexists; split; [reflexivity | lra]|].
  apply leb_false in L. rewrite truediv_nonzero by lra. cbn [bind].
  eexists. split; [reflexivity | apply clamp_0_100_bounds].
Qed.

Lemma longest_fixed_months_lower options :
  forall fixed_months, (fixed_months <= longest_fixed_months options fixed_months)%Z.
Proof.
  induction options as [|option rest IH]; intros fixed_months; [cbn; lia|].
  cbn [longest_fixed_months]. cbv zeta.
  destruct (fixed_months <? getZ (PromoOption.fixed_months option) 0)%Z eqn:L.
  - apply Z.ltb_lt in L. specialize (IH (getZ (PromoOption.fixed_months option) 0)). lia.
  - apply IH.
Qed.

(** The stability score is returned without error; with a preference between
    0 and 100 and a fixed period that is not negative it lies in [0, 135]. *)
Lemma stability_score_range product base stress user_input :
  exists score,
    _calculate_stability_score product base stress user_input = Return score
    /\ (0 <= getQ (UserInput.priority_cost_vs_stability user_input) 50 <= 100 ->
        (0 <= orZ (LoanProduct.rate_fixed_months product) 0)%Z ->
        0 <= score <= 135).
Proof.
  unfold _calculate_stability_score.
  destruct base as [base|]; [|eexists; split; [reflexivity | intros; lra]].
  destruct stress as [stress|]; [|eexists; split; [reflexivity | intros; lra]].
  assert (Hv : exists volatility,
             (if Py.ltb 0 (LoanCostSummary.monthly_payment_first_12m base) then
                (LoanCostSummary.monthly_payment_post_promo stress
                 - LoanCostSummary.monthly_payment_first_12m base)
                // LoanCostSummary.monthly_payment_first_12m base
              else Return 0) = Return volatility).
  { destruct (Py.ltb 0 _) eqn:L; [|eexists; reflexivity].
    apply ltb_true in L. rewrite truediv_nonzero by lra. eexists. reflexivity. }
  destruct Hv as [volatility ->]. cbn [bind]. cbv zeta.
  eexists. split; [reflexivity|]. intros Hpref Hfix.
  pose proof (clamp_0_100_bounds (100 - volatility * 500)) as Hvs.
  set (vs := clamp_0_100 (100 - volatility * 500)) in *.
  set (months :=
         match LoanProduct.rate_model product with
         | Some rm =>
             longest_fixed_months (RateModel.promo_options rm)
               (orZ (LoanProduct.rate_fixed_months product) 0)
         | None => orZ (LoanProduct.rate_fixed_months product) 0
         end).
  assert (Hmonths : (0 <= months)%Z).
  { unfold months. destruct (LoanProduct.rate_model product) as [rm|]; [|exact Hfix].
    pose proof (longest_fixed_months_lower (RateModel.promo_options rm)
                  (orZ (LoanProduct.rate_fixed_months product) 0)). lia. }
  assert (Hq : 0 <= inject_Z months).
  { change 0 with (inject_Z 0). rewrite <- Zle_Qle. exact Hmonths. }
  assert (Hfs : 0 <= Qmin 100 (inject_Z months * (100 / 24)) <= 100).
  { change (100 / 24) with (100 # 24). qmm. lra. }
  set (fs := Qmin 100 (inject_Z months * (100 / 24))) in *.
  set (pref := getQ (UserInput.priority_cost_vs_stability user_input) 50) in *.
  qconst.
  assert (0 <= vs * (1 - pref * (1 # 100) * 0.3)) by (apply Qmult_le_0_compat; lra).
  assert (0 <= fs * (pref * (1 # 100) * 0.3 + 0.35)) by (apply Qmult_le_0_compat; lra).
  assert (vs * (1 - pref * (1 # 100) * 0.3) <= 100 * (1 - pref * (1 # 100) * 0.3))
    by (apply Qmult_le_compat_r; lra).
  assert (fs * (pref * (1 # 100) * 0.3 + 0.35) <= 100 * (pref * (1 # 100) * 0.3 + 0.35))
    by (apply Qmult_le_compat_r; lra).
  lra.
Qed.


(** With a preference between 0 and 100 and a fixed period that is not
    negative the stability score lies in [0, 135]. *)
Theorem stability_score_within_135 (product : LoanProduct.t)
    (base stress : option LoanCostSummary.t) (user_input : UserInput.t) :
  0 <= getQ (UserInput.priority_cost_vs_stability user_input) 50 <= 100 ->
  (0 <= orZ (LoanProduct.rate_fixed_months product) 0)%Z ->
  exists score,
    _calculate_stability_score product base stress user_input = Return score
    /\ 0 <= score <= 135.
Proof.
  intros Hpref Hfix.
  destruct (stability_score_range product base stress user_input) as (score & E & H).
  exists score. split; [exact E | apply H; assumption].
Qed.

Lemma stability_score_within_135_witness :
  exists score,
    _calculate_stability_score quick_product
      (Some (LoanCostSummary.mk 0 0 0 0 0 0 100 100 0))
      (Some (LoanCostSummary.mk 0 0 0 0 0 0 100 120 0))
      (UserInput.mk None (Some 30))
    = Return score
    /\ 0 <= score <= 135.
Proof.
  apply (stability_score_within_135 quick_product); [cbn; lra | cbn; lia].
Defined.

(** ** Strategy-adjusted scores *)

Lemma early_exit_penalties_range product :
  0 <= _calculate_early_exit_penalties_score product <= 100.
Proof.
  unfold _calculate_early_exit_penalties_score.
  destruct (LoanProduct.fees_penalties product) as [fp|]; [|lra].
  destruct (FeesPenalties.prepayment_schedule fp); [lra|].
  apply clamp_0_100_bounds.
Qed.

Lemma long_hold_stability_range product base stress :
  exists score,
    _calculate_long_hold_stability_score product base stress = Return score
    /\ 0 <= score <= 100.
Proof.
  unfold _calculate_long_hold_stability_score.
  destruct base as [base|]; [|eexists; split; [reflexivity | lra]].
  destruct stress as [stress|]; [|eexists; split; [reflexivity | lra]].
  cbv zeta.
  match goal with
  | |- exists score, bind ?c _ = _ /\ _ =>
      assert (H : exists s, c = Return s)
  end.
  { destruct (Py.ltb 0 _) eqn:L; [|eexists; reflexivity].
    apply ltb_true in L. rewrite truediv_nonzero by lra. cbn [bind].
    eexists. reflexivity. }
  destruct H as [s ->]. cbn [bind]. eexists. split; [reflexivity|].
  qmm. lra.
Qed.

(** X17.  [_calculate_strategy_adjusted_score] returns for every input and
    keeps the cost, approval and speed scores.  The stability score is
    replaced, by a score in [0, 100], for LONG_HOLD only, and the penalties
    score, by a score in [0, 100], for EARLY_EXIT only.  The weights of each
    strategy add up to 1, so the total lies between any two bounds that hold
    for the five scores it weighs: within [0, 100] when they are, and up to
    135 when the stability score of the base scores is. *)
Theorem strategy_adjusted_total_in_range (base_scores : Scores.t)
    (application : Application.t) (product : LoanProduct.t)
    (scenarios : list (string * LoanCostSummary.t)) :
  exists scores,
    _calculate_strategy_adjusted_score base_scores application product scenarios
    = Return scores
    /\ Scores.cost scores = Scores.cost base_scores
    /\ Scores.approval scores = Scores.approval base_scores
    /\ Scores.speed scores = Scores.speed base_scores
    /\ (if Application.repayment_strategy application is Some LONG_HOLD
        then 0 <= Scores.stability scores <= 100
        else Scores.stability scores = Scores.stability base_scores)
    /\ (if Application.repayment_strategy application is Some EARLY_EXIT
        then 0 <= Scores.penalties scores <= 100
        else Scores.penalties scores = Scores.penalties base_scores)
    /\ (forall lo hi,
          lo <= Scores.cost scores <= hi ->
          lo <= Scores.stability scores <= hi ->
          lo <= Scores.approval scores <= hi ->
          lo <= Scores.speed scores <= hi ->
          lo <= Scores.penalties scores <= hi ->
          lo <= Scores.total scores <= hi).
Proof.
  unfold _calculate_strategy_adjusted_score. cbv zeta.
  pose proof (early_exit_penalties_range product) as He.
  destruct (long_hold_stability_range product (scenario_get scenarios "+0%")
              (scenario_get scenarios "+4%")) as (l & El & Hl).
  destruct (Application.repayment_strategy application) as [[]|];
    try rewrite El; cbn [bind]; eexists; (split; [reflexivity|]);
    cbn [Scores.cost Scores.stability Scores.approval Scores.speed Scores.penalties
         Scores.total strategy_weights];
    (split; [reflexivity|]); (split; [reflexivity|]); (split; [reflexivity|]);
    (split; [first [reflexivity | assumption]|]);
    (split; [first [reflexivity | assumption]|]);
    intros lo hi Hc Hs Ha Hv Hp;
    unfold Py.sum; cbn [fold_left]; lra.
Qed.

(** ** The suggested term *)

(** When the borrower names no term and the product's term bounds are
    consistent, the term [_get_optimal_tenor] suggests passes the term check
    of the eligibility filter: no TENOR_TOO_SHORT, no TENOR_TOO_LONG. *)
Theorem optimal_tenor_passes_term_bounds (application : Application.t)
    (product : LoanProduct.t) (reasons : list string) :
  truthyZ (Application.tenor_months application) = None ->
  (orZ (LoanProduct.min_term_months product) 12
   <= orZ (LoanProduct.max_term_months product) 360)%Z ->
  check_term_bounds product (_get_optimal_tenor application product) reasons = reasons.
Proof.
  intros Hnone Hb. unfold _get_optimal_tenor. rewrite Hnone. cbv zeta.
  unfold check_term_bounds. cbv zeta. unfold orZ in *.
  set (tenor :=
         match Application.repayment_strategy application with
         | Some LONG_HOLD =>
             Z.max
               match truthyZ (LoanProduct.min_term_months product) with
               | Some v => v
               | None => 12%Z
               end
               (Z.min 240
                  match truthyZ (LoanProduct.max_term_months product) with
                  | Some v => v
                  | None => 360%Z
                  end)
         | _ =>
             match truthyZ (LoanProduct.max_term_months product) with
             | Some v => v
             | None => 360%Z
             end
         end).
  assert (Hlo : (match truthyZ (LoanProduct.min_term_months product) with
                 | Some v => v
                 | None => 12
                 end <= tenor)%Z).
  { unfold tenor. destruct (Application.repayment_strategy application) as [[]|]; lia. }
  assert (Hhi : (tenor <= match truthyZ (LoanProduct.max_term_months product) with
                          | Some v => v
                          | None => 360
                          end)%Z).
  { unfold tenor. destruct (Application.repayment_strategy application) as [[]|]; lia. }
  replace (match Application.repayment_strategy application with
           | Some UNCERTAIN | Some EARLY_EXIT => _
           | Some LONG_HOLD => _
           | None => _
           end) with tenor
    by (unfold tenor; destruct (Application.repayment_strategy application) as [[]|];
        reflexivity).
  destruct (truthyZ (LoanProduct.min_term_months product)) as [lo|],
           (truthyZ (LoanProduct.max_term_months product)) as [hi|];
    unfold append_if;
    repeat match goal with
           | |- context [(?a <? ?b)%Z] =>
               replace (a <? b)%Z with false by (symmetry; apply Z.ltb_ge; lia)
           end;
    reflexivity.
Qed.

Lemma optimal_tenor_passes_term_bounds_witness :
  check_term_bounds
    (LoanProduct.mk 1 None None None None (Some 60%Z) (Some 180%Z)
       [] None [] None None None None None None None None None None None)
    (_get_optimal_tenor
       (Application.mk "HOME_PURCHASE" 1200000 None (Some LONG_HOLD) None None
          None None None None None None None false false None None [] [] [])
       (LoanProduct.mk 1 None None None None (Some 60%Z) (Some 180%Z)
          [] None [] None None None None None None None None None None None))
    []
  = [].
Proof.
  apply (optimal_tenor_passes_term_bounds
           (Application.mk "HOME_PURCHASE" 1200000 None (Some LONG_HOLD) None None
              None None None None None None None false false None None [] [] [])
           (LoanProduct.mk 1 None None None None (Some 60%Z) (Some 180%Z)
              [] None [] None None None None None None None None None None None)
           []); [reflexivity | cbn; lia].
Defined.

(** ** The recommendation run *)

Lemma metrics_returns application :
  exists metrics, calculate_application_metrics application = Return metrics.
Proof.
  unfold calculate_application_metrics. cbv zeta.
  match goal with
  | |- exists m, bind ?c _ = _ => assert (H : exists d, c = Return d)
  end.
  { destruct (Py.ltb 0 _) eqn:L; [|eexists; reflexivity].
    apply ltb_true in L. rewrite truediv_nonzero by lra. cbn [bind].
    eexists. reflexivity. }
  destruct H as [d ->]. cbn [bind].
  match goal with
  | |- exists m, bind ?c _ = _ => assert (H : exists l, c = Return l)
  end.
  { destruct (Py.ltb 0 _) eqn:L; [|eexists; reflexivity].
    apply ltb_true in L. rewrite truediv_nonzero by lra. cbn [bind].
    eexists. reflexivity. }
  destruct H as [l ->]. cbn [bind]. eexists. reflexivity.
Qed.

Lemma multi_factor_score_returns today product application metrics user_input scenarios :
  exists scores,
    _calculate_multi_factor_score today product application metrics user_input scenarios
    = Return scores.
Proof.
  unfold _calculate_multi_factor_score. cbv zeta.
  destruct (cost_score_range (scenario_get scenarios "+0%")
              (Application.loan_amount application)) as (c & -> & _).
  cbn [bind].
  destruct (stability_score_range product (scenario_get scenarios "+0%")
              (scenario_get scenarios "+4%") user_input) as (s & -> & _).
  cbn [bind].
  destruct (approval_score_range product application metrics) as (a & -> & _).
  cbn [bind].
  destruct (speed_score_range today product application) as (v & -> & _).
  cbn [bind].
  destruct (penalties_score_range product application (scenario_get scenarios "+0%"))
    as (p & -> & _).
  cbn [bind]. eexists. reflexivity.
Qed.

Lemma strategy_adjusted_score_returns base_scores application product scenarios :
  exists scores,
    _calculate_strategy_adjusted_score base_scores application product scenarios
    = Return scores.
Proof.
  unfold _calculate_strategy_adjusted_score. cbv zeta.
  destruct (long_hold_stability_range product (scenario_get scenarios "+0%")
              (scenario_get scenarios "+4%")) as (l & El & _).
  destruct (Application.repayment_strategy application) as [[]|];
    try rewrite El; cbn [bind]; eexists; reflexivity.
Qed.

Lemma score_product_returns today application metrics user_input product effective_tenor :
  exists scores,
    score_product today application metrics user_input product effective_tenor
    = Return scores.
Proof.
  unfold score_product. cbv zeta.
  match goal with
  | |- context [stress_test_scenarios ?a ?b ?c ?d ?e ?f ?g ?h] =>
      destruct (stress_test_returns a b c d e f g h) as (s0 & s2 & s4 & ->)
  end.
  cbn [bind].
  match goal with
  | |- context [_calculate_multi_factor_score ?a ?b ?c ?d ?e ?f] =>
      destruct (multi_factor_score_returns a b c d e f) as [base ->]
  end.
  cbn [bind]. apply strategy_adjusted_score_returns.
Qed.

(** The loop over the catalogue returns: it ranks the products that pass the
    filter, in catalogue order, each with its total score, and rejects the
    others, in catalogue order. *)
Lemma for_products_shape today application metrics user_input products :
  forall ranked rejected,
    exists scored,
      for_products today application metrics user_input products ranked rejected
      = Return (ranked ++ scored,
                rejected ++ map (rejection_of application metrics user_input)
                              (filter (fun product =>
                                         negb (eligible application metrics user_input
                                                 product))
                                 products))
      /\ map (fun item => ProductRecommendation.product_id (fst item)) scored
         = map LoanProduct.id (filter (eligible application metrics user_input) products)
      /\ Forall (fun item =>
                   snd item = Scores.total (ProductRecommendation.scores (fst item)))
           scored.
Proof.
  induction products as [|product rest IH]; intros ranked rejected.
  - exists []. cbn. rewrite !app_nil_r. split; [reflexivity|]. split; [reflexivity|].
    constructor.
  - cbn [for_products filter]. cbv zeta.
    assert (Et : match truthyZ (Application.tenor_months application) with
                 | Some tenor => tenor
                 | None => _get_optimal_tenor application product
                 end = effective_tenor_of application product) by reflexivity.
    rewrite Et.
    change (fst (_apply_hard_filters_with_tenor application metrics product user_input
                   (effective_tenor_of application product)))
      with (eligible application metrics user_input product).
    destruct (eligible application metrics user_input product) eqn:E; cbn [negb].
    + destruct (score_product_returns today application metrics user_input product
                  (effective_tenor_of application product)) as [scores ->].
      cbn [bind].
      destruct (IH (ranked ++ [(ProductRecommendation.mk (LoanProduct.id product) scores,
                                Scores.total scores)]) rejected)
        as (scored & H & Hids & Hall).
      exists ((ProductRecommendation.mk (LoanProduct.id product) scores,
               Scores.total scores) :: scored).
      split; [rewrite H, <- app_assoc; reflexivity|].
      split; [cbn [map fst ProductRecommendation.product_id]; rewrite Hids; reflexivity|].
      constructor; [reflexivity | exact Hall].
    + destruct (IH ranked
                  (rejected ++ [rejection_of application metrics user_input product]))
        as (scored & H & Hids & Hall).
      exists scored. split; [|split; assumption].
      unfold rejection_of at 1 in H. cbv zeta in H. rewrite H.
      cbn [map]. rewrite <- app_assoc. reflexivity.
Qed.

Lemma insert_ranked_permutation item sorted :
  Permutation (insert_ranked item sorted) (item :: sorted).
Proof.
  induction sorted as [|x rest IH]; [apply Permutation_refl|].
  cbn [insert_ranked]. destruct (Py.leb (- snd item) (- snd x)).
  - apply Permutation_refl.
  - eapply perm_trans; [apply perm_skip, IH|].
    apply perm_swap.
Qed.

Lemma insert_ranked_sorted item sorted :
  non_increasing (map snd sorted) ->
  non_increasing (map snd (insert_ranked item sorted)).
Proof.
  induction sorted as [|x rest IH]; intros Hs; [exact I|].
  cbn [insert_ranked]. destruct (Py.leb (- snd item) (- snd x)) eqn:L.
  - apply leb_true in L. cbn [map]. split; [lra | exact Hs].
  - apply leb_false in L.
    assert (Hrest : non_increasing (map snd rest)).
    { destruct rest as [|y rest']; [exact I|]. destruct Hs as [_ Hs]. exact Hs. }
    specialize (IH Hrest). cbn [map].
    destruct rest as [|y rest'].
    + cbn. split; [lra | exact I].
    + cbn [insert_ranked] in IH |- *. destruct Hs as [Hxy _].
      destruct (Py.leb (- snd item) (- snd y)).
      * cbn [map] in IH |- *. split; [lra | exact IH].
      * cbn [map] in IH |- *. split; [exact Hxy | exact IH].
Qed.

Lemma sorted_by_score_sorted items :
  Permutation (sorted_by_score items) items
  /\ non_increasing (map snd (sorted_by_score items)).
Proof.
  unfold sorted_by_score. induction items as [|item rest [Hp Hs]].
  - split; [apply Permutation_refl | exact I].
  - cbn [fold_right]. split.
    + eapply perm_trans; [apply insert_ranked_permutation|].
      apply perm_skip. exact Hp.
    + apply insert_ranked_sorted. exact Hs.
Qed.

Lemma non_increasing_firstn n xs : non_increasing xs -> non_increasing (firstn n xs).
Proof.
  revert xs. induction n as [|n IH]; intros xs Hs; [exact I|].
  destruct xs as [|x [|y rest]]; [exact I | destruct n; exact I|].
  destruct Hs as [Hxy Hs]. specialize (IH (y :: rest) Hs).
  destruct n as [|n]; [exact I|].
  cbn [firstn] in IH |- *. split; [exact Hxy | exact IH].
Qed.



(** ** Rejection reasons *)

(** The codes that have an entry in [details]. *)
Lemma known_reason_detail code :
  In code ["PURPOSE_NOT_SUPPORTED"; "TENOR_TOO_SHORT"; "TENOR_TOO_LONG";
           "LTV_EXCEEDS_MAX"; "LOAN_AMOUNT_TOO_LOW"; "LOAN_AMOUNT_TOO_HIGH";
           "INCOME_TYPE_NOT_SUPPORTED"; "INCOME_BELOW_MIN";
           "COLLATERAL_TYPE_NOT_ALLOWED"; "GEO_NOT_SUPPORTED";
           "DSR_EXCEEDS_MAX"]%string ->
  exists detail,
    dict_get details code = Some detail /\ _get_reason_detail code = detail.
Proof.
  intros H. cbn [In] in H.
  repeat (destruct H as [<-|H]; [eexists; split; reflexivity|]).
  contradiction.
Qed.

Lemma append_if_known cond code :
  (exists detail, dict_get details code = Some detail /\ _get_reason_detail code = detail) ->
  Forall (fun c => exists detail,
                     dict_get details c = Some detail /\ _get_reason_detail c = detail)
    (append_if cond code []).
Proof.
  intros H. unfold append_if. destruct cond; [|constructor].
  constructor; [exact H | constructor].
Qed.

Ltac known_reasons :=
  repeat match goal with
         | |- Forall _ (match ?x with _ => _ end) => destruct x
         | |- Forall _ (if ?x then _ else _) => destruct x
         | |- Forall _ [] => constructor
         | |- Forall _ (append_if _ _ []) =>
             apply append_if_known, known_reason_detail; cbn [In]; tauto
         end.

(** Every reason the eligibility filter gives is a key of the dict of
    [_get_reason_detail], which returns its text and never falls back on
    the title-cased code. *)
Lemma hard_filter_reasons_known application metrics product user_input effective_tenor :
  Forall (fun code => exists detail,
                        dict_get details code = Some detail
                        /\ _get_reason_detail code = detail)
    (snd (_apply_hard_filters_with_tenor application metrics product user_input
            effective_tenor)).
Proof.
  unfold _apply_hard_filters_with_tenor. cbv zeta. cbn [snd].
  rewrite check_dsr_appends, check_geo_appends, check_collateral_type_appends,
    check_min_income_appends, check_income_type_appends,
    check_loan_amount_bounds_appends, check_ltv_appends, check_term_bounds_appends.
  repeat (apply Forall_app; split).
  - unfold check_purpose. known_reasons.
  - unfold check_term_bounds. cbv zeta.
    destruct (truthyZ (LoanProduct.min_term_months product));
      destruct (truthyZ (LoanProduct.max_term_months product));
      try rewrite (append_if_app _ "TENOR_TOO_LONG");
      try apply Forall_app; try split; known_reasons.
  - unfold check_ltv. cbv zeta. known_reasons.
  - unfold check_loan_amount_bounds. cbv zeta.
    destruct (truthyQ (LoanProduct.min_loan_amount product));
      destruct (truthyQ (LoanProduct.max_loan_amount product));
      try rewrite (append_if_app _ "LOAN_AMOUNT_TOO_HIGH");
      try apply Forall_app; try split; known_reasons.
  - unfold check_income_type. known_reasons.
  - unfold check_min_income. known_reasons.
  - unfold check_collateral_type. known_reasons.
  - unfold check_geo. known_reasons.
  - unfold check_dsr. known_reasons.
Qed.

(** A product that fails the filter is rejected with at least one reason; its
    [reason_code] is the first of them, never "UNKNOWN", and every reason has
    a text in [_get_reason_detail]. *)
Theorem rejections_carry_known_reasons (application : Application.t)
    (metrics : Metrics.t) (user_input : UserInput.t) (product : LoanProduct.t) :
  eligible application metrics user_input product = false ->
  exists first others detail,
    RejectedProduct.reasons (rejection_of application metrics user_input product)
    = first :: others
    /\ RejectedProduct.reason_code (rejection_of application metrics user_input product)
       = first
    /\ dict_get details first = Some detail
    /\ _get_reason_detail first = detail
    /\ Forall (fun code => exists text,
                            dict_get details code = Some text
                            /\ _get_reason_detail code = text)
         others.
Proof.
  intros He. unfold eligible in He. unfold rejection_of. cbv zeta.
  pose proof (hard_filter_reasons_known application metrics product user_input
                (effective_tenor_of application product)) as Hk.
  unfold _apply_hard_filters_with_tenor in He. cbv zeta in He. cbn [fst] in He.
  unfold _apply_hard_filters_with_tenor in Hk |- *. cbv zeta in Hk |- *.
  cbn [snd] in Hk |- *.
  match type of He with
  | (List.length ?l =? 0)%nat = false => set (reasons := l) in *
  end.
  destruct reasons as [|first others]; [discriminate|].
  inversion Hk as [|? ? Hfirst Hrest]; subst.
  destruct Hfirst as (detail & Hd & Hg).
  exists first, others, detail. cbn [RejectedProduct.reasons RejectedProduct.reason_code].
  repeat split; assumption.
Qed.

Lemma rejections_carry_known_reasons_witness :
  exists first others detail,
    RejectedProduct.reasons
      (rejection_of sample_application sample_metrics sample_user_input sample_product)
    = first :: others
    /\ RejectedProduct.reason_code
         (rejection_of sample_application sample_metrics sample_user_input sample_product)
       = first
    /\ dict_get details first = Some detail
    /\ _get_reason_detail first = detail
    /\ Forall (fun code => exists text,
                            dict_get details code = Some text
                            /\ _get_reason_detail code = text)
         others.
Proof.
  apply (rejections_carry_known_reasons sample_application sample_metrics
           sample_user_input sample_product).
  reflexivity.
Defined.

(** ** Metrics and the loan-to-value check *)

(** For a borrower with a positive property value the metrics are computed
    without error and the LTV metric is [loan_amount / property_value].  In
    exact arithmetic the filter appends LTV_EXCEEDS_MAX exactly when that
    metric is above the product's [max_ltv_pct / 100]; on doubles the check
    multiplies where the metric divides, and the two can disagree for a loan
    at the cap, see [ltv_cap_on_doubles]. *)
Theorem ltv_check_matches_the_metric (application : Application.t)
    (product : LoanProduct.t) (property_value max_ltv_pct : Q) :
  UserInput.property_value (_extract_user_input application) = Some property_value ->
  0 < property_value ->
  truthyQ (LoanProduct.max_ltv_pct product) = Some max_ltv_pct ->
  exists metrics ltv,
    calculate_application_metrics application = Return metrics
    /\ Metrics.ltv metrics = Some ltv
    /\ ltv = Application.loan_amount application / property_value
    /\ check_ltv application product (_extract_user_input application) []
       = if Py.ltb (max_ltv_pct / 100) ltv then ["LTV_EXCEEDS_MAX"%string] else [].
Proof.
  intros Hpv Hpos Hmax.
  unfold _extract_user_input in Hpv. cbv zeta in Hpv.
  cbn [UserInput.property_value] in Hpv. injection Hpv as Hpv.
  unfold calculate_application_metrics. cbv zeta.
  match goal with
  | |- exists m l, bind ?c _ = _ /\ _ => assert (H : exists d, c = Return d)
  end.
  { destruct (Py.ltb 0 _) eqn:L; [|eexists; reflexivity].
    apply ltb_true in L. rewrite truediv_nonzero by lra. cbn [bind].
    eexists. reflexivity. }
  destruct H as [d ->]. cbn [bind]. rewrite Hpv.
  replace (Py.ltb 0 property_value) with true by (symmetry; apply ltb_true; exact Hpos).
  rewrite truediv_nonzero by lra. cbn [bind].
  eexists _, _. split; [reflexivity|]. cbn [Metrics.ltv].
  split; [reflexivity|]. split; [reflexivity|].
  unfold check_ltv. cbv zeta. rewrite Hmax.
  unfold _extract_user_input. cbv zeta. cbn [UserInput.property_value getQ].
  rewrite Hpv.
  replace (Py.ltb 0 property_value) with true by (symmetry; apply ltb_true; exact Hpos).
  set (loan := Application.loan_amount application).
  assert (Eb : Py.ltb (property_value * (max_ltv_pct / 100)) loan
               = Py.ltb (max_ltv_pct / 100) (loan / property_value)).
  { assert (E : loan / property_value * property_value == loan) by (field; lra).
    set (limit := max_ltv_pct / 100) in *. set (ltv := loan / property_value) in *.
    destruct (Py.ltb limit ltv) eqn:L.
    - apply ltb_true in L. apply ltb_true.
      assert (limit * property_value < ltv * property_value)
        by (apply Qmult_lt_compat_r; assumption).
      lra.
    - apply ltb_false in L. apply ltb_false.
      assert (ltv * property_value <= limit * property_value)
        by (apply Qmult_le_compat_r; lra).
      lra. }
  rewrite Eb. unfold append_if. reflexivity.
Qed.

Lemma ltv_check_matches_the_metric_witness :
  exists metrics ltv,
    calculate_application_metrics sample_application = Return metrics
    /\ Metrics.ltv metrics = Some ltv
    /\ ltv = Application.loan_amount sample_application / 600000000
    /\ check_ltv sample_application
         (LoanProduct.mk 2 None None None (Some 70) None None [] None [] None None
            None None None None None None None None None)
         (_extract_user_input sample_application) []
       = if Py.ltb (70 / 100) ltv then ["LTV_EXCEEDS_MAX"%string] else [].
Proof.
  apply (ltv_check_matches_the_metric sample_application
           (LoanProduct.mk 2 None None None (Some 70) None None [] None [] None None
              None None None None None None None None None)
           600000000 70); [vm_compute; reflexivity | lra | reflexivity].
Defined.

Section RoundedCap.

Import PrimFloat.
Local Open Scope float_scope.

(** On doubles, with a property of 170,000,000 and a cap of 70% the check
    computes [max_loan = 118999999.99999999]: a loan of 119,000,000 is above
    it, while its LTV metric, 0.7, is not above [70 / 100]. *)
Lemma ltv_cap_on_doubles :
  (Double.max_loan 170000000 70 <? 119000000) = true
  /\ (70 / 100 <? Double.ltv 119000000 170000000) = false.
Proof. split; vm_compute; reflexivity. Qed.

End RoundedCap.

(** ** Prepayment at the end of the promotional period *)

Lemma to_promo_end_bounded fixed_months principal payments :
  Forall (fun p => 0 <= MonthlyPayment.remaining_balance p <= principal
                   /\ (1 <= MonthlyPayment.month p)%Z) payments ->
  forall start,
    0 <= fst (fst start) <= principal ->
    0 <= fst (fst (to_promo_end fixed_months payments start)) <= principal.
Proof.
  unfold to_promo_end. induction 1 as [|p payments [Hb _] _ IH]; intros start Hs.
  - exact Hs.
  - cbn [fold_left]. apply IH.
    destruct (MonthlyPayment.month p <=? fixed_months)%Z; [exact Hb | exact Hs].
Qed.

(** In exact arithmetic [_calculate_prepayment_at_promo_end] raises no
    error.  It gives [None] when the product has no fixed period or the loan
    amount is not positive; what it gives otherwise names the last fixed
    month and a remaining principal between 0 and the loan amount. *)
Theorem prepayment_at_promo_end_is_bounded (product : LoanProduct.t)
    (application : Application.t) (rate_structure : RateStructure.t)
    (fee_structure : FeeStructure.t) (effective_tenor : option Z) :
  exists result,
    _calculate_prepayment_at_promo_end product application rate_structure
      fee_structure effective_tenor
    = Return result
    /\ ((RateStructure.fixed_months rate_structure <= 0)%Z -> result = None)
    /\ (Application.loan_amount application <= 0 -> result = None)
    /\ (forall exit,
          result = Some exit ->
          PrepaymentAtPromoEnd.prepayment_month exit
          = RateStructure.fixed_months rate_structure
          /\ 0 <= PrepaymentAtPromoEnd.remaining_principal exit
               <= Application.loan_amount application).
Proof.
  unfold _calculate_prepayment_at_promo_end. cbv zeta.
  destruct (RateStructure.fixed_months rate_structure <=? 0)%Z eqn:F.
  { exists None. split; [reflexivity|]. split; [reflexivity|].
    split; [reflexivity | intros; discriminate]. }
  apply Z.leb_gt in F.
  set (principal := Application.loan_amount application).
  set (tenor := match truthyZ effective_tenor with
                | Some t => t
                | None => orZ (Application.tenor_months application) 240
                end).
  destruct (generate_returns principal tenor rate_structure
              (_get_repayment_method product) (_get_grace_months product) 0
              (Some fee_structure)
              (Some (PrepaymentInfo.mk (Some (RateStructure.fixed_months rate_structure))
                       None false)) 0.0) as [schedule Hs].
  rewrite Hs. cbn [bind].
  destruct (AmortizationSchedule.payments schedule) as [|p ps] eqn:Ep.
  { exists None. split; [reflexivity|]. split; [intros; lia|].
    split; [reflexivity | intros; discriminate]. }
  assert (Hpos : 0 < principal).
  { destruct (Qlt_le_dec 0 principal) as [H|H]; [exact H|]. exfalso.
    unfold generate_amortization_schedule in Hs.
    replace (Py.leb principal 0) with true in Hs by (symmetry; apply leb_true; exact H).
    cbn [orb] in Hs. injection Hs as <-. discriminate. }
  destruct (schedule_bounded principal tenor rate_structure
              (_get_repayment_method product) (_get_grace_months product) 0
              (Some fee_structure) None 0.0) as (plain & -> & Hall).
  cbn [bind]. eexists. split; [reflexivity|].
  split; [intros; lia|]. split; [intros; lra|].
  intros exit E. injection E as <-.
  cbn [PrepaymentAtPromoEnd.prepayment_month PrepaymentAtPromoEnd.remaining_principal
       PrepaymentAtPromoEnd.prepayment_fee PrepaymentAtPromoEnd.total_cost_to_exit
       PrepaymentAtPromoEnd.total_interest_paid PrepaymentAtPromoEnd.total_fees_paid].
  split; [reflexivity|].
  apply (to_promo_end_bounded _ principal _ Hall); cbn [fst]; lra.
Qed.

(** ** The principal grace period *)

Section GraceFacts.

Variable principal : Q.
Variable tenor_months : Z.
Variable rate_structure : RateStructure.t.
Variable repayment_method : string.
Variable grace_principal_months : Z.
Variable grace_interest_months : Z.
Variable fee_structure : option FeeStructure.t.
Variable prepayment_info : option PrepaymentInfo.t.
Variable scenario_bump : Q.

Let body :=
  loop_body tenor_months rate_structure repayment_method grace_principal_months
    grace_interest_months fee_structure prepayment_info scenario_bump.

Let run :=
  for_months tenor_months rate_structure repayment_method grace_principal_months
    grace_interest_months fee_structure prepayment_info scenario_bump.

(** What an entry of a grace month looks like. *)
Let interest_only (p : MonthlyPayment.t) : Prop :=
  (MonthlyPayment.month p <= grace_principal_months)%Z ->
  prepayment_due prepayment_info (MonthlyPayment.month p) = false ->
  MonthlyPayment.principal p == 0
  /\ MonthlyPayment.remaining_balance p == principal
  /\ MonthlyPayment.payment p = MonthlyPayment.interest p
  /\ MonthlyPayment.is_grace_period p = true.

(** An ordinary month within the principal grace period repays nothing. *)
Lemma loop_body_grace month st :
  (1 <= month <= tenor_months)%Z -> 0 < Loop.remaining st ->
  (month <= grace_principal_months)%Z ->
  prepayment_due prepayment_info month = false ->
  exists st' mp,
    body month st = Return (st', false)
    /\ Loop.payments st' = Loop.payments st ++ [mp]
    /\ MonthlyPayment.month mp = month
    /\ Loop.remaining st' == Loop.remaining st
    /\ MonthlyPayment.principal mp == 0
    /\ MonthlyPayment.remaining_balance mp == Loop.remaining st
    /\ MonthlyPayment.payment mp = MonthlyPayment.interest mp
    /\ MonthlyPayment.is_grace_period mp = true.
Proof.
  intros Hm HB Hg Hdue. unfold body, loop_body. rewrite Hdue. cbv zeta.
  replace (month <=? grace_principal_months)%Z with true
    by (symmetry; apply Z.leb_le; exact Hg).
  cbn [bind fst snd orb].
  set (B := Loop.remaining st) in *.
  assert (E : Qmax 0 (B - Qmin 0 B) == B) by (qmm; lra).
  replace (Py.leb (Qmax 0 (B - Qmin 0 B)) 0) with false
    by (symmetry; apply leb_false; lra).
  eexists _, _. split; [reflexivity|].
  split; [reflexivity|].
  cbn [Loop.remaining MonthlyPayment.month MonthlyPayment.principal
       MonthlyPayment.remaining_balance MonthlyPayment.payment MonthlyPayment.interest
       MonthlyPayment.is_grace_period].
  split; [reflexivity|]. split; [exact E|]. split; [qmm; lra|].
  split; [exact E|]. split; reflexivity.
Qed.

Lemma run_grace n :
  forall from st,
    Z.to_nat (tenor_months + 1 - from) = n -> (1 <= from)%Z ->
    0 < Loop.remaining st -> Loop.remaining st == principal ->
    exists st' entries,
      run (Py.range from (tenor_months + 1)) st = Return st'
      /\ Loop.payments st' = Loop.payments st ++ entries
      /\ Forall interest_only entries.
Proof.
  induction n as [|n IH]; intros from st Hn Hfrom HB HP.
  - rewrite range_nil by lia. exists st, []. cbn.
    split; [reflexivity|]. split; [rewrite app_nil_r; reflexivity | constructor].
  - destruct (Z_le_gt_dec from grace_principal_months) as [Hg|Hg].
    + destruct (prepayment_due prepayment_info from) eqn:Hdue.
      * rewrite range_cons by lia. unfold run. cbn [for_months]. fold run.
        destruct (loop_body_step tenor_months rate_structure repayment_method
                    grace_principal_months grace_interest_months fee_structure
                    prepayment_info scenario_bump from st)
          as (st1 & b & mp & Hb & Hp & Hmo & _ & _ & _ & _ & Hbt & _);
          [lia | exact HB |].
        rewrite Hb. cbn [bind fst snd]. rewrite (Hbt Hdue).
        exists st1, [mp]. split; [reflexivity|]. split; [exact Hp|].
        constructor; [|constructor]. intros _ Hnot. rewrite Hmo in Hnot. congruence.
      * rewrite range_cons by lia. unfold run. cbn [for_months]. fold run.
        destruct (loop_body_grace from st)
          as (st1 & mp & Hb & Hp & Hmo & Hrem & Hpr & Hrb & Hpay & Hflag);
          [lia | exact HB | exact Hg | exact Hdue |].
        unfold body in Hb. rewrite Hb. cbn [bind fst snd].
        destruct (IH (from + 1)%Z st1) as (st2 & entries & Hrun & Hp2 & Hall);
          [lia | lia | lra | lra |].
        exists st2, (mp :: entries). split; [exact Hrun|].
        split; [rewrite Hp2, Hp, <- app_assoc; reflexivity|].
        constructor; [|exact Hall]. intros _ _.
        split; [exact Hpr|]. split; [lra|]. split; assumption.
    + destruct (run_bounded tenor_months rate_structure repayment_method
                  grace_principal_months grace_interest_months fee_structure
                  prepayment_info scenario_bump (S n) from st Hn Hfrom HB)
        as (st' & entries & Hrun & Hp & Hall).
      exists st', entries. split; [exact Hrun|]. split; [exact Hp|].
      eapply Forall_impl; [|exact Hall]. cbn beta. intros p [_ Hmonth] Hle. lia.
Qed.

End GraceFacts.

(** During the principal grace period the loan is interest-only: in every
    schedule the generator returns, every entry of a month within
    [grace_principal_months] that is not the prepayment month repays no
    principal, leaves the whole principal outstanding, asks for the interest
    alone and is flagged [is_grace_period]. *)
Theorem grace_months_are_interest_only
    (principal : Q) (tenor_months : Z) (rate_structure : RateStructure.t)
    (repayment_method : string) (grace_principal_months grace_interest_months : Z)
    (fee_structure : option FeeStructure.t) (prepayment_info : option PrepaymentInfo.t)
    (scenario_bump : Q) (schedule : AmortizationSchedule.t) :
  generate_amortization_schedule principal tenor_months rate_structure
    repayment_method grace_principal_months grace_interest_months fee_structure
    prepayment_info scenario_bump = Return schedule ->
  Forall (fun p =>
            (MonthlyPayment.month p <= grace_principal_months)%Z ->
            prepayment_due prepayment_info (MonthlyPayment.month p) = false ->
            MonthlyPayment.principal p == 0
            /\ MonthlyPayment.remaining_balance p == principal
            /\ MonthlyPayment.payment p = MonthlyPayment.interest p
            /\ MonthlyPayment.is_grace_period p = true)
    (AmortizationSchedule.payments schedule).
Proof.
  unfold generate_amortization_schedule.
  destruct (Py.leb principal 0 || (tenor_months <=? 0)%Z) eqn:G.
  { intros E. injection E as <-. constructor. }
  apply orb_false_iff in G. destruct G as [Gp Gt].
  apply leb_false in Gp. apply Z.leb_gt in Gt.
  destruct (run_grace principal tenor_months rate_structure repayment_method
              grace_principal_months grace_interest_months fee_structure
              prepayment_info scenario_bump (Z.to_nat (tenor_months + 1 - 1)) 1
              (initial_loop principal rate_structure fee_structure scenario_bump))
    as (st & entries & Hrun & Hp & Hall);
    [reflexivity | lia | exact Gp | reflexivity |].
  rewrite Hrun. cbn [bind]. intros E. injection E as <-.
  cbn [AmortizationSchedule.payments]. cbn [initial_loop Loop.payments app] in Hp.
  rewrite Hp. exact Hall.
Qed.

Lemma grace_months_are_interest_only_witness :
  exists schedule,
    generate_amortization_schedule 1200 4 (RateStructure.mk 12 4 0 5) "annuity"
      2 0 None None 0 = Return schedule
    /\ Forall (fun p =>
                 (MonthlyPayment.month p <= 2)%Z ->
                 prepayment_due None (MonthlyPayment.month p) = false ->
                 MonthlyPayment.principal p == 0
                 /\ MonthlyPayment.remaining_balance p == 1200
                 /\ MonthlyPayment.payment p = MonthlyPayment.interest p
                 /\ MonthlyPayment.is_grace_period p = true)
         (AmortizationSchedule.payments schedule).
Proof.
  eexists. split; [vm_compute; reflexivity|].
  apply (grace_months_are_interest_only 1200 4 (RateStructure.mk 12 4 0 5) "annuity"
           2 0 None None 0).
  vm_compute. reflexivity.
Defined.

(** ** Equal principal *)

Section EqualPrincipalFacts.

Variable principal : Q.
Variable tenor_months : Z.
Variable rate_structure : RateStructure.t.
Variable grace_interest_months : Z.
Variable fee_structure : option FeeStructure.t.
Variable scenario_bump : Q.

Hypothesis principal_positive : 0 < principal.

Let run :=
  for_months tenor_months rate_structure "equal_principal" 0
    grace_interest_months fee_structure None scenario_bump.

(** A month of the equal-principal method repays the balance divided by the
    number of months left. *)
Lemma loop_body_equal_principal month st :
  (1 <= month <= tenor_months)%Z -> 0 < Loop.remaining st ->
  exists st' b mp,
    loop_body tenor_months rate_structure "equal_principal" 0
      grace_interest_months fee_structure None scenario_bump month st
    = Return (st', b)
    /\ Loop.payments st' = Loop.payments st ++ [mp]
    /\ b = Py.leb (MonthlyPayment.remaining_balance mp) 0
    /\ Loop.remaining st' = MonthlyPayment.remaining_balance mp
    /\ MonthlyPayment.principal mp
       == Loop.remaining st / inject_Z (tenor_months - month + 1)
    /\ MonthlyPayment.remaining_balance mp
       == Loop.remaining st
          - Loop.remaining st / inject_Z (tenor_months - month + 1).
Proof.
  intros Hm HB. unfold loop_body. cbn [prepayment_due]. cbv zeta.
  replace (month <=? 0)%Z with false by (symmetry; apply Z.leb_gt; lia).
  unfold principal_and_payment. cbn [String.eqb Ascii.eqb Bool.eqb andb].
  set (B := Loop.remaining st) in *.
  set (n := (tenor_months - month + 1)%Z).
  assert (Hn : 1 <= inject_Z n).
  { change 1 with (inject_Z 1). rewrite <- Zle_Qle. unfold n. lia. }
  rewrite truediv_nonzero by lra. cbn [bind fst snd].
  assert (Hpp : 0 <= B / inject_Z n <= B).
  { split; [apply Qle_shift_div_l; lra | apply Qle_shift_div_r; [lra | nra]]. }
  eexists _, _, _. split; [reflexivity|].
  split; [reflexivity|]. split; [reflexivity|].
  cbn [Loop.remaining MonthlyPayment.principal MonthlyPayment.remaining_balance].
  split; [reflexivity|]. split; qmm; lra.
Qed.

(** From month [from] on, entering with the balance
    [principal * (tenor - from + 1) / tenor]: every entry repays
    [principal / tenor], and there is one entry for each month left. *)
Lemma run_equal_principal n :
  forall from st,
    Z.to_nat (tenor_months + 1 - from) = n -> (1 <= from <= tenor_months + 1)%Z ->
    Loop.remaining st
    == principal * inject_Z (tenor_months - from + 1) / inject_Z tenor_months ->
    ((from <= tenor_months)%Z -> 0 < Loop.remaining st) ->
    exists st' entries,
      run (Py.range from (tenor_months + 1)) st = Return st'
      /\ Loop.payments st' = Loop.payments st ++ entries
      /\ List.length entries = n
      /\ Forall (fun p => MonthlyPayment.principal p == principal / inject_Z tenor_months)
           entries.
Proof.
  induction n as [|n IH]; intros from st Hn Hfrom HB Hpos.
  - rewrite range_nil by lia. exists st, []. cbn.
    split; [reflexivity|]. split; [rewrite app_nil_r; reflexivity|].
    split; [reflexivity | constructor].
  - rewrite range_cons by lia. unfold run. cbn [for_months]. fold run.
    destruct (loop_body_equal_principal from st)
      as (st1 & b & mp & Hb & Hp & Hbreak & Hrem & Hpr & Hrb);
      [lia | apply Hpos; lia |].
    rewrite Hb. cbn [bind fst snd]. subst b.
    assert (Ht : 0 < inject_Z tenor_months) by (apply inject_Z_pos; lia).
    assert (Hk : 0 < inject_Z (tenor_months - from + 1)) by (apply inject_Z_pos; lia).
    assert (Ek : inject_Z (tenor_months - (from + 1) + 1)
                 == inject_Z (tenor_months - from + 1) - 1).
    { replace (tenor_months - (from + 1) + 1)%Z with (tenor_months - from + 1 - 1)%Z
        by lia.
      unfold Zminus. rewrite inject_Z_plus. reflexivity. }
    set (k := inject_Z (tenor_months - from + 1)) in *.
    set (t := inject_Z tenor_months) in *.
    assert (Eshare : Loop.remaining st / k == principal / t).
    { rewrite HB. field. split; lra. }
    assert (Erem : Loop.remaining st1 == principal * (k - 1) / t).
    { rewrite Hrem, Hrb, Eshare, HB. field. lra. }
    assert (Hhead : MonthlyPayment.principal mp == principal / t) by (rewrite Hpr; exact Eshare).
    destruct (Py.leb (MonthlyPayment.remaining_balance mp) 0) eqn:L.
    + apply leb_true in L. rewrite <- Hrem in L.
      assert (Hlast : from = tenor_months).
      { destruct (Z.eq_dec from tenor_months) as [E|N]; [exact E|]. exfalso.
        assert (2 <= k).
        { unfold k. change 2 with (inject_Z 2). rewrite <- Zle_Qle. lia. }
        assert (0 < principal * (k - 1) / t).
        { apply Qlt_shift_div_l; [exact Ht|]. nra. }
        lra. }
      exists st1, [mp]. split; [reflexivity|]. split; [exact Hp|].
      split; [cbn [List.length]; lia|].
      constructor; [exact Hhead | constructor].
    + apply leb_false in L. rewrite <- Hrem in L.
      destruct (IH (from + 1)%Z st1) as (st2 & entries & Hrun & Hp2 & Hlen & Hall).
      * lia.
      * lia.
      * fold k in Ek. rewrite Ek. exact Erem.
      * intros _. exact L.
      * exists st2, (mp :: entries). split; [exact Hrun|].
        split; [rewrite Hp2, Hp, <- app_assoc; reflexivity|].
        split; [cbn [List.length]; lia|].
        constructor; [exact Hhead | exact Hall].
Qed.

End EqualPrincipalFacts.

(** With the equal-principal method, without grace or prepayment, the
    schedule has one entry for each month of the term and every entry repays
    [principal / tenor_months], whatever the rates. *)
Theorem equal_principal_repays_evenly
    (principal : Q) (tenor_months : Z) (rate_structure : RateStructure.t)
    (grace_interest_months : Z) (fee_structure : option FeeStructure.t)
    (scenario_bump : Q) :
  0 < principal -> (0 < tenor_months)%Z ->
  exists schedule,
    generate_amortization_schedule principal tenor_months rate_structure
      "equal_principal" 0 grace_interest_months fee_structure None scenario_bump
    = Return schedule
    /\ Z.of_nat (List.length (AmortizationSchedule.payments schedule)) = tenor_months
    /\ Forall (fun p => MonthlyPayment.principal p == principal / inject_Z tenor_months)
         (AmortizationSchedule.payments schedule).
Proof.
  intros Hp Ht. unfold generate_amortization_schedule.
  replace (Py.leb principal 0 || (tenor_months <=? 0)%Z) with false.
  2:{ symmetry. apply orb_false_iff. split; [apply leb_false; exact Hp | apply Z.leb_gt; lia]. }
  destruct (run_equal_principal principal tenor_months rate_structure
              grace_interest_months fee_structure scenario_bump Hp
              (Z.to_nat (tenor_months + 1 - 1)) 1
              (initial_loop principal rate_structure fee_structure scenario_bump))
    as (st & entries & Hrun & Hpay & Hlen & Hall).
  - reflexivity.
  - lia.
  - cbn [initial_loop Loop.remaining].
    replace (tenor_months - 1 + 1)%Z with tenor_months by lia.
    assert (0 < inject_Z tenor_months) by (apply inject_Z_pos; lia).
    field. lra.
  - intros _. exact Hp.
  - rewrite Hrun. cbn [bind]. eexists. split; [reflexivity|].
    cbn [AmortizationSchedule.payments]. cbn [initial_loop Loop.payments app] in Hpay.
    rewrite Hpay. split; [lia | exact Hall].
Qed.

Lemma equal_principal_repays_evenly_witness :
  exists schedule,
    generate_amortization_schedule 1200 12 (RateStructure.mk 12 6 2.5 5)
      "equal_principal" 0 0 None None 0
    = Return schedule
    /\ Z.of_nat (List.length (AmortizationSchedule.payments schedule)) = 12%Z
    /\ Forall (fun p => MonthlyPayment.principal p == 1200 / inject_Z 12)
         (AmortizationSchedule.payments schedule).
Proof.
  apply (equal_principal_repays_evenly 1200 12 (RateStructure.mk 12 6 2.5 5) 0 None 0);
    [lra | lia].
Defined.
